(** * redis_etude: a self-electing producer / consumer worker

    Shallow embedding of [redis_etude/util.py], [redis_etude/settings.py],
    [redis_etude/mixin.py] and [redis_etude/application.py].

    The worker talks to three outside parties: the wall clock and the event
    loop ([time.time], [asyncio.sleep], [asyncio.ensure_future]), the redis
    client ([aioredis]) and the lock service client ([aioredlock]).  None of
    them is part of the program, so each is an oracle: a function from the
    number of the call to the answer of that call.  The program is a state
    passing function over the worker object and the oracle cursors, and it
    emits the list of the effects it performed, in order. *)

From Stdlib Require Import ZArith QArith Qround Lqa Lia List String Ascii Bool Arith.
From Stdlib Require Import Qpower Floats.SpecFloat.
Import ListNotations.
Local Open Scope Q_scope.
Local Open Scope string_scope.

(** ** Python values of the program *)

(** The exception classes the program distinguishes in its [except] clauses.
    [LockError] is [aioredlock.LockError], [RedisError] is
    [aioredis.errors.RedisError]; both derive from [Exception] and neither
    derives from the other. *)
Inductive exn : Type :=
| LockError
| RedisError
| TypeError
| AttributeError
| OtherException.

Definition exn_eqb (a b : exn) : bool :=
  match a, b with
  | LockError, LockError | RedisError, RedisError | TypeError, TypeError
  | AttributeError, AttributeError | OtherException, OtherException => true
  | _, _ => false
  end.

(** Strict comparison of two numbers, [x < y]. *)
Definition Qlt_bool (x y : Q) : bool := negb (Qle_bool y x).

(** Truth value of an optional byte string, as in [if msg:] and
    [while err:]: [None] and the empty string are false. *)
Definition truthy_bytes (v : option string) : bool :=
  match v with
  | None => false
  | Some s => negb (String.eqb s EmptyString)
  end.

(** ** settings.py *)

Record Settings : Type := mkSettings {
  generator_timeout : Q;
  connection_timeout : Q;
  reconnect_timeout : Q;
  get_timeout : Q;
  redis_host : string;
  redis_port : Z;
  message_collection : string;
  error_collection : string;
  generator_lock : string;
  lifetime : Q;
  save_history : bool
}.

(** The class attributes of [Settings]. *)
Definition default_settings : Settings := {|
  generator_timeout := 1 # 2;
  connection_timeout := 1;
  reconnect_timeout := 1;
  get_timeout := 5;
  redis_host := "localhost";
  redis_port := 6379%Z;
  message_collection := "msg";
  error_collection := "err";
  generator_lock := "gen";
  lifetime := 0;
  save_history := false
|}.

Definition set_save_history (b : bool) (s : Settings) : Settings :=
  {| generator_timeout := generator_timeout s;
     connection_timeout := connection_timeout s;
     reconnect_timeout := reconnect_timeout s;
     get_timeout := get_timeout s;
     redis_host := redis_host s;
     redis_port := redis_port s;
     message_collection := message_collection s;
     error_collection := error_collection s;
     generator_lock := generator_lock s;
     lifetime := lifetime s;
     save_history := b |}.

Definition set_lifetime (q : Q) (s : Settings) : Settings :=
  {| generator_timeout := generator_timeout s;
     connection_timeout := connection_timeout s;
     reconnect_timeout := reconnect_timeout s;
     get_timeout := get_timeout s;
     redis_host := redis_host s;
     redis_port := redis_port s;
     message_collection := message_collection s;
     error_collection := error_collection s;
     generator_lock := generator_lock s;
     lifetime := q;
     save_history := save_history s |}.

(** ** The outside world *)

(** A redis connection and a lock manager are handles; the program only
    tests them for presence and passes them back to the library. *)
Definition conn : Type := nat.
Definition lockmgr : Type := nat.

(** [aioredlock.Lock]: the resource name, the token and the [valid] flag. *)
Record Lock : Type := mkLock {
  lock_resource : string;
  lock_id : nat;
  valid : bool
}.

(** The three connection methods the program calls, indexed by the type of
    what they return: RPUSH the new length, LPOP a value or [None], BLPOP a
    [(queue, value)] pair or [None]. *)
Inductive method : Type -> Type :=
| rpush (collection item : string) : method Z
| lpop (collection : string) : method (option string)
| blpop (collection : string) (timeout : Q) : method (option (string * string)).

Definition method_name {R} (m : method R) : string :=
  match m with
  | rpush _ _ => "rpush"
  | lpop _ => "lpop"
  | blpop _ _ => "blpop"
  end.

(** The tasks handed to [asyncio.ensure_future]. *)
Inductive task : Type :=
| Task_handle_msg_err (msg : string)
| Task_handle_err (err : string).

(** The records written to the logger, one constructor per call site. *)
Inductive logrec : Type :=
| Log_try_acquire
| Log_acquired
| Log_acquire_failed
| Log_try_extend
| Log_extended
| Log_extend_failed
| Log_method_failed (name : string)
| Log_exception (e : exn)
| Log_debug (e : exn)
| Log_connecting (host : string) (port : Z)
| Log_connected
| Log_connection_failed
| Log_creating_lock_client
| Log_lock_client_connected
| Log_lock_client_failed
| Log_stopping
| Log_app_stopped
| Log_running_generator
| Log_generator_stopping
| Log_running_receiver
| Log_no_messages
| Log_errors_retrieved (count : Z)
| Log_posting (msg : string)
| Log_posted (msg : string) (waiting : Z)
| Log_msg_received (msg : string)
| Log_msg_error (msg : string)
| Log_err_stored (msg : string)
| Log_handling_error (err : string).

(** The effects of the program, in the order it performs them. *)
Inductive event : Type :=
| EvLog (r : logrec)
| EvSleep (d : Q)
| EvConnect (r : conn + exn)
| EvClose (c : conn) (r : option exn)
| EvCall (R : Type) (c : conn) (m : method R) (r : R + exn)
| EvLockManager (r : lockmgr + exn)
| EvLock (resource : string) (r : Lock + exn)
| EvExtend (l : Lock) (r : option exn)
| EvSpawn (t : task).

Arguments EvCall {R} c m r.

(** The answers of the outside world.  [env_delay n] is the time that
    passes before the [n]-th reading of the clock; the other fields answer
    the [n]-th call of the operation they are named after. *)
Record Env : Type := mkEnv {
  env_delay : nat -> Q;
  env_random : nat -> Q;
  env_connect : nat -> conn + exn;
  env_close : nat -> option exn;
  env_redis : forall R, method R -> nat -> R + exn;
  env_lock_manager : nat -> lockmgr + exn;
  env_lock : nat -> Lock + exn;
  env_extend : nat -> option exn
}.

(** ** The worker object *)

(** The attributes of [App] set by [RedisMixin.__init__] and
    [App.__init__]. *)
Record App : Type := mkApp {
  settings : Settings;
  _connection : option conn;
  _lock_manager : option lockmgr;
  _lock : option Lock;
  _start_time : option Q;
  _stop : bool;
  sent_messages : list string;
  sent_errors : list string;
  received_messages : list string;
  received_errors : list string
}.

(** The worker together with the clock, the positions in the oracles and
    the tasks scheduled on the event loop that have not run yet. *)
Record World : Type := mkWorld {
  self : App;
  clock : Q;
  n_delay : nat;
  n_random : nat;
  n_connect : nat;
  n_close : nat;
  n_redis : nat;
  n_lock_manager : nat;
  n_lock : nat;
  n_extend : nat;
  pending : list task
}.

Definition with_self (f : App -> App) (w : World) : World :=
  {| self := f (self w); clock := clock w; n_delay := n_delay w;
     n_random := n_random w; n_connect := n_connect w; n_close := n_close w;
     n_redis := n_redis w; n_lock_manager := n_lock_manager w;
     n_lock := n_lock w; n_extend := n_extend w; pending := pending w |}.

Definition set_settings (s : Settings) (a : App) : App :=
  {| settings := s; _connection := _connection a;
     _lock_manager := _lock_manager a; _lock := _lock a;
     _start_time := _start_time a; _stop := _stop a;
     sent_messages := sent_messages a; sent_errors := sent_errors a;
     received_messages := received_messages a;
     received_errors := received_errors a |}.

Definition set_connection (c : option conn) (a : App) : App :=
  {| settings := settings a; _connection := c;
     _lock_manager := _lock_manager a; _lock := _lock a;
     _start_time := _start_time a; _stop := _stop a;
     sent_messages := sent_messages a; sent_errors := sent_errors a;
     received_messages := received_messages a;
     received_errors := received_errors a |}.

Definition set_lock_manager (m : option lockmgr) (a : App) : App :=
  {| settings := settings a; _connection := _connection a;
     _lock_manager := m; _lock := _lock a;
     _start_time := _start_time a; _stop := _stop a;
     sent_messages := sent_messages a; sent_errors := sent_errors a;
     received_messages := received_messages a;
     received_errors := received_errors a |}.

Definition set_lock (l : option Lock) (a : App) : App :=
  {| settings := settings a; _connection := _connection a;
     _lock_manager := _lock_manager a; _lock := l;
     _start_time := _start_time a; _stop := _stop a;
     sent_messages := sent_messages a; sent_errors := sent_errors a;
     received_messages := received_messages a;
     received_errors := received_errors a |}.

Definition set_start_time (t : option Q) (a : App) : App :=
  {| settings := settings a; _connection := _connection a;
     _lock_manager := _lock_manager a; _lock := _lock a;
     _start_time := t; _stop := _stop a;
     sent_messages := sent_messages a; sent_errors := sent_errors a;
     received_messages := received_messages a;
     received_errors := received_errors a |}.

Definition set_stop (b : bool) (a : App) : App :=
  {| settings := settings a; _connection := _connection a;
     _lock_manager := _lock_manager a; _lock := _lock a;
     _start_time := _start_time a; _stop := b;
     sent_messages := sent_messages a; sent_errors := sent_errors a;
     received_messages := received_messages a;
     received_errors := received_errors a |}.

Definition append_sent_messages (m : string) (a : App) : App :=
  {| settings := settings a; _connection := _connection a;
     _lock_manager := _lock_manager a; _lock := _lock a;
     _start_time := _start_time a; _stop := _stop a;
     sent_messages := sent_messages a ++ [m]; sent_errors := sent_errors a;
     received_messages := received_messages a;
     received_errors := received_errors a |}.

Definition append_sent_errors (m : string) (a : App) : App :=
  {| settings := settings a; _connection := _connection a;
     _lock_manager := _lock_manager a; _lock := _lock a;
     _start_time := _start_time a; _stop := _stop a;
     sent_messages := sent_messages a; sent_errors := sent_errors a ++ [m];
     received_messages := received_messages a;
     received_errors := received_errors a |}.

Definition append_received_messages (m : string) (a : App) : App :=
  {| settings := settings a; _connection := _connection a;
     _lock_manager := _lock_manager a; _lock := _lock a;
     _start_time := _start_time a; _stop := _stop a;
     sent_messages := sent_messages a; sent_errors := sent_errors a;
     received_messages := received_messages a ++ [m];
     received_errors := received_errors a |}.

Definition append_received_errors (m : string) (a : App) : App :=
  {| settings := settings a; _connection := _connection a;
     _lock_manager := _lock_manager a; _lock := _lock a;
     _start_time := _start_time a; _stop := _stop a;
     sent_messages := sent_messages a; sent_errors := sent_errors a;
     received_messages := received_messages a;
     received_errors := received_errors a ++ [m] |}.

(** [App.__init__] without the logger: no connection, no lock, not started,
    not stopped, empty histories. *)
Definition App_init (s : Settings) : App :=
  {| settings := s; _connection := None; _lock_manager := None;
     _lock := None; _start_time := None; _stop := false;
     sent_messages := []; sent_errors := []; received_messages := [];
     received_errors := [] |}.

(** ** The monad of the program *)

(** A call returns, raises, or is still running when the fuel of the model
    is used up. *)
Inductive outcome (A : Type) : Type :=
| Done (a : A)
| Raised (e : exn)
| OutOfFuel.

Arguments Done {A} a.
Arguments Raised {A} e.
Arguments OutOfFuel {A}.

Record Res (A : Type) : Type := mkRes {
  out : outcome A;
  final : World;
  emitted : list event
}.

Arguments mkRes {A} out final emitted.
Arguments out {A} r.
Arguments final {A} r.
Arguments emitted {A} r.

Definition M (A : Type) : Type := World -> Res A.

Definition ret {A} (a : A) : M A := fun w => mkRes (Done a) w [].

Definition raise {A} (e : exn) : M A := fun w => mkRes (Raised e) w [].

Definition out_of_fuel {A} : M A := fun w => mkRes OutOfFuel w [].

Definition bind {A B} (m : M A) (f : A -> M B) : M B := fun w =>
  match m w with
  | mkRes (Done a) w1 tr1 =>
      match f a w1 with
      | mkRes o w2 tr2 => mkRes o w2 (tr1 ++ tr2)
      end
  | mkRes (Raised e) w1 tr1 => mkRes (Raised e) w1 tr1
  | mkRes OutOfFuel w1 tr1 => mkRes OutOfFuel w1 tr1
  end.

(** [try: m  except <classes>: h]: the handler runs when [m] raises an
    exception the clause selects. *)
Definition try_except {A} (m : M A) (selects : exn -> bool) (h : exn -> M A)
  : M A := fun w =>
  match m w with
  | mkRes (Raised e) w1 tr1 =>
      if selects e then
        match h e w1 with
        | mkRes o w2 tr2 => mkRes o w2 (tr1 ++ tr2)
        end
      else mkRes (Raised e) w1 tr1
  | r => r
  end.

Definition except_LockError (e : exn) : bool := exn_eqb e LockError.
Definition except_RedisError (e : exn) : bool := exn_eqb e RedisError.
Definition except_Exception (e : exn) : bool := true.

Declare Scope py_scope.
Delimit Scope py_scope with py.
Notation "x <- m ;; k" := (bind m (fun x => k))
  (at level 61, m at next level, right associativity) : py_scope.
Notation "m ;; k" := (bind m (fun _ => k))
  (at level 61, right associativity) : py_scope.
Local Open Scope py_scope.

Definition emit (e : event) : M unit := fun w => mkRes (Done tt) w [e].

Definition log (r : logrec) : M unit := emit (EvLog r).

Definition get_self : M App := fun w => mkRes (Done (self w)) w [].

Definition modify_self (f : App -> App) : M unit := fun w =>
  mkRes (Done tt) (with_self f w) [].

(** ** The program, over a fixed outside world *)

Section Program.

Variable env : Env.

(** *** Library calls *)

(** [time.time()]: some time has passed since the last reading. *)
Definition time_time : M Q := fun w =>
  let t := clock w + env_delay env (n_delay w) in
  mkRes (Done t)
    {| self := self w; clock := t; n_delay := S (n_delay w);
       n_random := n_random w; n_connect := n_connect w;
       n_close := n_close w; n_redis := n_redis w;
       n_lock_manager := n_lock_manager w; n_lock := n_lock w;
       n_extend := n_extend w; pending := pending w |}
    [].

(** [await asyncio.sleep(d)]: the task resumes no sooner than [d] later; a
    delay that is not positive only yields to the event loop. *)
Definition asyncio_sleep (d : Q) : M unit := fun w =>
  mkRes (Done tt)
    {| self := self w;
       clock := if Qlt_bool 0 d then clock w + d else clock w;
       n_delay := n_delay w;
       n_random := n_random w; n_connect := n_connect w;
       n_close := n_close w; n_redis := n_redis w;
       n_lock_manager := n_lock_manager w; n_lock := n_lock w;
       n_extend := n_extend w; pending := pending w |}
    [EvSleep d].

(** [random.random()]. *)
Definition random_random : M Q := fun w =>
  mkRes (Done (env_random env (n_random w)))
    {| self := self w; clock := clock w; n_delay := n_delay w;
       n_random := S (n_random w); n_connect := n_connect w;
       n_close := n_close w; n_redis := n_redis w;
       n_lock_manager := n_lock_manager w; n_lock := n_lock w;
       n_extend := n_extend w; pending := pending w |}
    [].

Definition of_sum {A} (r : A + exn) : outcome A :=
  match r with
  | inl a => Done a
  | inr e => Raised e
  end.

Definition of_status (r : option exn) : outcome unit :=
  match r with
  | None => Done tt
  | Some e => Raised e
  end.

(** [await aioredis.create_redis(address, loop=..., timeout=...)]. *)
Definition aioredis_create_redis : M conn := fun w =>
  let r := env_connect env (n_connect w) in
  mkRes (of_sum r)
    {| self := self w; clock := clock w; n_delay := n_delay w;
       n_random := n_random w; n_connect := S (n_connect w);
       n_close := n_close w; n_redis := n_redis w;
       n_lock_manager := n_lock_manager w; n_lock := n_lock w;
       n_extend := n_extend w; pending := pending w |}
    [EvConnect r].

(** [connection.close()]. *)
Definition connection_close (c : conn) : M unit := fun w =>
  let r := env_close env (n_close w) in
  mkRes (of_status r)
    {| self := self w; clock := clock w; n_delay := n_delay w;
       n_random := n_random w; n_connect := n_connect w;
       n_close := S (n_close w); n_redis := n_redis w;
       n_lock_manager := n_lock_manager w; n_lock := n_lock w;
       n_extend := n_extend w; pending := pending w |}
    [EvClose c r].

(** The call of the connection method named by [method], with the
    arguments of the caller. *)
Definition connection_call {R} (c : conn) (m : method R) : M R := fun w =>
  let r := env_redis env R m (n_redis w) in
  mkRes (of_sum r)
    {| self := self w; clock := clock w; n_delay := n_delay w;
       n_random := n_random w; n_connect := n_connect w;
       n_close := n_close w; n_redis := S (n_redis w);
       n_lock_manager := n_lock_manager w; n_lock := n_lock w;
       n_extend := n_extend w; pending := pending w |}
    [EvCall c m r].

(** [aioredlock.Aioredlock(instances, lock_timeout=...)]. *)
Definition Aioredlock_new : M lockmgr := fun w =>
  let r := env_lock_manager env (n_lock_manager w) in
  mkRes (of_sum r)
    {| self := self w; clock := clock w; n_delay := n_delay w;
       n_random := n_random w; n_connect := n_connect w;
       n_close := n_close w; n_redis := n_redis w;
       n_lock_manager := S (n_lock_manager w); n_lock := n_lock w;
       n_extend := n_extend w; pending := pending w |}
    [EvLockManager r].

(** [await lock_manager.lock(resource)]. *)
Definition lock_manager_lock (lm : lockmgr) (resource : string) : M Lock :=
  fun w =>
  let r := env_lock env (n_lock w) in
  mkRes (of_sum r)
    {| self := self w; clock := clock w; n_delay := n_delay w;
       n_random := n_random w; n_connect := n_connect w;
       n_close := n_close w; n_redis := n_redis w;
       n_lock_manager := n_lock_manager w; n_lock := S (n_lock w);
       n_extend := n_extend w; pending := pending w |}
    [EvLock resource r].

(** [await lock_manager.extend(lock)]. *)
Definition lock_manager_extend (lm : lockmgr) (l : Lock) : M unit := fun w =>
  let r := env_extend env (n_extend w) in
  mkRes (of_status r)
    {| self := self w; clock := clock w; n_delay := n_delay w;
       n_random := n_random w; n_connect := n_connect w;
       n_close := n_close w; n_redis := n_redis w;
       n_lock_manager := n_lock_manager w; n_lock := n_lock w;
       n_extend := S (n_extend w); pending := pending w |}
    [EvExtend l r].

(** [asyncio.ensure_future(coro, loop=...)]: the task is scheduled and the
    caller goes on; the body of the task has not run when the call
    returns. *)
Definition asyncio_ensure_future (t : task) : M unit := fun w =>
  mkRes (Done tt)
    {| self := self w; clock := clock w; n_delay := n_delay w;
       n_random := n_random w; n_connect := n_connect w;
       n_close := n_close w; n_redis := n_redis w;
       n_lock_manager := n_lock_manager w; n_lock := n_lock w;
       n_extend := n_extend w; pending := pending w ++ [t] |}
    [EvSpawn t].

(** [random.choices(population, k=k)]: one draw per element, the element at
    index [floor(random() * len(population))]. *)
Fixpoint random_choices (population : list ascii) (k : nat)
  : M (list ascii) :=
  match k with
  | O => ret []
  | S k' =>
      r <- random_random ;;
      let i := Z.to_nat (Qfloor (r * inject_Z (Z.of_nat (List.length population)))) in
      rest <- random_choices population k' ;;
      ret (nth i population "0"%char :: rest)
  end.

(** [string.hexdigits]. *)
Definition hexdigits : list ascii :=
  list_ascii_of_string "0123456789abcdefABCDEF".

(** *** util.py *)

Record Ticker : Type := mkTicker {
  timeout : Q;
  last_call : Q
}.

(** [Ticker.__init__]. *)
Definition Ticker_init (timeout : Q) : M Ticker :=
  now <- time_time ;;
  ret (mkTicker timeout (now - timeout)).

(** [Ticker.__anext__]; the ticker after the call is returned. *)
Definition Ticker_anext (tk : Ticker) : M Ticker :=
  now <- time_time ;;
  let clear_time := last_call tk + timeout tk in
  (if Qlt_bool now clear_time
   then asyncio_sleep (clear_time - now)
   else ret tt) ;;
  t <- time_time ;;
  ret (mkTicker (timeout tk) t).

(** *** mixin.py *)

(** The [while True] loop of [_get_connection]. *)
Fixpoint _get_connection_loop (fuel : nat) : M conn :=
  match fuel with
  | O => out_of_fuel
  | S fuel' =>
      a <- get_self ;;
      r <- try_except
             (log (Log_connecting (redis_host (settings a))
                                  (redis_port (settings a))) ;;
              c <- aioredis_create_redis ;;
              modify_self (set_connection (Some c)) ;;
              log Log_connected ;;
              ret (Some c))
             except_Exception
             (fun exc =>
              log Log_connection_failed ;;
              log (Log_exception exc) ;;
              asyncio_sleep (reconnect_timeout (settings a)) ;;
              ret None) ;;
      match r with
      | Some c => ret c
      | None => _get_connection_loop fuel'
      end
  end.

Definition _get_connection (fuel : nat) : M conn :=
  a <- get_self ;;
  match _connection a with
  | Some c => ret c
  | None => _get_connection_loop fuel
  end.

(** The [while True] loop of [_get_lock_manager]. *)
Fixpoint _get_lock_manager_loop (fuel : nat) : M lockmgr :=
  match fuel with
  | O => out_of_fuel
  | S fuel' =>
      a <- get_self ;;
      r <- try_except
             (log Log_creating_lock_client ;;
              lm <- Aioredlock_new ;;
              modify_self (set_lock_manager (Some lm)) ;;
              log Log_lock_client_connected ;;
              ret (Some lm))
             except_Exception
             (fun exc =>
              log Log_lock_client_failed ;;
              log (Log_exception exc) ;;
              asyncio_sleep (reconnect_timeout (settings a)) ;;
              ret None) ;;
      match r with
      | Some lm => ret lm
      | None => _get_lock_manager_loop fuel'
      end
  end.

Definition _get_lock_manager (fuel : nat) : M lockmgr :=
  a <- get_self ;;
  match _lock_manager a with
  | Some lm => ret lm
  | None => _get_lock_manager_loop fuel
  end.

Definition _become_a_gen (fuel : nat) : M bool :=
  lock_manager <- _get_lock_manager fuel ;;
  try_except
    (log Log_try_acquire ;;
     a <- get_self ;;
     l <- lock_manager_lock lock_manager (generator_lock (settings a)) ;;
     modify_self (set_lock (Some l)) ;;
     log Log_acquired ;;
     ret true)
    except_LockError
    (fun _ =>
     log Log_acquire_failed ;;
     ret false).

(** [not self._lock or not self._lock.valid]. *)
Definition lock_unusable (l : option Lock) : bool :=
  match l with
  | None => true
  | Some l => negb (valid l)
  end.

Definition _extend_gen_lock (fuel : nat) : M bool :=
  try_except
    (a <- get_self ;;
     acquired <- (if lock_unusable (_lock a)
                  then _become_a_gen fuel
                  else ret true) ;;
     if negb acquired then ret false
     else
       lock_manager <- _get_lock_manager fuel ;;
       log Log_try_extend ;;
       a' <- get_self ;;
       match _lock a' with
       | Some l => lock_manager_extend lock_manager l
       | None => raise AttributeError
       end ;;
       log Log_extended ;;
       ret true)
    except_LockError
    (fun _ =>
     log Log_extend_failed ;;
     ret false).

(** The [while True] loop of [_conn_execute].  [assert conn] never fails:
    [_get_connection] returns a connection object. *)
Fixpoint _conn_execute {R} (fuel : nat) (m : method R) : M R :=
  match fuel with
  | O => out_of_fuel
  | S fuel' =>
      c <- _get_connection fuel' ;;
      r <- try_except
             (v <- connection_call c m ;;
              ret (Some v))
             except_RedisError
             (fun exc =>
              log (Log_method_failed (method_name m)) ;;
              log (Log_exception exc) ;;
              try_except
                (a <- get_self ;;
                 match _connection a with
                 | Some c' => connection_close c'
                 | None => raise AttributeError
                 end)
                except_Exception
                (fun exc' => log (Log_debug exc')) ;;
              modify_self (set_connection None) ;;
              a <- get_self ;;
              asyncio_sleep (connection_timeout (settings a)) ;;
              ret None) ;;
      match r with
      | Some v => ret v
      | None => _conn_execute fuel' m
      end
  end.

Definition _rpush (fuel : nat) (collection item : string) : M Z :=
  _conn_execute fuel (rpush collection item).

Definition _lpop (fuel : nat) (collection : string) : M (option string) :=
  _conn_execute fuel (lpop collection).

Definition _blpop (fuel : nat) (collection : string) (timeout : Q)
  : M (option (string * string)) :=
  _conn_execute fuel (blpop collection timeout).

(** *** application.py *)

(** [App.stop]. *)
Definition stop : M unit :=
  log Log_stopping ;;
  modify_self (set_stop true).

(** [App._keep_going].  With a lifetime configured and no start time the
    sum [self._start_time + self.settings.lifetime] raises [TypeError]. *)
Definition _keep_going : M bool :=
  a <- get_self ;;
  if _stop a then ret false
  else if Qeq_bool (lifetime (settings a)) 0 then ret true
  else
    match _start_time a with
    | None => raise TypeError
    | Some start =>
        now <- time_time ;;
        ret (Qlt_bool now (start + lifetime (settings a)))
    end.

(** The bytes of a value that passed a truth test. *)
Definition bytes_of (v : option string) : string :=
  match v with
  | Some s => s
  | None => EmptyString
  end.

(** [_get_msg]: the reply of BLPOP is true when it is a pair, and then the
    second component is returned; otherwise the reply itself, [None], is
    returned. *)
Definition _get_msg (fuel : nat) : M (option string) :=
  a <- get_self ;;
  result <- _blpop fuel (message_collection (settings a))
                   (get_timeout (settings a)) ;;
  match result with
  | Some (_, msg) => ret (Some msg)
  | None => ret None
  end.

Definition _post_msg (fuel : nat) (msg : string) : M unit :=
  log (Log_posting msg) ;;
  a <- get_self ;;
  result <- _rpush fuel (message_collection (settings a)) msg ;;
  (if save_history (settings a)
   then modify_self (append_sent_messages msg)
   else ret tt) ;;
  log (Log_posted msg result).

Definition _get_err (fuel : nat) : M (option string) :=
  a <- get_self ;;
  _lpop fuel (error_collection (settings a)).

(** The default of the parameter [err_rate] of [_handle_msg]. *)
Definition default_err_rate : Q := 5 # 100.

Definition _handle_msg (msg : string) (err_rate : Q) : M unit :=
  log (Log_msg_received msg) ;;
  a <- get_self ;;
  (if save_history (settings a)
   then modify_self (append_received_messages msg)
   else ret tt) ;;
  draw <- random_random ;;
  if Qlt_bool draw err_rate
  then asyncio_ensure_future (Task_handle_msg_err msg)
  else ret tt.

Definition _handle_msg_err (fuel : nat) (msg : string) : M unit :=
  log (Log_msg_error msg) ;;
  a <- get_self ;;
  _rpush fuel (error_collection (settings a)) msg ;;
  (if save_history (settings a)
   then modify_self (append_sent_errors msg)
   else ret tt) ;;
  log (Log_err_stored msg).

Definition _handle_err (err : string) : M unit :=
  log (Log_handling_error err) ;;
  a <- get_self ;;
  if save_history (settings a)
  then modify_self (append_received_errors err)
  else ret tt.

Definition _gen_msg : M string :=
  cs <- random_choices hexdigits 32 ;;
  ret (string_of_list_ascii cs).

(** What a scheduled task does once the event loop runs it. *)
Definition run_task (fuel : nat) (t : task) : M unit :=
  match t with
  | Task_handle_msg_err msg => _handle_msg_err fuel msg
  | Task_handle_err err => _handle_err err
  end.

(** The [async for] loop of [async_run_gen], one [__anext__] per
    iteration. *)
Fixpoint async_run_gen_loop (fuel : nat) (tk : Ticker) : M unit :=
  match fuel with
  | O => out_of_fuel
  | S fuel' =>
      tk' <- Ticker_anext tk ;;
      go <- _keep_going ;;
      if negb go then ret tt
      else
        extended <- _extend_gen_lock fuel' ;;
        if extended then
          msg <- _gen_msg ;;
          _post_msg fuel' msg ;;
          async_run_gen_loop fuel' tk'
        else
          log Log_generator_stopping ;;
          ret tt
  end.

Definition async_run_gen (fuel : nat) : M unit :=
  log Log_running_generator ;;
  a <- get_self ;;
  tk <- Ticker_init (generator_timeout (settings a)) ;;
  async_run_gen_loop fuel tk.

(** The [while] loop of [async_run_receiver]. *)
Fixpoint async_run_receiver_loop (fuel : nat) : M unit :=
  match fuel with
  | O => out_of_fuel
  | S fuel' =>
      go <- _keep_going ;;
      if negb go then ret tt
      else
        msg <- _get_msg fuel' ;;
        if truthy_bytes msg then
          _handle_msg (bytes_of msg) default_err_rate ;;
          async_run_receiver_loop fuel'
        else
          log Log_no_messages ;;
          ret tt
  end.

Definition async_run_receiver (fuel : nat) : M unit :=
  log Log_running_receiver ;;
  async_run_receiver_loop fuel.

(** The [while err] loop of [async_get_errors]. *)
Fixpoint async_get_errors_loop (fuel : nat) (err : option string)
    (err_count : Z) : M unit :=
  match fuel with
  | O => out_of_fuel
  | S fuel' =>
      if truthy_bytes err then
        asyncio_ensure_future (Task_handle_err (bytes_of err)) ;;
        err' <- _get_err fuel' ;;
        async_get_errors_loop fuel' err' (err_count + 1)%Z
      else
        log (Log_errors_retrieved err_count) ;;
        ret tt
  end.

Definition async_get_errors (fuel : nat) : M unit :=
  err <- _get_err fuel ;;
  async_get_errors_loop fuel err 0%Z.

(** The [while] loop of [async_run]. *)
Fixpoint async_run_loop (fuel : nat) : M unit :=
  match fuel with
  | O => out_of_fuel
  | S fuel' =>
      go <- _keep_going ;;
      if go then
        leader <- _become_a_gen fuel' ;;
        (if leader then async_run_gen fuel' else async_run_receiver fuel') ;;
        async_run_loop fuel'
      else
        log Log_app_stopped ;;
        ret tt
  end.

Definition async_run (fuel : nat) : M unit :=
  now <- time_time ;;
  modify_self (set_start_time (Some now)) ;;
  async_run_loop fuel.

End Program.

(** ** Concrete worlds *)

(** An outside world in which nothing fails and no time is lost: every
    reading of the clock comes [delay] after the previous one, every draw
    is [draw]. *)
Definition calm_env (delay draw : Q) : Env := {|
  env_delay := fun _ => delay;
  env_random := fun _ => draw;
  env_connect := fun n => inl n;
  env_close := fun _ => None;
  env_redis := fun R m _ =>
    match m in method T return T + exn with
    | rpush _ _ => inl 1%Z
    | lpop _ => inl None
    | blpop _ _ => inl None
    end;
  env_lock_manager := fun n => inl n;
  env_lock := fun n => inl (mkLock "gen" n true);
  env_extend := fun _ => None
|}.

(** A fresh worker at time [t]. *)
Definition fresh_world (s : Settings) (t : Q) : World := {|
  self := App_init s; clock := t; n_delay := 0; n_random := 0;
  n_connect := 0; n_close := 0; n_redis := 0; n_lock_manager := 0;
  n_lock := 0; n_extend := 0; pending := []
|}.

(** A worker with a lifetime of five seconds whose run began at time 0,
    looked at when the clock reads [t]. *)
Definition world_lifetime_5 (t : Q) : World :=
  with_self (set_start_time (Some 0))
    (fresh_world (set_lifetime 5 default_settings) t).

(** ** Vocabulary of the properties *)

(** The reading of the clock that [_keep_going] takes in world [w]. *)
Definition clock_reading (env : Env) (w : World) : Q :=
  clock w + env_delay env (n_delay w).


(** One of the next [fuel] answers of the oracle [o], from answer [n] on,
    is a success. *)
Fixpoint answers_within {A} (o : nat -> A + exn) (n fuel : nat) : bool :=
  match fuel with
  | O => false
  | S fuel' =>
      match o n with
      | inl _ => true
      | inr _ => answers_within o (S n) fuel'
      end
  end.

(** The lock manager exists, or its construction succeeds within [fuel]
    attempts. *)
Definition lock_manager_ready (env : Env) (fuel : nat) (w : World) : bool :=
  match _lock_manager (self w) with
  | Some _ => true
  | None => answers_within (env_lock_manager env) (n_lock_manager w) fuel
  end.

(** The world without what [_get_lock_manager] may change: the clock, the
    manager and the count of constructions. *)
Definition forget_lock_manager (w : World) : World :=
  {| self := set_lock_manager None (self w); clock := 0;
     n_delay := n_delay w; n_random := n_random w;
     n_connect := n_connect w; n_close := n_close w; n_redis := n_redis w;
     n_lock_manager := 0; n_lock := n_lock w; n_extend := n_extend w;
     pending := pending w |}.

(** A world in which the lock is held by somebody else: every acquisition
    fails with [LockError]. *)
Definition contended_env : Env := {|
  env_delay := fun _ => 0;
  env_random := fun _ => 0;
  env_connect := fun n => inl n;
  env_close := fun _ => None;
  env_redis := env_redis (calm_env 0 0);
  env_lock_manager := fun n => inl n;
  env_lock := fun _ => inr LockError;
  env_extend := fun _ => Some LockError
|}.

(** The calls of [lock_manager.lock] in a run, with their answers. *)
Fixpoint lock_calls (tr : list event) : list (string * (Lock + exn)) :=
  match tr with
  | [] => []
  | EvLock name r :: tr' => (name, r) :: lock_calls tr'
  | _ :: tr' => lock_calls tr'
  end.

(** The calls of [lock_manager.extend] in a run, with their answers. *)
Fixpoint extend_calls (tr : list event) : list (Lock * option exn) :=
  match tr with
  | [] => []
  | EvExtend l r :: tr' => (l, r) :: extend_calls tr'
  | _ :: tr' => extend_calls tr'
  end.

(** Events that are no call of the lock service. *)
Definition not_lock_service (e : event) : Prop :=
  match e with
  | EvLock _ _ | EvExtend _ _ => False
  | _ => True
  end.

(** What [_extend_gen_lock] makes of the answer of the lock service to
    an extension. *)
Definition extension_result (answer : option exn) : outcome bool :=
  match answer with
  | None => Done true
  | Some e => if except_LockError e then Done false else Raised e
  end.

(** *** Runs checked by an automaton *)

(** A property of runs is given by an automaton that reads the effects in
    order; [None] is the rejection of the run. *)
Section Observer.

Context {S : Type} (step : S -> event -> option S).

Fixpoint run_events (s : S) (tr : list event) : option S :=
  match tr with
  | [] => Some s
  | e :: tr' =>
      match step s e with
      | Some s' => run_events s' tr'
      | None => None
      end
  end.

End Observer.

(** *** The shape of a run of [_conn_execute] *)

(** The connection exists, or connecting succeeds within [fuel]
    attempts. *)
Definition connection_ready (env : Env) (fuel : nat) (w : World) : bool :=
  match _connection (self w) with
  | Some _ => true
  | None => answers_within (env_connect env) (n_connect w) fuel
  end.

(** The world without what [_get_connection] may change: the clock, the
    connection and the count of connection attempts. *)
Definition forget_connection (w : World) : World :=
  {| self := set_connection None (self w); clock := 0;
     n_delay := n_delay w; n_random := n_random w;
     n_connect := 0; n_close := n_close w; n_redis := n_redis w;
     n_lock_manager := n_lock_manager w; n_lock := n_lock w;
     n_extend := n_extend w; pending := pending w |}.

(** Two calls are the same call: same method, same arguments. *)
Definition method_eqb {R R'} (m : method R) (m' : method R') : bool :=
  match m, m' with
  | rpush c i, rpush c' i' => String.eqb c c' && String.eqb i i'
  | lpop c, lpop c' => String.eqb c c'
  | blpop c t, blpop c' t' => String.eqb c c' && Qeq_bool t t'
  | _, _ => false
  end.

(** Where a run of [_conn_execute] stands, with the number of failed
    attempts so far: no connection yet, connected and about to call, the
    call on connection [c] has just failed, the connection has been closed,
    the call has returned. *)
Inductive retry_state : Type :=
| Reconnecting (failures : nat)
| Connected (failures : nat)
| Failed (failures : nat) (c : conn)
| Closed (failures : nat)
| Returned (failures : nat).

(** The run the executor is meant to make for the call [m] with back-off
    [ct]: connect (with sleeps between failed attempts), call; after a
    call that fails with [RedisError], close the connection the call went
    through, sleep exactly [ct], connect again and call again; stop at the
    first call that returns.  Log records are not constrained. *)
Definition retry_step (ct : Q) {R} (m : method R) (s : retry_state)
    (e : event) : option retry_state :=
  match e with
  | EvLog _ => Some s
  | EvConnect r =>
      match s with
      | Reconnecting k =>
          Some (match r with inl _ => Connected k | inr _ => Reconnecting k end)
      | _ => None
      end
  | EvSleep d =>
      match s with
      | Reconnecting k => Some (Reconnecting k)
      | Closed k => if Qeq_bool d ct then Some (Reconnecting k) else None
      | _ => None
      end
  | EvCall c m' r =>
      match s with
      | Connected k =>
          if method_eqb m m' then
            match r with
            | inl _ => Some (Returned k)
            | inr RedisError => Some (Failed (S k) c)
            | inr _ => None
            end
          else None
      | _ => None
      end
  | EvClose c _ =>
      match s with
      | Failed k c' => if Nat.eqb c c' then Some (Closed k) else None
      | _ => None
      end
  | _ => None
  end.

Definition retry_run (ct : Q) {R} (m : method R)
  : retry_state -> list event -> option retry_state :=
  run_events (retry_step ct m).

(** The state in which an iteration of [_conn_execute] starts in world
    [w], after [k] failed attempts. *)
Definition retry_resume (w : World) (k : nat) : retry_state :=
  match _connection (self w) with
  | Some _ => Connected k
  | None => Reconnecting k
  end.

(** A world in which the first [n] calls of redis fail with [RedisError]
    and every second attempt to connect fails. *)
Definition flaky_env (n : nat) : Env := {|
  env_delay := fun _ => 0;
  env_random := fun _ => 0;
  env_connect := fun k => if Nat.even k then inr OtherException else inl k;
  env_close := fun _ => None;
  env_redis := fun R m k =>
    if Nat.ltb k n then inr RedisError else env_redis (calm_env 0 0) R m k;
  env_lock_manager := fun k => inl k;
  env_lock := fun k => inl (mkLock "gen" k true);
  env_extend := fun _ => None
|}.

(** *** Histories *)

(** The four history lists of the worker. *)
Definition histories (w : World)
  : list string * list string * list string * list string :=
  (sent_messages (self w), sent_errors (self w),
   received_messages (self w), received_errors (self w)).

(** [m] leaves the view [view] of the world as it found it, however it
    ends. *)
Definition preserves {A X} (view : World -> X) (m : M A) : Prop :=
  forall w, view (final (m w)) = view w.

(** The settings and the histories. *)
Definition archive (w : World) :=
  (settings (self w), histories w).

(** *** Consumer side *)

(** The event is a call of a connection method. *)
Definition is_redis_call (e : event) : bool :=
  match e with
  | EvCall _ _ _ => true
  | _ => false
  end.

(** A world in which the message queue holds [msgs], and nothing else
    arrives: the [n]-th call of redis pops the [n]-th message. *)
Definition queue_env (draw : Q) (msgs : list string) : Env := {|
  env_delay := fun _ => 0;
  env_random := fun _ => draw;
  env_connect := fun n => inl n;
  env_close := fun _ => None;
  env_redis := fun R m n =>
    match m in method T return T + exn with
    | rpush _ _ => inl 1%Z
    | lpop _ => inl (nth_error msgs n)
    | blpop c _ =>
        inl match nth_error msgs n with
            | Some s => Some (c, s)
            | None => None
            end
    end;
  env_lock_manager := fun n => inl n;
  env_lock := fun _ => inr LockError;
  env_extend := fun _ => Some LockError
|}.

(** *** The producer and its lease *)

(** Where the producer stands with respect to its lease: the lease has not
    been extended since the last message was posted (or since the loop
    began), the last call of the lock service was an extension that
    succeeded and no message has been posted since, or a call of the lock
    service failed (or the run was aborted by an exception). *)
Inductive lease_state : Type :=
| Unextended
| Extended
| Over.

(** The runs a producer may make.  An extension is asked for only in
    [Unextended] and, accepted, leads to [Extended]; a refused acquisition
    or extension leads to [Over].  RPUSH is called only in [Extended]; once
    it returns, the state is [Unextended] again; when it fails with
    [RedisError] the call may be made again.  The producer calls no other
    connection method and schedules no task.  After [Over] nothing happens
    but logging. *)
Definition lease_step (s : lease_state) (e : event) : option lease_state :=
  match s, e with
  | _, EvLog _ => Some s
  | Over, _ => None
  | Unextended, EvLock _ (inl _) => Some Unextended
  | Unextended, EvLock _ (inr _) => Some Over
  | Unextended, EvExtend _ None => Some Extended
  | Unextended, EvExtend _ (Some _) => Some Over
  | Extended, EvLock _ _ => None
  | Extended, EvExtend _ _ => None
  | Extended, EvCall _ (rpush _ _) (inl _) => Some Unextended
  | Extended, EvCall _ (rpush _ _) (inr RedisError) => Some Extended
  | Extended, EvCall _ (rpush _ _) (inr _) => Some Over
  | _, EvCall _ _ _ => None
  | _, EvSpawn _ => None
  | _, _ => Some s
  end.

Definition lease_run : lease_state -> list event -> option lease_state :=
  run_events lease_step.

(** Effects that concern neither the lock service nor the queues. *)
Definition lease_quiet (e : event) : Prop :=
  match e with
  | EvLog _ | EvSleep _ | EvConnect _ | EvClose _ _ | EvLockManager _ => True
  | _ => False
  end.

(** The state of the lease after a call of [_extend_gen_lock] that began
    in [Unextended] and ended with [o]. *)
Definition lease_after_extension (o : outcome bool) : lease_state :=
  match o with
  | Done true => Extended
  | Done false => Over
  | Raised _ => Over
  | OutOfFuel => Unextended
  end.

(** The call has ended: it returned or raised. *)
Definition terminated {A} (o : outcome A) : bool :=
  match o with
  | OutOfFuel => false
  | _ => true
  end.

(** The state of the lease after a call of [_post_msg] that began in
    [Extended] and ended with [o]. *)
Definition lease_after_post {A} (o : outcome A) : lease_state :=
  match o with
  | Done _ => Unextended
  | Raised _ => Over
  | OutOfFuel => Extended
  end.

(** The next pops of the error queue yield the values [vs], in order. *)
Definition pops_yield (env : Env) (w : World) (vs : list (option string))
  : Prop :=
  forall i v,
    nth_error vs i = Some v ->
    env_redis env (option string)
      (lpop (error_collection (settings (self w)))) (n_redis w + i) = inl v.

(** ** Vocabulary of the further properties *)

(** With the settings [s], [m] keeps the settings and performs only
    effects of the class [P], however it ends. *)
Definition confined {A} (s : Settings) (P : event -> Prop) (m : M A) : Prop :=
  forall w,
    settings (self w) = s ->
    settings (self (final (m w))) = s /\ Forall P (emitted (m w)).

(** The effects of the executor for the call [m]: logging, sleeping,
    connecting, closing, and the call [m] itself. *)
Definition only_call {R} (m : method R) (e : event) : Prop :=
  match e with
  | EvLog _ | EvSleep _ | EvConnect _ | EvClose _ _ => True
  | EvCall _ m' _ => method_eqb m m' = true
  | _ => False
  end.

(** The effects of a consumer with the settings [s]: those of the executor
    for the BLPOP on the message queue, and the scheduling of the task that
    reroutes a message. *)
Definition receiver_event (s : Settings) (e : event) : Prop :=
  match e with
  | EvSpawn (Task_handle_msg_err _) => True
  | _ => only_call (blpop (message_collection s) (get_timeout s)) e
  end.

(** The effects of the error drain with the settings [s]: those of the
    executor for the LPOP on the error queue, and the scheduling of the
    handler of an error. *)
Definition drain_event (s : Settings) (e : event) : Prop :=
  match e with
  | EvSpawn (Task_handle_err _) => True
  | _ => only_call (lpop (error_collection s)) e
  end.

(** The sleeps of a run, in order. *)
Fixpoint sleeps (tr : list event) : list Q :=
  match tr with
  | [] => []
  | EvSleep d :: tr' => d :: sleeps tr'
  | _ :: tr' => sleeps tr'
  end.

(** The connections closed in a run, in order. *)
Fixpoint closes (tr : list event) : list conn :=
  match tr with
  | [] => []
  | EvClose c _ :: tr' => c :: closes tr'
  | _ :: tr' => closes tr'
  end.

(** A world in which connecting fails [n] times before it succeeds, and
    the first call of redis raises an exception that is no
    [RedisError]. *)
Definition stubborn_env (n : nat) : Env := {|
  env_delay := fun _ => 0;
  env_random := fun _ => 0;
  env_connect := fun k => if Nat.ltb k n then inr OtherException else inl k;
  env_close := fun _ => None;
  env_redis := fun R m k =>
    if Nat.eqb k 0 then inr OtherException else env_redis (calm_env 0 0) R m k;
  env_lock_manager :=
    fun k => if Nat.ltb k n then inr OtherException else inl k;
  env_lock := fun k => inl (mkLock "gen" k true);
  env_extend := fun _ => None
|}.

(** What a run yields under the reading [f] of its effects, in order. *)
Definition collect {X} (f : event -> option X) (tr : list event) : list X :=
  flat_map (fun e => match f e with Some x => [x] | None => [] end) tr.

(** The message a BLPOP that returned a pair has popped. *)
Definition popped_of (e : event) : option string :=
  match e with
  | EvCall _ m r =>
      match m in method T return T + exn -> option string with
      | blpop _ _ =>
          fun r => match r with
                   | inl (Some (_, v)) => Some v
                   | _ => None
                   end
      | _ => fun _ => None
      end r
  | _ => None
  end.

(** The item an RPUSH that returned has pushed, with its queue. *)
Definition pushed_of (e : event) : option (string * string) :=
  match e with
  | EvCall _ m r =>
      match m in method T return T + exn -> option (string * string) with
      | rpush q v =>
          fun r => match r with
                   | inl _ => Some (q, v)
                   | inr _ => None
                   end
      | _ => fun _ => None
      end r
  | _ => None
  end.

(** The byte string is not empty. *)
Definition nonempty (s : string) : bool := negb (String.eqb s EmptyString).

(** The history lists that [_handle_msg] does not write. *)
Definition other_than_received (w : World) :=
  (sent_messages (self w), sent_errors (self w), received_errors (self w)).

(** The history lists that [_post_msg] does not write. *)
Definition other_than_sent (w : World) :=
  (sent_errors (self w), received_messages (self w),
   received_errors (self w)).

(** The event is a connection call that returned. *)
Definition call_returned (e : event) : bool :=
  match e with
  | EvCall _ _ (inl _) => true
  | _ => false
  end.

(** The event is no call of a connection method. *)
Definition no_call (e : event) : Prop := is_redis_call e = false.

(** A world like [calm_env] whose draws come from [draws], and are 0 once
    the list is used up. *)
Definition drawing_env (draws : list Q) : Env := {|
  env_delay := fun _ => 0;
  env_random := fun n => nth n draws 0;
  env_connect := fun n => inl n;
  env_close := fun _ => None;
  env_redis := env_redis (calm_env 0 0);
  env_lock_manager := fun n => inl n;
  env_lock := fun n => inl (mkLock "gen" n true);
  env_extend := fun _ => None
|}.

(** ** test_application.py *)

(** [list_starts_with]: the two lists are walked together, as [zip] does,
    up to the end of the shorter one; the first pair of different
    elements gives [False]. *)
Fixpoint list_starts_with (xs ys : list string) : bool :=
  match xs, ys with
  | x :: xs', y :: ys' =>
      if negb (String.eqb x y) then false else list_starts_with xs' ys'
  | _, _ => true
  end.

(** *** The worker over its whole run *)

(** Whether the worker, at this point of its run, holds an extension of
    the lease it has not used yet. *)
Inductive role_state : Type :=
| Idle
| Leased.

(** The runs a worker may make over all its changes of role.  The lock
    service is called only in [Idle]; an accepted extension leads to
    [Leased].  RPUSH is called only in [Leased], and once it returns (or
    fails with something else than [RedisError]) the worker is [Idle]
    again.  BLPOP and the scheduling of a reroute happen only in [Idle].
    LPOP and the handling of errors are not part of the run. *)
Definition role_step (s : role_state) (e : event) : option role_state :=
  match e with
  | EvLog _ | EvSleep _ | EvConnect _ | EvClose _ _ | EvLockManager _ =>
      Some s
  | EvLock _ _ =>
      match s with Idle => Some Idle | Leased => None end
  | EvExtend _ r =>
      match s with
      | Idle => Some (match r with None => Leased | Some _ => Idle end)
      | Leased => None
      end
  | EvCall _ m r =>
      match m in method T return T + exn -> option role_state with
      | rpush _ _ =>
          fun r =>
            match s with
            | Leased =>
                Some (match r with
                      | inl _ => Idle
                      | inr RedisError => Leased
                      | inr _ => Idle
                      end)
            | Idle => None
            end
      | blpop _ _ =>
          fun _ => match s with Idle => Some Idle | Leased => None end
      | lpop _ => fun _ => None
      end r
  | EvSpawn (Task_handle_msg_err _) =>
      match s with Idle => Some Idle | Leased => None end
  | EvSpawn (Task_handle_err _) => None
  end.

Definition role_run : role_state -> list event -> option role_state :=
  run_events role_step.


(** *** The pace of the producer *)


(** The number of RPUSH calls of a run that returned. *)
Definition pushes (tr : list event) : nat :=
  List.length (collect pushed_of tr).


(** ** The clock arithmetic on the doubles of the interpreter *)

(** The interpreter adds, subtracts and compares the readings of the clock
    as binary64 numbers.  The definitions above take the readings as exact
    numbers, which is what the runs of the worker are verified over; this
    module follows the source lines of the budget check and of the ticker
    once more with the arithmetic of the interpreter, the binary64 format
    of the standard library (precision 53, largest exponent 1024), where
    a sum or a difference is rounded to the nearest double. *)
Module Binary64.

Definition float : Type := spec_float.

Definition prec : Z := 53.
Definition emax : Z := 1024.

(** [x + y] and [x - y]. *)
Definition add (x y : float) : float := SFadd prec emax x y.
Definition sub (x y : float) : float := SFsub prec emax x y.

(** [x > y]; false when one of the two is not a number. *)
Definition gt (x y : float) : bool := SFltb y x.

(** The truth value of a number: false for the two zeros alone. *)
Definition truth (x : float) : bool := negb (SFeqb x (S754_zero false)).

(** The double is zero or a finite number in canonical form. *)
Definition number (x : float) : bool :=
  match x with
  | S754_zero _ => true
  | S754_finite _ m e => bounded prec emax m e
  | _ => false
  end.

(** The number a double stands for. *)
Definition to_Q (x : float) : Q :=
  match x with
  | S754_finite s m e =>
      inject_Z (if s then Z.neg m else Z.pos m) * Qpower 2 e
  | _ => 0
  end.

(** [App._keep_going], from the three attributes it reads; [time_time] is
    what [time.time()] returns when the last line calls it.  An integer
    lifetime stands for the double of the same value. *)
Definition _keep_going (_stop : bool) (lifetime : float)
    (_start_time : option float) (time_time : float) : bool + exn :=
  if _stop then inl false
  else if negb (truth lifetime) then inl true
  else
    match _start_time with
    | None => inr TypeError
    | Some start => inl (gt (add start lifetime) time_time)
    end.

Record Ticker : Type := mkTicker {
  timeout : float;
  last_call : float
}.

(** [Ticker.__init__]; [time_time] is the reading of the clock. *)
Definition Ticker_init (timeout time_time : float) : Ticker :=
  mkTicker timeout (sub time_time timeout).

(** [Ticker.__anext__]: the sleep it asks for, if any, and the ticker
    after the call.  [now] is the first reading of the clock and [after]
    the second one, taken once the sleep is over. *)
Definition Ticker_anext (tk : Ticker) (now after : float)
  : option float * Ticker :=
  let clear_time := add (last_call tk) (timeout tk) in
  (if gt clear_time now then Some (sub clear_time now) else None,
   mkTicker (timeout tk) after).

End Binary64.

(** Some doubles: 0.1, 0.5, 5.0, 10.0, 10.2, 11.0, and three readings of
    a present-day clock, 1762275000.0, 1762275000.0999999 and
    1762275000.25. *)
Definition double_0_1 : Binary64.float :=
  S754_finite false 7205759403792794 (-56).
Definition double_0_5 : Binary64.float :=
  S754_finite false 4503599627370496 (-53).
Definition double_5 : Binary64.float :=
  S754_finite false 5629499534213120 (-50).
Definition double_10 : Binary64.float :=
  S754_finite false 5629499534213120 (-49).
Definition double_10_2 : Binary64.float :=
  S754_finite false 5742089524897382 (-49).
Definition double_11 : Binary64.float :=
  S754_finite false 6192449487634432 (-49).
Definition double_1762275000 : Binary64.float :=
  S754_finite false 7391517081600000 (-22).
Definition double_1762275000_0999999 : Binary64.float :=
  S754_finite false 7391517082019430 (-22).
Definition double_1762275000_25 : Binary64.float :=
  S754_finite false 7391517082648576 (-22).
Definition double_1762275000_5 : Binary64.float :=
  S754_finite false 7391517083697152 (-22).

(** ** The start time of the run *)

(** No answer of the backend is the exception [x]. *)
Definition backend_never (env : Env) (x : exn) : Prop :=
  (forall n, env_connect env n <> inr x) /\
  (forall n, env_close env n <> Some x) /\
  (forall R (m : method R) n, env_redis env R m n <> inr x) /\
  (forall n, env_lock_manager env n <> inr x) /\
  (forall n, env_lock env n <> inr x) /\
  (forall n, env_extend env n <> Some x).

(** From a world where the run began at [st], [m] keeps the start time,
    and raises no [TypeError] unless the backend answers one. *)
Definition keeps_start {A} (env : Env) (st : Q) (m : M A) : Prop :=
  forall w,
    _start_time (self w) = Some st ->
    _start_time (self (final (m w))) = Some st /\
    (backend_never env TypeError -> out (m w) <> Raised TypeError).

(** ** Tasks handed to the event loop *)

(** The task an effect hands to the event loop. *)
Definition spawned_of (e : event) : option task :=
  match e with
  | EvSpawn t => Some t
  | _ => None
  end.

(** The tasks [m] hands over are the ones its run shows, in order. *)
Definition accounts {A} (m : M A) : Prop :=
  forall w,
    pending (final (m w))
    = (pending w ++ collect spawned_of (emitted (m w)))%list.

(** ** The worker and its tasks over a whole run *)





(** * Properties *)

Local Open Scope list_scope.

(** ** Comparisons *)

Lemma Qlt_bool_iff (x y : Q) : Qlt_bool x y = true <-> x < y.
Proof.
  unfold Qlt_bool. rewrite negb_true_iff, <- not_true_iff_false, Qle_bool_iff.
  split; [apply Qnot_le_lt | apply Qlt_not_le].
Qed.

Lemma Qlt_bool_false_iff (x y : Q) : Qlt_bool x y = false <-> y <= x.
Proof.
  unfold Qlt_bool. rewrite negb_false_iff. apply Qle_bool_iff.
Qed.


(** ** Running the program symbolically *)

(** One step of evaluation: the monad, the library calls and the field
    accesses are computed; the functions of the program stay folded. *)
Ltac mrun :=
  cbv beta iota zeta delta
      [bind try_except ret raise out_of_fuel emit log get_self modify_self
       time_time asyncio_sleep random_random aioredis_create_redis
       connection_close connection_call Aioredlock_new lock_manager_lock
       lock_manager_extend asyncio_ensure_future
       of_sum of_status
       except_LockError except_RedisError except_Exception exn_eqb];
  cbn [out final emitted app negb
       with_self set_settings set_connection set_lock_manager set_lock
       set_start_time set_stop append_sent_messages append_sent_errors
       append_received_messages append_received_errors
       self clock n_delay n_random n_connect n_close n_redis n_lock_manager
       n_lock n_extend pending
       settings _connection _lock_manager _lock _start_time _stop
       sent_messages sent_errors received_messages received_errors].

Ltac mrun_in H :=
  cbv beta iota zeta delta
      [bind try_except ret raise out_of_fuel emit log get_self modify_self
       time_time asyncio_sleep random_random aioredis_create_redis
       connection_close connection_call Aioredlock_new lock_manager_lock
       lock_manager_extend asyncio_ensure_future
       of_sum of_status
       except_LockError except_RedisError except_Exception exn_eqb] in H;
  cbn [out final emitted app negb
       with_self set_settings set_connection set_lock_manager set_lock
       set_start_time set_stop append_sent_messages append_sent_errors
       append_received_messages append_received_errors
       self clock n_delay n_random n_connect n_close n_redis n_lock_manager
       n_lock n_extend pending
       settings _connection _lock_manager _lock _start_time _stop
       sent_messages sent_errors received_messages received_errors] in H.


(** ** Calls of the lock service in a run *)

Lemma lock_calls_app (tr1 tr2 : list event) :
  lock_calls (tr1 ++ tr2) = lock_calls tr1 ++ lock_calls tr2.
Proof.
  induction tr1 as [|e tr1 IH]; [reflexivity|].
  destruct e; simpl; rewrite IH; reflexivity.
Qed.

Lemma extend_calls_app (tr1 tr2 : list event) :
  extend_calls (tr1 ++ tr2) = extend_calls tr1 ++ extend_calls tr2.
Proof.
  induction tr1 as [|e tr1 IH]; [reflexivity|].
  destruct e; simpl; rewrite IH; reflexivity.
Qed.

Lemma not_lock_service_calls (tr : list event) :
  Forall not_lock_service tr -> lock_calls tr = [] /\ extend_calls tr = [].
Proof.
  induction 1 as [|e tr He _ [IH1 IH2]]; [split; reflexivity|].
  destruct e; simpl in *; try contradiction; auto.
Qed.

(** ** The lease *)

Lemma forget_lock_manager_fields (w w' : World) :
  forget_lock_manager w' = forget_lock_manager w ->
  settings (self w') = settings (self w) /\
  _lock (self w') = _lock (self w) /\
  n_lock w' = n_lock w /\
  n_extend w' = n_extend w.
Proof.
  intros H.
  repeat split.
  - exact (f_equal (fun x => settings (self x)) H).
  - exact (f_equal (fun x => _lock (self x)) H).
  - exact (f_equal n_lock H).
  - exact (f_equal n_extend H).
Qed.

Lemma get_lock_manager_loop_ready (env : Env) (fuel : nat) :
  forall w,
    answers_within (env_lock_manager env) (n_lock_manager w) fuel = true ->
    exists lm w1 tr,
      _get_lock_manager_loop env fuel w = mkRes (Done lm) w1 tr /\
      _lock_manager (self w1) = Some lm /\
      forget_lock_manager w1 = forget_lock_manager w /\
      Forall not_lock_service tr.
Proof.
  induction fuel as [|fuel IH]; intros w Hans; [discriminate Hans|].
  simpl in Hans.
  cbn [_get_lock_manager_loop]. mrun.
  destruct (env_lock_manager env (n_lock_manager w)) as [lm|e] eqn:Hlm; mrun.
  - exists lm. eexists. eexists. split; [reflexivity|]. mrun.
    split; [reflexivity|]. split; [reflexivity|].
    repeat constructor.
  - match goal with
    | |- context [_get_lock_manager_loop env fuel ?w1] =>
        destruct (IH w1) as (lm & w2 & tr & Hrun & Hm & Hfr & Hq);
          [exact Hans|]
    end.
    rewrite Hrun. exists lm, w2. eexists. split; [reflexivity|].
    split; [exact Hm|]. split; [rewrite Hfr; reflexivity|].
    repeat (constructor; [exact I|]). exact Hq.
Qed.

Lemma get_lock_manager_ready (env : Env) (fuel : nat) (w : World) :
  lock_manager_ready env fuel w = true ->
  exists lm w1 tr,
    _get_lock_manager env fuel w = mkRes (Done lm) w1 tr /\
    _lock_manager (self w1) = Some lm /\
    forget_lock_manager w1 = forget_lock_manager w /\
    Forall not_lock_service tr.
Proof.
  unfold lock_manager_ready, _get_lock_manager. intros Hready. mrun.
  destruct (_lock_manager (self w)) as [lm|] eqn:Hlm.
  - exists lm, w, []. mrun. repeat split; auto.
  - destruct (get_lock_manager_loop_ready env fuel w Hready)
      as (lm & w1 & tr & Hrun & Hm & Hfr & Hq).
    rewrite Hrun. exists lm, w1, tr. repeat split; auto.
Qed.

(** What [_become_a_gen] does once the lock manager is there. *)
Lemma become_a_gen_run (env : Env) (fuel : nat) (w : World) :
  lock_manager_ready env fuel w = true ->
  let name := generator_lock (settings (self w)) in
  let answer := env_lock env (n_lock w) in
  exists w2 tr,
    Forall not_lock_service tr /\
    _become_a_gen env fuel w =
      mkRes
        match answer with
        | inl _ => Done true
        | inr e => if except_LockError e then Done false else Raised e
        end
        w2
        (tr ++ EvLog Log_try_acquire :: EvLock name answer ::
           match answer with
           | inl _ => [EvLog Log_acquired]
           | inr e => if except_LockError e
                      then [EvLog Log_acquire_failed] else []
           end) /\
    n_lock w2 = S (n_lock w) /\
    n_extend w2 = n_extend w /\
    settings (self w2) = settings (self w) /\
    lock_manager_ready env fuel w2 = true /\
    _lock (self w2) =
      match answer with
      | inl l => Some l
      | inr _ => _lock (self w)
      end.
Proof.
  intros Hready name answer. subst name answer.
  destruct (get_lock_manager_ready env fuel w Hready)
    as (lm & w1 & tr & Hrun & Hm & Hfr & Hq).
  destruct (forget_lock_manager_fields _ _ Hfr) as (Hs & Hl & Hnl & Hne).
  unfold _become_a_gen. mrun. rewrite Hrun. mrun.
  rewrite Hs, Hnl.
  destruct (env_lock env (n_lock w)) as [l|e]; mrun.
  - eexists. exists tr. split; [exact Hq|]. split; [reflexivity|]. mrun.
    unfold lock_manager_ready. mrun. rewrite Hm. auto.
  - destruct e; mrun; eexists; exists tr; (split; [exact Hq|]);
      (split; [rewrite ?app_nil_r; reflexivity|]); mrun;
      unfold lock_manager_ready; mrun; rewrite Hm; auto.
Qed.

(** C5: with the lock manager at hand, [_become_a_gen] asks the lock
    service once, for the lock named [generator_lock]; when the lock is
    granted it returns true and [_lock] holds the granted lease; when the
    service answers with [LockError] it returns false and [_lock] is what
    it was.  In both cases the caller gets a boolean, not an exception. *)
Theorem become_a_gen_outcome (env : Env) (fuel : nat) (w : World) :
  lock_manager_ready env fuel w = true ->
  let r := _become_a_gen env fuel w in
  lock_calls (emitted r) =
    [(generator_lock (settings (self w)), env_lock env (n_lock w))] /\
  (forall l, env_lock env (n_lock w) = inl l ->
     out r = Done true /\ _lock (self (final r)) = Some l) /\
  (env_lock env (n_lock w) = inr LockError ->
     out r = Done false /\ _lock (self (final r)) = _lock (self w)).
Proof.
  intros Hready.
  destruct (become_a_gen_run env fuel w Hready)
    as (w2 & tr & Hq & Hrun & _ & _ & _ & _ & Hlock).
  cbv zeta. rewrite Hrun. cbn [out final emitted]. split; [|split].
  - rewrite lock_calls_app.
    rewrite (proj1 (not_lock_service_calls tr Hq)).
    destruct (env_lock env (n_lock w)) as [l|e]; [reflexivity|].
    destruct (except_LockError e); reflexivity.
  - intros l Hl. rewrite Hl in Hlock. rewrite Hl. auto.
  - intros He. rewrite He in Hlock. rewrite He. auto.
Qed.

Lemma become_a_gen_outcome_witness :
  lock_manager_ready contended_env 1 (fresh_world default_settings 0) = true /\
  env_lock contended_env (n_lock (fresh_world default_settings 0))
    = inr LockError /\
  out (_become_a_gen contended_env 1 (fresh_world default_settings 0))
    = Done false /\
  _lock (self (final (_become_a_gen contended_env 1
                        (fresh_world default_settings 0)))) = None.
Proof.
  split; [reflexivity|]. split; [reflexivity|].
  exact (proj2 (proj2
    (become_a_gen_outcome contended_env 1 (fresh_world default_settings 0)
       eq_refl)) eq_refl).
Defined.

(** An exception of the lock service that is not a [LockError] is not
    caught by [_become_a_gen]. *)
Remark become_a_gen_other_exception (env : Env) (fuel : nat) (w : World)
    (e : exn) :
  lock_manager_ready env fuel w = true ->
  env_lock env (n_lock w) = inr e ->
  e <> LockError ->
  out (_become_a_gen env fuel w) = Raised e.
Proof.
  intros Hready He Hne.
  destruct (become_a_gen_run env fuel w Hready)
    as (w2 & tr & _ & Hrun & _).
  rewrite Hrun, He. cbn [out].
  destruct e; try reflexivity. contradiction.
Qed.

Ltac calls_tac Hq :=
  repeat rewrite lock_calls_app; repeat rewrite extend_calls_app;
  repeat rewrite (proj1 (not_lock_service_calls _ Hq));
  repeat rewrite (proj2 (not_lock_service_calls _ Hq));
  cbn [lock_calls extend_calls app].

(** [_extend_gen_lock] with a valid lease at hand: no acquisition, one
    extension of the held lease. *)
Lemma extend_gen_lock_held (env : Env) (fuel : nat) (w : World)
    (held : Lock) :
  lock_manager_ready env fuel w = true ->
  _lock (self w) = Some held ->
  valid held = true ->
  exists w2 tr,
    _extend_gen_lock env fuel w =
      mkRes (extension_result (env_extend env (n_extend w))) w2 tr /\
    lock_calls tr = [] /\
    extend_calls tr = [(held, env_extend env (n_extend w))].
Proof.
  intros Hready Hheld Hvalid.
  unfold _extend_gen_lock. mrun. rewrite Hheld. cbn [lock_unusable].
  rewrite Hvalid. cbn [negb]. mrun.
  destruct (get_lock_manager_ready env fuel w Hready)
    as (lm & w1 & tr & Hrun & Hm & Hfr & Hq).
  destruct (forget_lock_manager_fields _ _ Hfr) as (Hs & Hl & Hnl & Hne).
  rewrite Hrun. mrun. rewrite Hl, Hheld, Hne. mrun.
  destruct (env_extend env (n_extend w)) as [e|]; mrun;
    [destruct e; mrun|];
    eexists; eexists; (split; [reflexivity|]);
    calls_tac Hq; split; reflexivity.
Qed.

(** [_extend_gen_lock] without a valid lease: one acquisition; when it
    fails, no extension is asked for. *)
Lemma extend_gen_lock_acquire_failed (env : Env) (fuel : nat) (w : World)
    (e : exn) :
  lock_manager_ready env fuel w = true ->
  lock_unusable (_lock (self w)) = true ->
  env_lock env (n_lock w) = inr e ->
  exists w2 tr,
    _extend_gen_lock env fuel w =
      mkRes (if except_LockError e then Done false else Raised e) w2 tr /\
    lock_calls tr = [(generator_lock (settings (self w)), inr e)] /\
    extend_calls tr = [].
Proof.
  intros Hready Hun He.
  unfold _extend_gen_lock. mrun. rewrite Hun.
  destruct (become_a_gen_run env fuel w Hready)
    as (w2 & tr & Hq & Hrun & _).
  rewrite Hrun, He.
  destruct e; mrun; eexists; eexists; (split; [reflexivity|]);
    calls_tac Hq; split; reflexivity.
Qed.

(** [_extend_gen_lock] without a valid lease: when the acquisition
    succeeds, the new lease is extended. *)
Lemma extend_gen_lock_acquired (env : Env) (fuel : nat) (w : World)
    (l : Lock) :
  lock_manager_ready env fuel w = true ->
  lock_unusable (_lock (self w)) = true ->
  env_lock env (n_lock w) = inl l ->
  exists w2 tr,
    _extend_gen_lock env fuel w =
      mkRes (extension_result (env_extend env (n_extend w))) w2 tr /\
    lock_calls tr = [(generator_lock (settings (self w)), inl l)] /\
    extend_calls tr = [(l, env_extend env (n_extend w))].
Proof.
  intros Hready Hun Hl.
  unfold _extend_gen_lock. mrun. rewrite Hun.
  destruct (become_a_gen_run env fuel w Hready)
    as (w2 & tr & Hq & Hrun & _ & Hne & _ & Hready2 & Hlock).
  rewrite Hrun, Hl. rewrite Hl in Hlock. mrun. mrun.
  destruct (get_lock_manager_ready env fuel w2 Hready2)
    as (lm & w3 & tr' & Hrun' & Hm & Hfr & Hq').
  destruct (forget_lock_manager_fields _ _ Hfr) as (Hs3 & Hl3 & Hnl3 & Hne3).
  rewrite Hrun'. mrun. rewrite Hl3, Hlock, Hne3, Hne. mrun.
  destruct (env_extend env (n_extend w)) as [e|]; mrun;
    [destruct e; mrun|];
    eexists; eexists; (split; [reflexivity|]);
    calls_tac Hq; calls_tac Hq'; split; reflexivity.
Qed.

(** C4: with the lock manager at hand, [_extend_gen_lock] behaves as
    follows.  When no lease is held or the held lease is not valid, it first
    asks for the lock once, through [_become_a_gen]; if the service answers
    that with [LockError] it returns false and asks for no extension; if the
    lock is granted it goes on to extend the new lease.  When a valid lease
    is held it asks for no lock.  In the cases that reach the extension, the
    lock service is asked once to extend the lease at hand, and the result
    is true when the service accepts and false when it answers with
    [LockError].  In all these cases the caller gets a boolean, not an
    exception. *)
Theorem extend_gen_lock_outcome (env : Env) (fuel : nat) (w : World) :
  lock_manager_ready env fuel w = true ->
  let r := _extend_gen_lock env fuel w in
  let name := generator_lock (settings (self w)) in
  let answer := env_extend env (n_extend w) in
  (lock_unusable (_lock (self w)) = true ->
     lock_calls (emitted r) = [(name, env_lock env (n_lock w))] /\
     (env_lock env (n_lock w) = inr LockError ->
        out r = Done false /\ extend_calls (emitted r) = []) /\
     (forall l, env_lock env (n_lock w) = inl l ->
        extend_calls (emitted r) = [(l, answer)] /\
        (answer = None -> out r = Done true) /\
        (answer = Some LockError -> out r = Done false))) /\
  (forall held, _lock (self w) = Some held -> valid held = true ->
     lock_calls (emitted r) = [] /\
     extend_calls (emitted r) = [(held, answer)] /\
     (answer = None -> out r = Done true) /\
     (answer = Some LockError -> out r = Done false)).
Proof.
  intros Hready. cbv zeta. split.
  - intros Hun.
    destruct (env_lock env (n_lock w)) as [l|e] eqn:Hanswer.
    + destruct (extend_gen_lock_acquired env fuel w l Hready Hun Hanswer)
        as (w2 & tr & Hrun & Hlc & Hec).
      rewrite Hrun. cbn [out emitted]. split; [exact Hlc|].
      split; [intros H; discriminate H|].
      intros l' Hl'. injection Hl' as <-. split; [exact Hec|].
      split; intros Ha; rewrite Ha; reflexivity.
    + destruct (extend_gen_lock_acquire_failed env fuel w e Hready Hun Hanswer)
        as (w2 & tr & Hrun & Hlc & Hec).
      rewrite Hrun. cbn [out emitted]. split; [exact Hlc|].
      split; [|intros l H; discriminate H].
      intros He. injection He as ->. split; [reflexivity|exact Hec].
  - intros held Hheld Hvalid.
    destruct (extend_gen_lock_held env fuel w held Hready Hheld Hvalid)
      as (w2 & tr & Hrun & Hlc & Hec).
    rewrite Hrun. cbn [out emitted]. split; [exact Hlc|]. split; [exact Hec|].
    split; intros Ha; rewrite Ha; reflexivity.
Qed.

Lemma extend_gen_lock_outcome_witness :
  lock_manager_ready contended_env 1 (fresh_world default_settings 0) = true /\
  lock_unusable (_lock (self (fresh_world default_settings 0))) = true /\
  env_lock contended_env (n_lock (fresh_world default_settings 0))
    = inr LockError /\
  out (_extend_gen_lock contended_env 1 (fresh_world default_settings 0))
    = Done false /\
  extend_calls
    (emitted (_extend_gen_lock contended_env 1
                (fresh_world default_settings 0))) = [].
Proof.
  split; [reflexivity|]. split; [reflexivity|]. split; [reflexivity|].
  exact (proj1 (proj2 (proj1
    (extend_gen_lock_outcome contended_env 1 (fresh_world default_settings 0)
       eq_refl) eq_refl)) eq_refl).
Defined.

(** An exception of the lock service that is not a [LockError] is not
    caught by [_extend_gen_lock]. *)
Remark extend_gen_lock_other_exception (env : Env) (fuel : nat) (w : World)
    (held : Lock) (e : exn) :
  lock_manager_ready env fuel w = true ->
  _lock (self w) = Some held ->
  valid held = true ->
  env_extend env (n_extend w) = Some e ->
  e <> LockError ->
  out (_extend_gen_lock env fuel w) = Raised e.
Proof.
  intros Hready Hheld Hvalid He Hne.
  destruct (extend_gen_lock_held env fuel w held Hready Hheld Hvalid)
    as (w2 & tr & Hrun & _).
  rewrite Hrun, He. cbn [out extension_result].
  destruct e; try reflexivity. contradiction.
Qed.

(** ** The resilient connection *)

Lemma run_events_app {S} (step : S -> event -> option S)
    (tr1 tr2 : list event) :
  forall s,
    run_events step s (tr1 ++ tr2) =
    match run_events step s tr1 with
    | Some s' => run_events step s' tr2
    | None => None
    end.
Proof.
  induction tr1 as [|e tr1 IH]; intros s; [reflexivity|].
  cbn [app run_events]. destruct (step s e); [apply IH|reflexivity].
Qed.

Lemma retry_run_app (ct : Q) {R} (m : method R) (tr1 tr2 : list event) :
  forall s,
    retry_run ct m s (tr1 ++ tr2) =
    match retry_run ct m s tr1 with
    | Some s' => retry_run ct m s' tr2
    | None => None
    end.
Proof. apply run_events_app. Qed.

Lemma method_eqb_refl {R} (m : method R) : method_eqb m m = true.
Proof.
  destruct m; cbn [method_eqb]; rewrite ?String.eqb_refl; try reflexivity.
  apply Qeq_bool_iff. reflexivity.
Qed.

Lemma answers_within_mono {A} (o : nat -> A + exn) (k : nat) :
  forall n fuel,
    answers_within o n k = true -> (k <= fuel)%nat ->
    answers_within o n fuel = true.
Proof.
  induction k as [|k IH]; intros n fuel H Hle; [discriminate H|].
  destruct fuel as [|fuel]; [lia|].
  cbn [answers_within] in *.
  destruct (o n); [reflexivity|]. apply IH; [exact H|lia].
Qed.

Lemma forget_connection_fields (w w' : World) :
  forget_connection w' = forget_connection w ->
  settings (self w') = settings (self w) /\
  n_redis w' = n_redis w /\
  n_close w' = n_close w.
Proof.
  intros H. repeat split.
  - exact (f_equal (fun x => settings (self x)) H).
  - exact (f_equal n_redis H).
  - exact (f_equal n_close H).
Qed.

Lemma get_connection_loop_run (env : Env) (fuel : nat) :
  forall w,
    answers_within (env_connect env) (n_connect w) fuel = true ->
    exists c w1 tr,
      _get_connection_loop env fuel w = mkRes (Done c) w1 tr /\
      _connection (self w1) = Some c /\
      forget_connection w1 = forget_connection w /\
      forall ct R (m : method R) k,
        retry_run ct m (Reconnecting k) tr = Some (Connected k).
Proof.
  induction fuel as [|fuel IH]; intros w Hans; [discriminate Hans|].
  cbn [answers_within] in Hans.
  cbn [_get_connection_loop]. mrun.
  destruct (env_connect env (n_connect w)) as [c|e] eqn:Hc; mrun.
  - exists c. eexists. eexists. split; [reflexivity|]. mrun.
    split; [reflexivity|]. split; [reflexivity|].
    intros. reflexivity.
  - match goal with
    | |- context [_get_connection_loop env fuel ?w1] =>
        destruct (IH w1) as (c & w2 & tr & Hrun & Hm & Hfr & Hq);
          [exact Hans|]
    end.
    rewrite Hrun. exists c, w2. eexists. split; [reflexivity|].
    split; [exact Hm|]. split; [rewrite Hfr; reflexivity|].
    intros. unfold retry_run in *; cbn [run_events retry_step]. apply Hq.
Qed.

Lemma get_connection_run (env : Env) (fuel : nat) (w : World) :
  connection_ready env fuel w = true ->
  exists c w1 tr,
    _get_connection env fuel w = mkRes (Done c) w1 tr /\
    _connection (self w1) = Some c /\
    forget_connection w1 = forget_connection w /\
    forall ct R (m : method R) k,
      retry_run ct m (retry_resume w k) tr = Some (Connected k).
Proof.
  unfold connection_ready, _get_connection, retry_resume. intros Hready. mrun.
  destruct (_connection (self w)) as [c|] eqn:Hc.
  - exists c, w, []. mrun. repeat split; auto.
  - destruct (get_connection_loop_run env fuel w Hready)
      as (c & w1 & tr & Hrun & Hm & Hfr & Hq).
    rewrite Hrun. exists c, w1, tr. repeat split; auto.
Qed.

Lemma conn_execute_run (env : Env) {R} (m : method R) (v : R) (K : nat)
    (Hconnect : forall n, answers_within (env_connect env) n K = true)
    (errs : nat) :
  forall fuel w k,
    (forall i, (i < errs)%nat ->
       env_redis env R m (n_redis w + i) = inr RedisError) ->
    env_redis env R m (n_redis w + errs) = inl v ->
    (K + errs < fuel)%nat ->
    exists w2 tr,
      _conn_execute env fuel m w = mkRes (Done v) w2 tr /\
      n_redis w2 = (n_redis w + errs + 1)%nat /\
      settings (self w2) = settings (self w) /\
      (exists c, _connection (self w2) = Some c) /\
      retry_run (connection_timeout (settings (self w))) m
        (retry_resume w k) tr = Some (Returned (k + errs)).
Proof.
  induction errs as [|errs IH]; intros fuel w k Herrs Hok Hfuel.
  - destruct fuel as [|fuel]; [lia|].
    cbn [_conn_execute]. mrun.
    assert (Hready : connection_ready env fuel w = true).
    { unfold connection_ready. destruct (_connection (self w)); [reflexivity|].
      apply answers_within_mono with (k := K); [apply Hconnect|lia]. }
    destruct (get_connection_run env fuel w Hready)
      as (c & w1 & tr & Hrun & Hc & Hfr & Htr).
    destruct (forget_connection_fields _ _ Hfr) as (Hs & Hn & _).
    rewrite Hrun. mrun. rewrite Hn.
    rewrite Nat.add_0_r in Hok. rewrite Hok. mrun.
    eexists. eexists. split; [reflexivity|]. mrun.
    split; [lia|]. split; [exact Hs|]. split; [eauto|].
    rewrite ?app_nil_r. rewrite retry_run_app, Htr.
    unfold retry_run in *; cbn [run_events retry_step]. rewrite method_eqb_refl, Nat.add_0_r.
    reflexivity.
  - destruct fuel as [|fuel]; [lia|].
    cbn [_conn_execute]. mrun.
    assert (Hready : connection_ready env fuel w = true).
    { unfold connection_ready. destruct (_connection (self w)); [reflexivity|].
      apply answers_within_mono with (k := K); [apply Hconnect|lia]. }
    destruct (get_connection_run env fuel w Hready)
      as (c & w1 & tr & Hrun & Hc & Hfr & Htr).
    destruct (forget_connection_fields _ _ Hfr) as (Hs & Hn & _).
    rewrite Hrun. mrun. rewrite Hn.
    pose proof (Herrs 0%nat ltac:(lia)) as Hfail.
    rewrite Nat.add_0_r in Hfail. rewrite Hfail. mrun. rewrite Hc.
    assert (Hnext : forall w3,
      n_redis w3 = S (n_redis w) ->
      settings (self w3) = settings (self w1) ->
      _connection (self w3) = None ->
      exists w2 tr2,
        _conn_execute env fuel m w3 = mkRes (Done v) w2 tr2 /\
        n_redis w2 = (n_redis w + S errs + 1)%nat /\
        settings (self w2) = settings (self w) /\
        (exists c, _connection (self w2) = Some c) /\
        retry_run (connection_timeout (settings (self w))) m
          (Reconnecting (S k)) tr2 = Some (Returned (k + S errs))).
    { intros w3 Hn3 Hs3 Hc3.
      destruct (IH fuel w3 (S k))
        as (w2 & tr2 & Hrun2 & Hn2 & Hs2 & Hc2 & Htr2).
      - intros i Hi. rewrite Hn3.
        replace (S (n_redis w) + i)%nat with (n_redis w + S i)%nat by lia.
        apply Herrs. lia.
      - rewrite Hn3.
        replace (S (n_redis w) + errs)%nat
          with (n_redis w + S errs)%nat by lia.
        exact Hok.
      - lia.
      - exists w2, tr2. split; [exact Hrun2|].
        split; [rewrite Hn2, Hn3; lia|].
        split; [rewrite Hs2, Hs3; exact Hs|].
        split; [exact Hc2|].
        unfold retry_resume in Htr2. rewrite Hc3, Hs3, Hs in Htr2.
        rewrite Htr2. f_equal. f_equal. lia. }
    mrun.
    destruct (env_close env (n_close w1)) as [e|]; mrun;
      match goal with
      | |- context [_conn_execute env fuel m ?w3] =>
          destruct (Hnext w3 eq_refl eq_refl eq_refl)
            as (w2 & tr2 & Hrun2 & Hn2 & Hs2 & Hc2 & Htr2)
      end;
      rewrite Hrun2; mrun;
      eexists; eexists; (split; [reflexivity|]);
      (split; [exact Hn2|]); (split; [exact Hs2|]); (split; [exact Hc2|]);
      repeat rewrite <- app_assoc; rewrite retry_run_app, Htr;
      unfold retry_run in *; cbn [app run_events retry_step];
      rewrite method_eqb_refl, Nat.eqb_refl, Hs;
      assert (Hq : Qeq_bool (connection_timeout (settings (self w)))
                     (connection_timeout (settings (self w))) = true)
        by (apply Qeq_bool_iff; reflexivity);
      rewrite Hq; exact Htr2.
Qed.

(** C3: let connecting succeed within [K] attempts whenever it is tried.
    If the backend answers the next [errs] calls of the operation [m] with
    [RedisError] and the call after them with the value [v], then
    [_conn_execute], given fuel for these attempts, returns [v] to its
    caller and raises nothing; it has called the backend [errs + 1] times,
    and its run has the shape of [retry_run]: after each failed call the
    connection the call went through is closed, the executor sleeps exactly
    [connection_timeout], connects again (the connection had been dropped)
    and makes the same call again; the worker ends up with a live
    connection. *)
Theorem conn_execute_hides_failures (env : Env) {R} (m : method R) (v : R)
    (K errs fuel : nat) (w : World) :
  (forall n, answers_within (env_connect env) n K = true) ->
  (forall i, (i < errs)%nat ->
     env_redis env R m (n_redis w + i) = inr RedisError) ->
  env_redis env R m (n_redis w + errs) = inl v ->
  (K + errs < fuel)%nat ->
  let r := _conn_execute env fuel m w in
  out r = Done v /\
  n_redis (final r) = (n_redis w + errs + 1)%nat /\
  (exists c, _connection (self (final r)) = Some c) /\
  retry_run (connection_timeout (settings (self w))) m (retry_resume w 0)
    (emitted r) = Some (Returned errs).
Proof.
  intros Hconnect Herrs Hok Hfuel.
  destruct (conn_execute_run env m v K Hconnect errs fuel w 0%nat
              Herrs Hok Hfuel)
    as (w2 & tr & Hrun & Hn & _ & Hc & Htr).
  cbv zeta. rewrite Hrun. cbn [out final emitted]. auto.
Qed.

Lemma conn_execute_hides_failures_witness :
  (forall n, answers_within (env_connect (flaky_env 2)) n 2 = true) /\
  (forall i, (i < 2)%nat ->
     env_redis (flaky_env 2) Z (rpush "msg" "a1")
       (n_redis (fresh_world default_settings 0) + i) = inr RedisError) /\
  env_redis (flaky_env 2) Z (rpush "msg" "a1")
    (n_redis (fresh_world default_settings 0) + 2) = inl 1%Z /\
  (2 + 2 < 5)%nat /\
  out (_conn_execute (flaky_env 2) 5 (rpush "msg" "a1")
         (fresh_world default_settings 0)) = Done 1%Z /\
  retry_run 1 (rpush "msg" "a1") (Reconnecting 0)
    (emitted (_conn_execute (flaky_env 2) 5 (rpush "msg" "a1")
                (fresh_world default_settings 0)))
    = Some (Returned 2).
Proof.
  assert (H1 : forall n,
            answers_within (env_connect (flaky_env 2)) n 2 = true).
  { intros n. cbn [answers_within flaky_env env_connect].
    destruct (Nat.even n) eqn:E; [|reflexivity].
    rewrite Nat.even_succ, <- Nat.negb_even, E. reflexivity. }
  assert (H2 : forall i, (i < 2)%nat ->
            env_redis (flaky_env 2) Z (rpush "msg" "a1")
              (n_redis (fresh_world default_settings 0) + i)
              = inr RedisError).
  { intros i Hi. destruct i as [|[|i]]; [reflexivity|reflexivity|lia]. }
  assert (H4 : (2 + 2 < 5)%nat) by lia.
  split; [exact H1|]. split; [exact H2|]. split; [reflexivity|].
  split; [exact H4|].
  destruct (conn_execute_hides_failures (flaky_env 2) (rpush "msg" "a1")
              1%Z 2 2 5 (fresh_world default_settings 0) H1 H2 eq_refl H4)
    as (Hout & _ & _ & Htr).
  split; [exact Hout|exact Htr].
Defined.

(** ** What a call leaves untouched *)

Section Preserves.

Context {X : Type} (view : World -> X).

Lemma preserves_ret {A} (a : A) : preserves view (ret a).
Proof. intros w. reflexivity. Qed.

Lemma preserves_raise {A} (e : exn) : preserves view (@raise A e).
Proof. intros w. reflexivity. Qed.

Lemma preserves_out_of_fuel {A} : preserves view (@out_of_fuel A).
Proof. intros w. reflexivity. Qed.

Lemma preserves_log (r : logrec) : preserves view (log r).
Proof. intros w. reflexivity. Qed.

Lemma preserves_get_self : preserves view get_self.
Proof. intros w. reflexivity. Qed.

Lemma preserves_bind {A B} (m : M A) (f : A -> M B) :
  preserves view m -> (forall a, preserves view (f a)) ->
  preserves view (bind m f).
Proof.
  intros Hm Hf w. unfold bind. specialize (Hm w).
  destruct (m w) as [[a|e|] w1 tr1]; cbn [final] in *; try exact Hm.
  specialize (Hf a w1). destruct (f a w1) as [o w2 tr2]. cbn [final] in *.
  congruence.
Qed.

Lemma preserves_try_except {A} (m : M A) (sel : exn -> bool)
    (h : exn -> M A) :
  preserves view m -> (forall e, preserves view (h e)) ->
  preserves view (try_except m sel h).
Proof.
  intros Hm Hh w. unfold try_except. specialize (Hm w).
  destruct (m w) as [[a|e|] w1 tr1]; cbn [final] in *; try exact Hm.
  destruct (sel e); [|exact Hm].
  specialize (Hh e w1). destruct (h e w1) as [o w2 tr2]. cbn [final] in *.
  congruence.
Qed.

End Preserves.

(** Steps through a program built from calls that preserve the view. *)
Ltac frame_step :=
  first
    [ apply preserves_ret | apply preserves_raise
    | apply preserves_out_of_fuel | apply preserves_log
    | apply preserves_get_self
    | apply preserves_bind; [|intros ?]
    | apply preserves_try_except; [|intros ?]
    | match goal with
      | |- preserves _ (match ?x with _ => _ end) => destruct x
      | |- preserves _ (if ?x then _ else _) => destruct x
      end ].

(** The executor changes the connection, the clock and the positions in
    the oracles of the connection; a view of the world that does not look
    at them is preserved. *)
Section ConnectionFrame.

Context {X : Type} (view : World -> X) (env : Env).

Hypothesis view_sleep : forall d, preserves view (asyncio_sleep d).
Hypothesis view_connect : preserves view (aioredis_create_redis env).
Hypothesis view_close : forall c, preserves view (connection_close env c).
Hypothesis view_call :
  forall R c (m : method R), preserves view (connection_call env c m).
Hypothesis view_set_connection :
  forall c, preserves view (modify_self (set_connection c)).

Ltac conn_step :=
  first [ apply view_sleep | apply view_connect | apply view_close
        | apply view_call | apply view_set_connection | frame_step ].

Lemma get_connection_loop_preserves (fuel : nat) :
  preserves view (_get_connection_loop env fuel).
Proof.
  induction fuel as [|fuel IH]; cbn [_get_connection_loop];
    repeat conn_step; exact IH.
Qed.

Lemma get_connection_preserves (fuel : nat) :
  preserves view (_get_connection env fuel).
Proof.
  unfold _get_connection. repeat conn_step.
  apply get_connection_loop_preserves.
Qed.

Lemma conn_execute_preserves {R} (m : method R) (fuel : nat) :
  preserves view (_conn_execute env fuel m).
Proof.
  induction fuel as [|fuel IH]; cbn [_conn_execute].
  - apply preserves_out_of_fuel.
  - apply preserves_bind; [apply get_connection_preserves|intros c].
    repeat conn_step. exact IH.
Qed.

End ConnectionFrame.

Lemma conn_execute_archive (env : Env) {R} (m : method R) (fuel : nat) :
  preserves archive (_conn_execute env fuel m).
Proof. apply conn_execute_preserves; intros; intros w; reflexivity. Qed.

Lemma conn_execute_pending (env : Env) {R} (m : method R) (fuel : nat) :
  preserves pending (_conn_execute env fuel m).
Proof. apply conn_execute_preserves; intros; intros w; reflexivity. Qed.

(** ** Histories *)

Lemma rpush_archive (env : Env) (fuel : nat) (collection item : string)
    (w : World) (o : outcome Z) (w1 : World) (tr : list event) :
  _rpush env fuel collection item w = mkRes o w1 tr ->
  settings (self w1) = settings (self w) /\ histories w1 = histories w.
Proof.
  intros Hrun.
  pose proof (conn_execute_archive env (rpush collection item) fuel w) as H.
  unfold _rpush in Hrun. rewrite Hrun in H. cbn [final] in H.
  split; [exact (f_equal fst H) | exact (f_equal snd H)].
Qed.

(** C10: with [save_history] off, [_post_msg], [_handle_msg],
    [_handle_msg_err] and [_handle_err] leave the four history lists as
    they found them, however they end; and the queue side effects are
    still there: the effects of [_post_msg] (of [_handle_msg_err]) are its
    log records around the effects of the RPUSH of the message on the
    message queue (on the error queue), and [_handle_msg] schedules the
    error task whenever the draw is below the rate. *)
Theorem histories_untouched_unless_enabled (env : Env) (fuel : nat)
    (msg : string) (rate : Q) (w : World) :
  save_history (settings (self w)) = false ->
  let push_msg := _rpush env fuel (message_collection (settings (self w))) msg w in
  let push_err := _rpush env fuel (error_collection (settings (self w))) msg w in
  (histories (final (_post_msg env fuel msg w)) = histories w /\
   emitted (_post_msg env fuel msg w) =
     EvLog (Log_posting msg) :: emitted push_msg ++
     match out push_msg with
     | Done waiting => [EvLog (Log_posted msg waiting)]
     | _ => []
     end) /\
  (histories (final (_handle_msg env msg rate w)) = histories w /\
   pending (final (_handle_msg env msg rate w)) =
     pending w ++
     if Qlt_bool (env_random env (n_random w)) rate
     then [Task_handle_msg_err msg] else []) /\
  (histories (final (_handle_msg_err env fuel msg w)) = histories w /\
   emitted (_handle_msg_err env fuel msg w) =
     EvLog (Log_msg_error msg) :: emitted push_err ++
     match out push_err with
     | Done _ => [EvLog (Log_err_stored msg)]
     | _ => []
     end) /\
  histories (final (_handle_err msg w)) = histories w.
Proof.
  intros Hoff. cbv zeta. repeat split.
  - unfold _post_msg. mrun.
    destruct (_rpush env fuel (message_collection (settings (self w))) msg w)
      as [[n|e|] w1 tr] eqn:Hrun;
      destruct (rpush_archive _ _ _ _ _ _ _ _ Hrun) as [Hs Hh];
      mrun; try exact Hh.
    rewrite Hoff. mrun. exact Hh.
  - unfold _post_msg. mrun.
    destruct (_rpush env fuel (message_collection (settings (self w))) msg w)
      as [[n|e|] w1 tr] eqn:Hrun; mrun; rewrite ?app_nil_r; try reflexivity.
    rewrite Hoff. mrun. rewrite <- ?app_assoc, ?app_nil_r. reflexivity.
  - unfold _handle_msg. mrun. rewrite Hoff. mrun.
    destruct (Qlt_bool (env_random env (n_random w)) rate); reflexivity.
  - unfold _handle_msg. mrun. rewrite Hoff. mrun.
    destruct (Qlt_bool (env_random env (n_random w)) rate); mrun;
      rewrite ?app_nil_r; reflexivity.
  - unfold _handle_msg_err. mrun.
    destruct (_rpush env fuel (error_collection (settings (self w))) msg w)
      as [[n|e|] w1 tr] eqn:Hrun;
      destruct (rpush_archive _ _ _ _ _ _ _ _ Hrun) as [Hs Hh];
      mrun; try exact Hh.
    rewrite Hoff. mrun. exact Hh.
  - unfold _handle_msg_err. mrun.
    destruct (_rpush env fuel (error_collection (settings (self w))) msg w)
      as [[n|e|] w1 tr] eqn:Hrun; mrun; rewrite ?app_nil_r; try reflexivity.
    rewrite Hoff. mrun. rewrite <- ?app_assoc, ?app_nil_r. reflexivity.
  - unfold _handle_err. mrun. rewrite Hoff. reflexivity.
Qed.

Lemma histories_untouched_unless_enabled_witness :
  save_history (settings (self (fresh_world default_settings 0))) = false /\
  histories (final (_post_msg (calm_env 0 0) 3 "a1"
                      (fresh_world default_settings 0)))
    = histories (fresh_world default_settings 0) /\
  histories (final (_handle_msg_err (calm_env 0 0) 3 "a1"
                      (fresh_world default_settings 0)))
    = histories (fresh_world default_settings 0).
Proof.
  split; [reflexivity|].
  split.
  - exact (proj1 (proj1
      (histories_untouched_unless_enabled (calm_env 0 0) 3 "a1" 0
         (fresh_world default_settings 0) eq_refl))).
  - exact (proj1 (proj1 (proj2 (proj2
      (histories_untouched_unless_enabled (calm_env 0 0) 3 "a1" 0
         (fresh_world default_settings 0) eq_refl))))).
Defined.

(** With [save_history] on, each of the four operations appends its
    message to its own list when it completes. *)
Lemma histories_appended_when_enabled (env : Env) (fuel : nat)
    (msg : string) (rate : Q) (w : World) :
  save_history (settings (self w)) = true ->
  (out (_post_msg env fuel msg w) = Done tt ->
   sent_messages (self (final (_post_msg env fuel msg w)))
     = sent_messages (self w) ++ [msg]) /\
  received_messages (self (final (_handle_msg env msg rate w)))
    = received_messages (self w) ++ [msg] /\
  (out (_handle_msg_err env fuel msg w) = Done tt ->
   sent_errors (self (final (_handle_msg_err env fuel msg w)))
     = sent_errors (self w) ++ [msg]) /\
  received_errors (self (final (_handle_err msg w)))
    = received_errors (self w) ++ [msg].
Proof.
  intros Hon. repeat split.
  - unfold _post_msg. mrun.
    destruct (_rpush env fuel (message_collection (settings (self w))) msg w)
      as [[n|e|] w1 tr] eqn:Hrun;
      destruct (rpush_archive _ _ _ _ _ _ _ _ Hrun) as [Hs Hh];
      mrun; try discriminate.
    rewrite Hon. mrun. intros _.
    exact (f_equal (fun h => fst (fst (fst h)) ++ [msg]) Hh).
  - unfold _handle_msg. mrun. rewrite Hon. mrun.
    destruct (Qlt_bool (env_random env (n_random w)) rate); reflexivity.
  - unfold _handle_msg_err. mrun.
    destruct (_rpush env fuel (error_collection (settings (self w))) msg w)
      as [[n|e|] w1 tr] eqn:Hrun;
      destruct (rpush_archive _ _ _ _ _ _ _ _ Hrun) as [Hs Hh];
      mrun; try discriminate.
    rewrite Hon. mrun. intros _.
    exact (f_equal (fun h => snd (fst (fst h)) ++ [msg]) Hh).
  - unfold _handle_err. mrun. rewrite Hon. reflexivity.
Qed.

(** ** The consumer *)

(** The effects of [_handle_msg_err]: its log records around the RPUSH of
    the message on the error queue. *)
Lemma handle_msg_err_events (env : Env) (fuel : nat) (msg : string)
    (w : World) :
  emitted (_handle_msg_err env fuel msg w) =
    EvLog (Log_msg_error msg) ::
    emitted (_rpush env fuel (error_collection (settings (self w))) msg w) ++
    match out (_rpush env fuel (error_collection (settings (self w))) msg w)
    with
    | Done _ => [EvLog (Log_err_stored msg)]
    | _ => []
    end.
Proof.
  unfold _handle_msg_err. mrun.
  destruct (_rpush env fuel (error_collection (settings (self w))) msg w)
    as [[n|e|] w1 tr] eqn:Hrun; mrun; rewrite ?app_nil_r;
    [|reflexivity|reflexivity].
  destruct (save_history (settings (self w))); mrun;
    rewrite <- ?app_assoc, ?app_nil_r; reflexivity.
Qed.

(** One iteration of the consumer loop that receives the message [m]. *)
Lemma receiver_loop_message (env : Env) (fuel : nat) (w w1 w2 : World)
    (tr1 tr2 : list event) (m : string) :
  _keep_going env w = mkRes (Done true) w1 tr1 ->
  _get_msg env fuel w1 = mkRes (Done (Some m)) w2 tr2 ->
  m <> EmptyString ->
  let h := _handle_msg env m default_err_rate w2 in
  let rest := async_run_receiver_loop env fuel (final h) in
  async_run_receiver_loop env (S fuel) w =
    mkRes (out rest) (final rest)
      (tr1 ++ tr2 ++ emitted h ++ emitted rest).
Proof.
  intros Hgo Hmsg Hne. cbv zeta.
  cbn [async_run_receiver_loop]. mrun. rewrite Hgo. mrun. rewrite Hmsg. mrun.
  cbn [truthy_bytes bytes_of].
  assert (Hs : String.eqb m EmptyString = false)
    by (apply String.eqb_neq; exact Hne).
  rewrite Hs. mrun.
  assert (Hh : exists w3 tr3,
            _handle_msg env m default_err_rate w2 = mkRes (Done tt) w3 tr3).
  { unfold _handle_msg. mrun.
    destruct (save_history (settings (self w2))); mrun;
      destruct (Qlt_bool _ _); mrun; eauto. }
  destruct Hh as (w3 & tr3 & Hh). rewrite Hh. mrun.
  destruct (async_run_receiver_loop env fuel w3) as [o w4 tr4].
  mrun. rewrite <- ?app_assoc. reflexivity.
Qed.


(** ** The producer *)

Lemma lease_run_app (tr1 tr2 : list event) (s : lease_state) :
  lease_run s (tr1 ++ tr2) =
  match lease_run s tr1 with
  | Some s' => lease_run s' tr2
  | None => None
  end.
Proof. apply run_events_app. Qed.

Lemma lease_run_quiet (tr : list event) (s : lease_state) :
  Forall lease_quiet tr -> s <> Over -> lease_run s tr = Some s.
Proof.
  intros Hq Hs. induction Hq as [|e tr He _ IH]; [reflexivity|].
  unfold lease_run in *. cbn [run_events].
  destruct s; [| |contradiction]; destruct e; cbn in He; try contradiction;
    cbn [lease_step]; exact IH.
Qed.

Lemma get_lock_manager_loop_lease (env : Env) (fuel : nat) :
  forall w,
    Forall lease_quiet (emitted (_get_lock_manager_loop env fuel w)) /\
    _lock (self (final (_get_lock_manager_loop env fuel w)))
      = _lock (self w) /\
    forall e, out (_get_lock_manager_loop env fuel w) <> Raised e.
Proof.
  induction fuel as [|fuel IH]; intros w.
  - cbn. repeat split; [constructor|discriminate].
  - cbn [_get_lock_manager_loop]. mrun.
    destruct (env_lock_manager env (n_lock_manager w)) as [lm|e]; mrun.
    + repeat split; [repeat constructor|discriminate].
    + match goal with
      | |- context [_get_lock_manager_loop env fuel ?w1] =>
          destruct (IH w1) as (Hq & Hl & Hr);
          destruct (_get_lock_manager_loop env fuel w1) as [o w2 tr]
      end.
      cbn [out final emitted] in *. mrun.
      repeat split; [repeat (constructor; [exact I|]); exact Hq|exact Hl|
                     exact Hr].
Qed.

Lemma get_lock_manager_lease (env : Env) (fuel : nat) (w : World) :
  Forall lease_quiet (emitted (_get_lock_manager env fuel w)) /\
  _lock (self (final (_get_lock_manager env fuel w))) = _lock (self w) /\
  forall e, out (_get_lock_manager env fuel w) <> Raised e.
Proof.
  unfold _get_lock_manager. mrun.
  destruct (_lock_manager (self w)).
  - mrun. repeat split; [constructor|discriminate].
  - destruct (get_lock_manager_loop_lease env fuel w) as (Hq & Hl & Hr).
    destruct (_get_lock_manager_loop env fuel w) as [o w2 tr].
    cbn [out final emitted] in *. auto.
Qed.

Lemma get_connection_loop_lease (env : Env) (fuel : nat) :
  forall w,
    Forall lease_quiet (emitted (_get_connection_loop env fuel w)) /\
    forall e, out (_get_connection_loop env fuel w) <> Raised e.
Proof.
  induction fuel as [|fuel IH]; intros w.
  - cbn. repeat split; [constructor|discriminate].
  - cbn [_get_connection_loop]. mrun.
    destruct (env_connect env (n_connect w)) as [c|e]; mrun.
    + repeat split; [repeat constructor|discriminate].
    + match goal with
      | |- context [_get_connection_loop env fuel ?w1] =>
          destruct (IH w1) as (Hq & Hr);
          destruct (_get_connection_loop env fuel w1) as [o w2 tr]
      end.
      cbn [out final emitted] in *. mrun.
      repeat split; [repeat (constructor; [exact I|]); exact Hq|exact Hr].
Qed.

Lemma get_connection_lease (env : Env) (fuel : nat) (w : World) :
  Forall lease_quiet (emitted (_get_connection env fuel w)) /\
  forall e, out (_get_connection env fuel w) <> Raised e.
Proof.
  unfold _get_connection. mrun.
  destruct (_connection (self w)).
  - mrun. repeat split; [constructor|discriminate].
  - destruct (get_connection_loop_lease env fuel w) as (Hq & Hr).
    destruct (_get_connection_loop env fuel w) as [o w2 tr].
    cbn [out final emitted] in *. auto.
Qed.

Ltac lease_tac Hq :=
  repeat rewrite lease_run_app;
  repeat (rewrite (lease_run_quiet _ _ Hq); [|discriminate]);
  unfold lease_run; cbn [run_events lease_step].

(** The lease after [_become_a_gen]: a granted lock is stored and leaves
    the lease unextended; a refused one ends the producer. *)
Lemma become_a_gen_lease (env : Env) (fuel : nat) (w : World) :
  let r := _become_a_gen env fuel w in
  match out r with
  | Done true =>
      lease_run Unextended (emitted r) = Some Unextended /\
      exists l, _lock (self (final r)) = Some l
  | Done false | Raised _ => lease_run Unextended (emitted r) = Some Over
  | OutOfFuel => lease_run Unextended (emitted r) = Some Unextended
  end.
Proof.
  cbv zeta. unfold _become_a_gen. mrun.
  destruct (get_lock_manager_lease env fuel w) as (Hq & Hl & Hr).
  destruct (_get_lock_manager env fuel w) as [[lm|e|] w1 tr];
    cbn [out final emitted] in *.
  - destruct (env_lock env (n_lock w1)) as [l|e]; mrun.
    + split; [lease_tac Hq; reflexivity|]. eauto.
    + destruct e; mrun; lease_tac Hq; reflexivity.
  - exfalso. exact (Hr e eq_refl).
  - apply lease_run_quiet; [exact Hq|discriminate].
Qed.

(** The lease after [_extend_gen_lock]: extended exactly when the call
    returns true, over when it returns false or raises. *)
Lemma extend_gen_lock_lease (env : Env) (fuel : nat) (w : World) :
  lease_run Unextended (emitted (_extend_gen_lock env fuel w)) =
    Some (lease_after_extension (out (_extend_gen_lock env fuel w))).
Proof.
  assert (Htail : forall w1 l,
    _lock (self w1) = Some l ->
    exists o w3 tr3,
      (lock_manager <- _get_lock_manager env fuel ;;
       log Log_try_extend ;;
       a' <- get_self ;;
       match _lock a' with
       | Some l => lock_manager_extend env lock_manager l
       | None => raise AttributeError
       end ;;
       log Log_extended ;;
       ret true)%py w1 = mkRes o w3 tr3 /\
      o <> Done false /\
      lease_run Unextended tr3 = Some (lease_after_extension o) /\
      (o = Raised LockError ->
       exists tr4, tr3 = tr4 ++ [EvExtend l (Some LockError)] /\
                   lease_run Unextended tr4 = Some Unextended)).
  { intros w1 l Hlock. mrun.
    destruct (get_lock_manager_lease env fuel w1) as (Hq & Hl & Hr).
    destruct (_get_lock_manager env fuel w1) as [[lm|e|] w2 tr];
      cbn [out final emitted] in *.
    - rewrite Hl, Hlock. mrun.
      destruct (env_extend env (n_extend w2)) as [e|]; mrun;
        eexists; eexists; eexists; (split; [reflexivity|]);
        (split; [discriminate|]);
        (split; [lease_tac Hq; reflexivity|]); try discriminate.
      intros He. injection He as ->.
      exists (tr ++ [EvLog Log_try_extend]). rewrite <- app_assoc.
      split; [reflexivity|]. lease_tac Hq. reflexivity.
    - exfalso. exact (Hr e eq_refl).
    - eexists; eexists; eexists. split; [reflexivity|].
      split; [discriminate|]. split; [|discriminate].
      apply lease_run_quiet; [exact Hq|discriminate]. }
  assert (Hfinish : forall w1 l tr0,
    _lock (self w1) = Some l ->
    lease_run Unextended tr0 = Some Unextended ->
    forall o w3 tr3,
      (lock_manager <- _get_lock_manager env fuel ;;
       log Log_try_extend ;;
       a' <- get_self ;;
       match _lock a' with
       | Some l => lock_manager_extend env lock_manager l
       | None => raise AttributeError
       end ;;
       log Log_extended ;;
       ret true)%py w1 = mkRes o w3 tr3 ->
      let r :=
        match o with
        | Raised e =>
            if except_LockError e
            then mkRes (Done false) w3 ((tr0 ++ tr3) ++ [EvLog Log_extend_failed])
            else mkRes (Raised e) w3 (tr0 ++ tr3)
        | _ => mkRes o w3 (tr0 ++ tr3)
        end in
      lease_run Unextended (emitted r) = Some (lease_after_extension (out r))).
  { intros w1 l tr0 Hlock Htr0 o w3 tr3 Hrun.
    destruct (Htail w1 l Hlock) as (o' & w3' & tr3' & Hrun' & Hnf & Hlease & Hle).
    rewrite Hrun in Hrun'. injection Hrun' as <- <- <-.
    cbv zeta. destruct o as [[|]|e|]; cbn [out emitted].
    - rewrite lease_run_app, Htr0. exact Hlease.
    - contradiction.
    - destruct e; cbn [except_LockError exn_eqb out emitted];
        try (rewrite lease_run_app, Htr0; exact Hlease).
      rewrite !lease_run_app, Htr0, Hlease. reflexivity.
    - rewrite lease_run_app, Htr0. exact Hlease. }
  unfold _extend_gen_lock. mrun.
  destruct (lock_unusable (_lock (self w))) eqn:Hun.
  - pose proof (become_a_gen_lease env fuel w) as Hb. cbv zeta in Hb.
    destruct (_become_a_gen env fuel w) as [[[|]|e|] w1 tr];
      cbn [out final emitted] in *; mrun.
    + destruct Hb as (Hb & l & Hlock).
      destruct (Htail w1 l Hlock) as (o & w3 & tr3 & Hrun & _).
      pose proof (Hfinish w1 l tr Hlock Hb o w3 tr3 Hrun) as Hfin.
      mrun_in Hrun. rewrite Hrun. mrun.
      cbv zeta in Hfin.
      destruct o as [b|e|]; mrun; try exact Hfin.
    + rewrite app_nil_r. exact Hb.
    + destruct e; mrun; rewrite ?app_nil_r; try exact Hb.
      rewrite lease_run_app, Hb. reflexivity.
    + exact Hb.
  - destruct (_lock (self w)) as [l|] eqn:Hlock; [|discriminate Hun].
    mrun.
    destruct (Htail w l Hlock) as (o & w3 & tr3 & Hrun & _).
    pose proof (Hfinish w l [] Hlock eq_refl o w3 tr3 Hrun) as Hfin.
    mrun_in Hrun. rewrite Hrun. mrun.
    cbv zeta in Hfin. cbn [app] in Hfin.
    destruct o as [b|e|]; mrun; try exact Hfin.
Qed.

Lemma conn_execute_rpush_lease (env : Env) (collection item : string)
    (fuel : nat) :
  forall w,
    lease_run Extended
      (emitted (_conn_execute env fuel (rpush collection item) w)) =
    Some (lease_after_post
            (out (_conn_execute env fuel (rpush collection item) w))).
Proof.
  induction fuel as [|fuel IH]; intros w; [reflexivity|].
  cbn [_conn_execute]. mrun.
  destruct (get_connection_lease env fuel w) as (Hq & Hr).
  destruct (_get_connection env fuel w) as [[c|e|] w1 tr];
    cbn [out final emitted] in *.
  - destruct (env_redis env Z (rpush collection item) (n_redis w1))
      as [v|e]; mrun.
    + lease_tac Hq. reflexivity.
    + destruct e; mrun; try (lease_tac Hq; reflexivity).
      destruct (_connection (self w1)) as [c'|]; mrun.
      * destruct (env_close env (n_close w1)) as [e|]; mrun;
          match goal with
          | |- context [_conn_execute env fuel _ ?w3] =>
              specialize (IH w3);
              destruct (_conn_execute env fuel (rpush collection item) w3)
                as [o w4 tr4]
          end; cbn [out final emitted] in *;
          repeat rewrite <- app_assoc; cbn [app];
          lease_tac Hq; exact IH.
      * match goal with
        | |- context [_conn_execute env fuel _ ?w3] =>
            specialize (IH w3);
            destruct (_conn_execute env fuel (rpush collection item) w3)
              as [o w4 tr4]
        end; cbn [out final emitted] in *;
        repeat rewrite <- app_assoc; cbn [app];
        lease_tac Hq; exact IH.
  - exfalso. exact (Hr e eq_refl).
  - apply lease_run_quiet; [exact Hq|discriminate].
Qed.

Lemma post_msg_lease (env : Env) (fuel : nat) (msg : string) (w : World) :
  lease_run Extended (emitted (_post_msg env fuel msg w)) =
    Some (lease_after_post (out (_post_msg env fuel msg w))).
Proof.
  unfold _post_msg. mrun.
  pose proof (conn_execute_rpush_lease env
                (message_collection (settings (self w))) msg fuel w) as H.
  unfold _rpush.
  destruct (_conn_execute env fuel
              (rpush (message_collection (settings (self w))) msg) w)
    as [[n|e|] w1 tr]; cbn [out final emitted lease_after_post] in *; mrun.
  - destruct (save_history (settings (self w))); mrun;
      unfold lease_run in *; cbn [run_events lease_step];
      rewrite run_events_app, H; reflexivity.
  - unfold lease_run in *; cbn [run_events lease_step]. exact H.
  - unfold lease_run in *; cbn [run_events lease_step]. exact H.
Qed.

Lemma random_choices_silent (env : Env) (population : list ascii) (k : nat) :
  forall w,
    emitted (random_choices env population k w) = [] /\
    exists cs, out (random_choices env population k w) = Done cs.
Proof.
  induction k as [|k IH]; intros w.
  - cbn. eauto.
  - cbn [random_choices]. mrun.
    match goal with
    | |- context [random_choices env population k ?w1] =>
        destruct (IH w1) as (He & cs & Ho);
        destruct (random_choices env population k w1) as [o w2 tr]
    end.
    cbn [out emitted] in *. subst. mrun. eauto.
Qed.

Lemma gen_msg_silent (env : Env) (w : World) :
  emitted (_gen_msg env w) = [] /\ exists msg, out (_gen_msg env w) = Done msg.
Proof.
  unfold _gen_msg. mrun.
  destruct (random_choices_silent env hexdigits 32 w) as (He & cs & Ho).
  destruct (random_choices env hexdigits 32 w) as [o w2 tr].
  cbn [out emitted] in *. subst. mrun. eauto.
Qed.

Lemma keep_going_silent (env : Env) (w : World) :
  emitted (_keep_going env w) = [] /\
  terminated (out (_keep_going env w)) = true.
Proof.
  unfold _keep_going. mrun.
  destruct (_stop (self w)); [split; reflexivity|].
  destruct (Qeq_bool (lifetime (settings (self w))) 0); [split; reflexivity|].
  destruct (_start_time (self w)); split; reflexivity.
Qed.

Lemma Ticker_anext_quiet (env : Env) (tk : Ticker) (w : World) :
  Forall lease_quiet (emitted (Ticker_anext env tk w)) /\
  exists tk', out (Ticker_anext env tk w) = Done tk'.
Proof.
  unfold Ticker_anext. mrun.
  destruct (Qlt_bool _ _); mrun; split; eauto; repeat constructor.
Qed.

Ltac lease_skip Hq :=
  rewrite lease_run_app; rewrite (lease_run_quiet _ _ Hq) by discriminate;
  cbv beta iota.

Ltac lease_next H :=
  rewrite lease_run_app; rewrite H; cbv beta iota.

Lemma async_run_gen_loop_lease (env : Env) (fuel : nat) :
  forall tk w,
    exists s,
      lease_run Unextended (emitted (async_run_gen_loop env fuel tk w))
        = Some s /\
      (s = Over ->
       terminated (out (async_run_gen_loop env fuel tk w)) = true).
Proof.
  induction fuel as [|fuel IH]; intros tk w.
  - exists Unextended. split; [reflexivity|discriminate].
  - cbn [async_run_gen_loop]. mrun.
    destruct (Ticker_anext_quiet env tk w) as (Hq1 & tk' & Ho1).
    destruct (Ticker_anext env tk w) as [o1 w1 tr1].
    cbn [out emitted] in Hq1, Ho1. subst o1. mrun.
    destruct (keep_going_silent env w1) as (He2 & Ht2).
    destruct (_keep_going env w1) as [[go|e|] w2 tr2];
      cbn [out emitted] in He2, Ht2; subst tr2; mrun;
      try discriminate Ht2.
    + destruct go; mrun.
      * pose proof (extend_gen_lock_lease env fuel w2) as H3.
        destruct (_extend_gen_lock env fuel w2) as [[[|]|e|] w3 tr3];
          cbn [out emitted lease_after_extension] in H3; mrun.
        -- destruct (gen_msg_silent env w3) as (He4 & msg & Ho4).
           destruct (_gen_msg env w3) as [o4 w4 tr4].
           cbn [out emitted] in He4, Ho4. subst o4 tr4. mrun.
           pose proof (post_msg_lease env fuel msg w4) as H5.
           destruct (_post_msg env fuel msg w4) as [[u|e|] w5 tr5];
             cbn [out emitted lease_after_post] in H5; mrun.
           ++ destruct (IH tk' w5) as (s & Hs & Hover).
              destruct (async_run_gen_loop env fuel tk' w5) as [o6 w6 tr6].
              cbn [out emitted] in *. exists s.
              split; [|exact Hover].
              lease_skip Hq1. lease_next H3. lease_next H5. exact Hs.
           ++ exists Over. split; [|reflexivity].
              rewrite ?app_nil_r. lease_skip Hq1. lease_next H3. exact H5.
           ++ exists Extended. split; [|discriminate].
              rewrite ?app_nil_r. lease_skip Hq1. lease_next H3. exact H5.
        -- exists Over. split; [|reflexivity].
           rewrite ?app_nil_r. lease_skip Hq1. lease_next H3. reflexivity.
        -- exists Over. split; [|reflexivity].
           rewrite ?app_nil_r. lease_skip Hq1. exact H3.
        -- exists Unextended. split; [|discriminate].
           rewrite ?app_nil_r. lease_skip Hq1. exact H3.
      * exists Unextended. split; [|discriminate].
        rewrite ?app_nil_r. apply lease_run_quiet; [exact Hq1|discriminate].
    + exists Unextended. split; [|discriminate].
      rewrite ?app_nil_r. apply lease_run_quiet; [exact Hq1|discriminate].
Qed.

(** C1: every run of the producer loop, complete or cut at any point, is
    accepted by the automaton [lease_step] started in [Unextended]: RPUSH
    is called only after an extension of the lease that the lock service
    accepted, with no other call of the lock service and no completed
    RPUSH in between; after a refused acquisition or extension nothing is
    done but logging, and the loop has ended.  An extension accepted by
    the lock service is what [_extend_gen_lock] returning true means: the
    state after a call of [_extend_gen_lock] is [Extended] when it returns
    true and [Over] when it returns false or raises. *)
Theorem producer_posts_only_under_lease (env : Env) (fuel : nat) (w : World) :
  (exists s,
     lease_run Unextended (emitted (async_run_gen env fuel w)) = Some s /\
     (s = Over -> terminated (out (async_run_gen env fuel w)) = true)) /\
  (forall fuel' w',
     lease_run Unextended (emitted (_extend_gen_lock env fuel' w')) =
       Some (lease_after_extension (out (_extend_gen_lock env fuel' w')))).
Proof.
  split; [|intros fuel' w'; apply extend_gen_lock_lease].
  unfold async_run_gen, Ticker_init. mrun.
  match goal with
  | |- context [async_run_gen_loop env fuel ?tk ?w1] =>
      destruct (async_run_gen_loop_lease env fuel tk w1) as (s & Hs & Hover);
      destruct (async_run_gen_loop env fuel tk w1) as [o w2 tr]
  end.
  cbn [out emitted] in *. exists s. split; [|exact Hover].
  unfold lease_run in *. cbn [run_events lease_step]. exact Hs.
Qed.

Lemma producer_posts_only_under_lease_witness :
  lease_run Unextended
    (emitted (async_run_gen contended_env 3 (fresh_world default_settings 0)))
    = Some Over /\
  terminated
    (out (async_run_gen contended_env 3 (fresh_world default_settings 0)))
    = true.
Proof.
  destruct (producer_posts_only_under_lease contended_env 3
              (fresh_world default_settings 0)) as ((s & Hs & Hover) & _).
  assert (Hrun : lease_run Unextended
            (emitted (async_run_gen contended_env 3
                        (fresh_world default_settings 0))) = Some Over)
    by reflexivity.
  split; [exact Hrun|].
  apply Hover. rewrite Hrun in Hs. injection Hs as <-. reflexivity.
Defined.

(** A run cut in its third iteration: one acquisition, three extensions,
    two messages posted and the third about to be. *)
Example producer_three_iterations :
  lock_calls (emitted (async_run_gen (calm_env (1 # 2) 0) 3
                         (fresh_world default_settings 0)))
    = [("gen", inl (mkLock "gen" 0 true))] /\
  List.length
    (extend_calls (emitted (async_run_gen (calm_env (1 # 2) 0) 3
                              (fresh_world default_settings 0)))) = 3%nat /\
  List.length
    (filter is_redis_call
       (emitted (async_run_gen (calm_env (1 # 2) 0) 3
                   (fresh_world default_settings 0)))) = 2%nat /\
  lease_run Unextended
    (emitted (async_run_gen (calm_env (1 # 2) 0) 3
                (fresh_world default_settings 0))) = Some Extended.
Proof. repeat split; vm_compute; reflexivity. Qed.

(** ** The consumer loop *)

(** [_get_msg] is one BLPOP on the message queue with the wait
    [get_timeout], through the resilient executor; it hands on the value of
    the pair, or [None]. *)
Lemma get_msg_blpop (env : Env) (fuel : nat) (w : World) :
  let call := _conn_execute env fuel
                (blpop (message_collection (settings (self w)))
                       (get_timeout (settings (self w)))) w in
  _get_msg env fuel w =
    mkRes match out call with
          | Done reply => Done (option_map snd reply)
          | Raised e => Raised e
          | OutOfFuel => OutOfFuel
          end
          (final call) (emitted call).
Proof.
  cbv zeta. unfold _get_msg, _blpop. mrun.
  destruct (_conn_execute env fuel _ w) as [[[[q v]|]|e|] w1 tr]; mrun;
    rewrite ?app_nil_r; reflexivity.
Qed.

(** An iteration of the consumer loop whose pop times out ends the loop. *)
Lemma receiver_loop_timeout (env : Env) (fuel : nat) (w w1 w2 : World)
    (tr1 tr2 : list event) :
  _keep_going env w = mkRes (Done true) w1 tr1 ->
  _get_msg env fuel w1 = mkRes (Done None) w2 tr2 ->
  async_run_receiver_loop env (S fuel) w =
    mkRes (Done tt) w2 (tr1 ++ tr2 ++ [EvLog Log_no_messages]).
Proof.
  intros Hgo Hmsg.
  cbn [async_run_receiver_loop]. mrun. rewrite Hgo. mrun. rewrite Hmsg. mrun.
  cbn [truthy_bytes]. mrun. reflexivity.
Qed.

(** An iteration of the consumer loop whose pop yields the empty message
    ends the loop as well: the message is not handled. *)
Lemma receiver_loop_empty_message (env : Env) (fuel : nat) (w w1 w2 : World)
    (tr1 tr2 : list event) :
  _keep_going env w = mkRes (Done true) w1 tr1 ->
  _get_msg env fuel w1 = mkRes (Done (Some EmptyString)) w2 tr2 ->
  async_run_receiver_loop env (S fuel) w =
    mkRes (Done tt) w2 (tr1 ++ tr2 ++ [EvLog Log_no_messages]).
Proof.
  intros Hgo Hmsg.
  cbn [async_run_receiver_loop]. mrun. rewrite Hgo. mrun. rewrite Hmsg. mrun.
  cbn [truthy_bytes String.eqb]. mrun. reflexivity.
Qed.

(** C7, at the failing input: the message queue holds the empty message
    and then the message a2.  The pop yields the pair of the queue name
    and the empty message; the consumer, with [save_history] on, handles
    nothing, logs that no message was received and stops after this single
    pop, the second message still in the queue. *)
Theorem receiver_halts_on_empty_message :
  out (async_run_receiver (queue_env 0 [EmptyString; "a2"]) 5
         (fresh_world (set_save_history true default_settings) 0))
    = Done tt /\
  emitted (async_run_receiver (queue_env 0 [EmptyString; "a2"]) 5
             (fresh_world (set_save_history true default_settings) 0))
    = [EvLog Log_running_receiver;
       EvLog (Log_connecting "localhost" 6379);
       EvConnect (inl 0%nat);
       EvLog Log_connected;
       EvCall 0%nat (blpop "msg" 5) (inl (Some ("msg", EmptyString)));
       EvLog Log_no_messages] /\
  received_messages
    (self (final (async_run_receiver (queue_env 0 [EmptyString; "a2"]) 5
                    (fresh_world (set_save_history true default_settings) 0))))
    = [] /\
  n_redis (final (async_run_receiver (queue_env 0 [EmptyString; "a2"]) 5
                    (fresh_world (set_save_history true default_settings) 0)))
    = 1%nat.
Proof. repeat split; vm_compute; reflexivity. Qed.

(** The same queue with a first message that is not empty: both messages
    are handled, and the loop stops at the time-out that follows. *)
Example receiver_handles_messages :
  received_messages
    (self (final (async_run_receiver (queue_env 1 ["a1"; "a2"]) 5
                    (fresh_world (set_save_history true default_settings) 0))))
    = ["a1"; "a2"] /\
  n_redis (final (async_run_receiver (queue_env 1 ["a1"; "a2"]) 5
                    (fresh_world (set_save_history true default_settings) 0)))
    = 3%nat.
Proof. repeat split; vm_compute; reflexivity. Qed.

(** ** The error drain *)

(** C9, at the failing input: the error queue holds e1, the empty error
    and e3.  The drain pops e1 and schedules its handler, pops the empty
    error and stops there: two errors were popped, one is reported, the
    empty one is dropped and e3 stays in the queue though no pop has
    returned [None]. *)
Theorem drain_stops_at_empty_error :
  out (async_get_errors (queue_env 0 ["e1"; EmptyString; "e3"]) 5
         (fresh_world default_settings 0)) = Done tt /\
  filter is_redis_call
    (emitted (async_get_errors (queue_env 0 ["e1"; EmptyString; "e3"]) 5
                (fresh_world default_settings 0)))
    = [EvCall 0%nat (lpop "err") (inl (Some "e1"));
       EvCall 0%nat (lpop "err") (inl (Some EmptyString))] /\
  pending (final (async_get_errors (queue_env 0 ["e1"; EmptyString; "e3"]) 5
                    (fresh_world default_settings 0)))
    = [Task_handle_err "e1"] /\
  In (EvLog (Log_errors_retrieved 1))
     (emitted (async_get_errors (queue_env 0 ["e1"; EmptyString; "e3"]) 5
                 (fresh_world default_settings 0))).
Proof.
  repeat split; try (vm_compute; reflexivity).
  vm_compute. repeat ((left; reflexivity) || right).
Qed.

(** A pop of the error queue that the backend answers at once. *)
Lemma get_err_pop (env : Env) (K : nat)
    (Hconnect : forall n, answers_within (env_connect env) n K = true)
    (fuel : nat) (w : World) (v : option string) :
  env_redis env (option string)
    (lpop (error_collection (settings (self w)))) (n_redis w) = inl v ->
  (K < fuel)%nat ->
  exists w2 tr,
    _get_err env fuel w = mkRes (Done v) w2 tr /\
    n_redis w2 = S (n_redis w) /\
    settings (self w2) = settings (self w) /\
    pending w2 = pending w /\
    histories w2 = histories w.
Proof.
  intros Hv Hfuel. unfold _get_err, _lpop. mrun.
  destruct (conn_execute_run env (lpop (error_collection (settings (self w))))
              v K Hconnect 0 fuel w 0%nat)
    as (w2 & tr & Hrun & Hn & Hs & _ & _).
  - intros i Hi. lia.
  - rewrite Nat.add_0_r. exact Hv.
  - lia.
  - pose proof (conn_execute_pending env
                  (lpop (error_collection (settings (self w)))) fuel w) as Hp.
    pose proof (conn_execute_archive env
                  (lpop (error_collection (settings (self w)))) fuel w) as Ha.
    rewrite Hrun in Hp, Ha. cbn [final] in Hp, Ha. rewrite Hrun. mrun.
    exists w2, tr. rewrite ?app_nil_r. split; [reflexivity|].
    split; [lia|]. split; [exact Hs|]. split; [exact Hp|].
    exact (f_equal snd Ha).
Qed.

Lemma pops_yield_tail (env : Env) (w w' : World) (v : option string)
    (vs : list (option string)) :
  pops_yield env w (v :: vs) ->
  n_redis w' = S (n_redis w) ->
  settings (self w') = settings (self w) ->
  pops_yield env w' vs.
Proof.
  intros H Hn Hs i x Hx. rewrite Hn, Hs.
  replace (S (n_redis w) + i)%nat with (n_redis w + S i)%nat by lia.
  apply H. exact Hx.
Qed.

(** The loop of the drain over a queue of errors none of which is empty:
    it pops every error and the [None] after them, schedules one handler
    per error and reports their number. *)
Lemma get_errors_loop_drains (env : Env) (K : nat)
    (Hconnect : forall n, answers_within (env_connect env) n K = true)
    (errs : list string) :
  forall fuel w e0 count,
    e0 <> EmptyString ->
    Forall (fun e => e <> EmptyString) errs ->
    pops_yield env w (map Some errs ++ [None]) ->
    (K + List.length errs + 1 < fuel)%nat ->
    exists w2 tr,
      async_get_errors_loop env fuel (Some e0) count w =
        mkRes (Done tt) w2
          (tr ++ [EvLog (Log_errors_retrieved
                           (count + 1 + Z.of_nat (List.length errs)))]) /\
      pending w2 = pending w ++ map Task_handle_err (e0 :: errs) /\
      n_redis w2 = (n_redis w + List.length errs + 1)%nat /\
      histories w2 = histories w.
Proof.
  induction errs as [|e1 errs IH]; intros fuel w e0 count He0 Hne Hpops Hfuel.
  - destruct fuel as [|[|fuel]]; try lia.
    cbn [async_get_errors_loop truthy_bytes bytes_of].
    assert (Hs : String.eqb e0 EmptyString = false)
      by (apply String.eqb_neq; exact He0).
    rewrite Hs. mrun.
    match goal with
    | |- context [_get_err env (S fuel) ?w1] =>
        destruct (get_err_pop env K Hconnect (S fuel) w1 None)
          as (w2 & tr & Hrun & Hn & Hset & Hp & Hh)
    end.
    + mrun. specialize (Hpops 0%nat None eq_refl).
      rewrite Nat.add_0_r in Hpops. exact Hpops.
    + cbn [List.length] in Hfuel. lia.
    + rewrite Hrun. mrun. cbn [truthy_bytes]. mrun.
      exists w2. eexists. split.
      * rewrite Z.add_0_r. rewrite app_comm_cons. reflexivity.
      * split; [exact Hp|]. split; [rewrite Hn; mrun; cbn; lia|exact Hh].
  - destruct fuel as [|fuel]; try lia.
    cbn [async_get_errors_loop truthy_bytes bytes_of].
    assert (Hs : String.eqb e0 EmptyString = false)
      by (apply String.eqb_neq; exact He0).
    rewrite Hs. mrun.
    match goal with
    | |- context [_get_err env fuel ?w1] =>
        destruct (get_err_pop env K Hconnect fuel w1 (Some e1))
          as (w2 & tr & Hrun & Hn & Hset & Hp & Hh)
    end.
    + mrun. specialize (Hpops 0%nat (Some e1) eq_refl).
      rewrite Nat.add_0_r in Hpops. exact Hpops.
    + cbn [List.length] in Hfuel. lia.
    + rewrite Hrun. mrun.
      destruct (IH fuel w2 e1 (count + 1)%Z)
        as (w3 & tr3 & Hrun3 & Hp3 & Hn3 & Hh3).
      * inversion Hne; assumption.
      * inversion Hne; assumption.
      * apply pops_yield_tail with (w := w) (v := Some e1);
          [exact Hpops|exact Hn|exact Hset].
      * cbn [List.length] in Hfuel. lia.
      * rewrite Hrun3. mrun. exists w3. eexists. split.
        -- replace (count + 1 + Z.of_nat (List.length (e1 :: errs)))%Z
             with (count + 1 + 1 + Z.of_nat (List.length errs))%Z
             by (cbn [List.length]; lia).
           rewrite app_assoc, app_comm_cons. reflexivity.
        -- split; [rewrite Hp3, Hp; mrun; rewrite <- app_assoc; reflexivity|].
           split; [rewrite Hn3, Hn; mrun; cbn [List.length]; lia|].
           rewrite Hh3, Hh. reflexivity.
Qed.

(** What the drain does on a queue of errors none of which is empty: every
    error is popped, then the [None] that ends the queue; one handler is
    scheduled per error, none is run inline, and the number reported is
    the number of errors popped. *)
Lemma get_errors_drains_nonempty (env : Env) (K : nat)
    (Hconnect : forall n, answers_within (env_connect env) n K = true)
    (errs : list string) (fuel : nat) (w : World) :
  Forall (fun e => e <> EmptyString) errs ->
  pops_yield env w (map Some errs ++ [None]) ->
  (K + List.length errs + 1 < fuel)%nat ->
  exists w2 tr,
    async_get_errors env fuel w =
      mkRes (Done tt) w2
        (tr ++ [EvLog (Log_errors_retrieved (Z.of_nat (List.length errs)))]) /\
    pending w2 = pending w ++ map Task_handle_err errs /\
    n_redis w2 = (n_redis w + List.length errs + 1)%nat /\
    histories w2 = histories w.
Proof.
  intros Hne Hpops Hfuel. unfold async_get_errors. mrun.
  destruct errs as [|e0 errs].
  - destruct (get_err_pop env K Hconnect fuel w None)
      as (w2 & tr & Hrun & Hn & Hset & Hp & Hh).
    + specialize (Hpops 0%nat None eq_refl).
      rewrite Nat.add_0_r in Hpops. exact Hpops.
    + lia.
    + rewrite Hrun. mrun. destruct fuel as [|fuel]; [lia|].
      cbn [async_get_errors_loop truthy_bytes]. mrun.
      exists w2, tr. split; [reflexivity|].
      split; [rewrite Hp, app_nil_r; reflexivity|].
      split; [rewrite Hn; cbn [List.length]; lia|exact Hh].
  - destruct (get_err_pop env K Hconnect fuel w (Some e0))
      as (w2 & tr & Hrun & Hn & Hset & Hp & Hh).
    + specialize (Hpops 0%nat (Some e0) eq_refl).
      rewrite Nat.add_0_r in Hpops. exact Hpops.
    + lia.
    + rewrite Hrun. mrun.
      destruct (get_errors_loop_drains env K Hconnect errs fuel w2 e0 0%Z)
        as (w3 & tr3 & Hrun3 & Hp3 & Hn3 & Hh3).
      * inversion Hne; assumption.
      * inversion Hne; assumption.
      * apply pops_yield_tail with (w := w) (v := Some e0);
          [exact Hpops|exact Hn|exact Hset].
      * cbn [List.length] in Hfuel. lia.
      * rewrite Hrun3. mrun. exists w3. eexists. split.
        -- replace (Z.of_nat (List.length (e0 :: errs)))
             with (0 + 1 + Z.of_nat (List.length errs))%Z
             by (cbn [List.length]; lia).
           rewrite app_assoc. reflexivity.
        -- split; [rewrite Hp3, Hp; reflexivity|].
           split; [rewrite Hn3, Hn; cbn [List.length]; lia|].
           rewrite Hh3, Hh. reflexivity.
Qed.

(** * Further properties *)

(** ** Effects confined to a class *)

Section Confined.

Context (s : Settings) (P : event -> Prop).

Lemma confined_ret {A} (a : A) : confined s P (ret a).
Proof. intros w Hw. split; [exact Hw|constructor]. Qed.

Lemma confined_raise {A} (e : exn) : confined s P (@raise A e).
Proof. intros w Hw. split; [exact Hw|constructor]. Qed.

Lemma confined_out_of_fuel {A} : confined s P (@out_of_fuel A).
Proof. intros w Hw. split; [exact Hw|constructor]. Qed.

Lemma confined_get_self : confined s P get_self.
Proof. intros w Hw. split; [exact Hw|constructor]. Qed.

Lemma confined_bind {A B} (m : M A) (f : A -> M B) :
  confined s P m -> (forall a, confined s P (f a)) ->
  confined s P (bind m f).
Proof.
  intros Hm Hf w Hw. unfold bind. destruct (Hm w Hw) as [Hs Hp].
  destruct (m w) as [[a|e|] w1 tr1]; cbn [final emitted] in *; auto.
  destruct (Hf a w1 Hs) as [Hs2 Hp2].
  destruct (f a w1) as [o w2 tr2]. cbn [final emitted] in *.
  split; [exact Hs2|]. apply Forall_app. auto.
Qed.

Lemma confined_try_except {A} (m : M A) (sel : exn -> bool)
    (h : exn -> M A) :
  confined s P m -> (forall e, confined s P (h e)) ->
  confined s P (try_except m sel h).
Proof.
  intros Hm Hh w Hw. unfold try_except. destruct (Hm w Hw) as [Hs Hp].
  destruct (m w) as [[a|e|] w1 tr1]; cbn [final emitted] in *; auto.
  destruct (sel e); [|auto].
  destruct (Hh e w1 Hs) as [Hs2 Hp2].
  destruct (h e w1) as [o w2 tr2]. cbn [final emitted] in *.
  split; [exact Hs2|]. apply Forall_app. auto.
Qed.

(** A step that changes no settings and emits the single effect [e]. *)
Lemma confined_atomic {A} (m : M A) :
  (forall w, settings (self (final (m w))) = settings (self w)) ->
  (forall w, Forall P (emitted (m w))) ->
  confined s P m.
Proof.
  intros H1 H2 w Hw. split; [rewrite H1; exact Hw|apply H2].
Qed.

End Confined.

Lemma confined_weaken {A} (s : Settings) (P Q : event -> Prop) (m : M A) :
  (forall e, P e -> Q e) -> confined s P m -> confined s Q m.
Proof.
  intros HPQ Hm w Hw. destruct (Hm w Hw) as [Hs Hp]. split; [exact Hs|].
  eapply Forall_impl; [exact HPQ|exact Hp].
Qed.

(** Steps through a program; what is left are the library calls and the
    calls of other functions of the program. *)
Ltac confined_step :=
  first
    [ apply confined_ret | apply confined_raise | apply confined_out_of_fuel
    | apply confined_get_self
    | apply confined_bind; [|intros ?]
    | apply confined_try_except; [|intros ?]
    | match goal with
      | |- confined _ _ (match ?x with _ => _ end) => destruct x
      | |- confined _ _ (if ?x then _ else _) => destruct x
      end ].

(** A library call: it keeps the settings, and its effect is in the
    class. *)
Ltac confined_call :=
  solve [ apply confined_atomic;
          [ intros ?; reflexivity
          | intros ?; cbn; repeat constructor ] ].

(** ** The executor makes no call but the requested one *)

Lemma get_connection_loop_only_call (env : Env) (s : Settings) {R}
    (m : method R) (fuel : nat) :
  confined s (only_call m) (_get_connection_loop env fuel).
Proof.
  induction fuel as [|fuel IH]; cbn [_get_connection_loop].
  - apply confined_out_of_fuel.
  - repeat first [confined_step | exact IH | confined_call].
Qed.

Lemma get_connection_only_call (env : Env) (s : Settings) {R}
    (m : method R) (fuel : nat) :
  confined s (only_call m) (_get_connection env fuel).
Proof.
  unfold _get_connection.
  repeat first [confined_step | apply get_connection_loop_only_call].
Qed.

Lemma conn_execute_only_call (env : Env) (s : Settings) {R} (m : method R)
    (fuel : nat) :
  confined s (only_call m) (_conn_execute env fuel m).
Proof.
  induction fuel as [|fuel IH]; cbn [_conn_execute].
  - apply confined_out_of_fuel.
  - apply confined_bind; [apply get_connection_only_call|intros c].
    repeat first [confined_step | exact IH | confined_call].
    apply confined_atomic; [intros ?; reflexivity|].
    intros w. cbn. constructor; [|constructor].
    apply method_eqb_refl.
Qed.

Lemma confined_bind_self {B} (s : Settings) (P : event -> Prop)
    (f : App -> M B) :
  (forall a, settings a = s -> confined s P (f a)) ->
  confined s P (bind get_self f).
Proof.
  intros Hf w Hw. unfold bind, get_self.
  destruct (Hf (self w) Hw w Hw) as [Hs Hp].
  destruct (f (self w) w) as [o w2 tr2]. cbn [final emitted] in *.
  auto.
Qed.

(** X1: whatever the backend answers and wherever the run is cut, the
    only connection method [_conn_execute] ever calls is the requested
    one, with the arguments it was given; its other effects are logging,
    sleeping, connecting and closing. *)
Theorem conn_execute_calls_only_requested (env : Env) {R} (m : method R)
    (fuel : nat) (w : World) :
  Forall (only_call m) (emitted (_conn_execute env fuel m w)).
Proof.
  exact (proj2 (conn_execute_only_call env (settings (self w)) m fuel w
                  eq_refl)).
Qed.

Lemma only_call_log {R} (m : method R) (r : logrec) : only_call m (EvLog r).
Proof. exact I. Qed.

Lemma post_msg_only_call (env : Env) (s : Settings) (fuel : nat)
    (msg : string) :
  confined s (only_call (rpush (message_collection s) msg))
    (_post_msg env fuel msg).
Proof.
  unfold _post_msg, _rpush.
  apply confined_bind; [confined_call|intros _].
  apply confined_bind_self. intros a Ha. rewrite Ha.
  apply confined_bind; [apply conn_execute_only_call|intros n].
  repeat first [confined_step | confined_call].
Qed.

Lemma handle_msg_err_only_call (env : Env) (s : Settings) (fuel : nat)
    (msg : string) :
  confined s (only_call (rpush (error_collection s) msg))
    (_handle_msg_err env fuel msg).
Proof.
  unfold _handle_msg_err, _rpush.
  apply confined_bind; [confined_call|intros _].
  apply confined_bind_self. intros a Ha. rewrite Ha.
  apply confined_bind; [apply conn_execute_only_call|intros n].
  repeat first [confined_step | confined_call].
Qed.

Lemma get_msg_only_call (env : Env) (s : Settings) (fuel : nat) :
  confined s (only_call (blpop (message_collection s) (get_timeout s)))
    (_get_msg env fuel).
Proof.
  unfold _get_msg, _blpop.
  apply confined_bind_self. intros a Ha. rewrite Ha.
  apply confined_bind; [apply conn_execute_only_call|intros r].
  repeat first [confined_step | confined_call].
Qed.

Lemma get_err_only_call (env : Env) (s : Settings) (fuel : nat) :
  confined s (only_call (lpop (error_collection s))) (_get_err env fuel).
Proof.
  unfold _get_err, _lpop.
  apply confined_bind_self. intros a Ha. rewrite Ha.
  apply conn_execute_only_call.
Qed.

(** X2: the four queue operations of the worker go to the queue they are
    meant for, with the value they were given: every connection call of
    [_post_msg] is the RPUSH of the message on the message queue, every
    one of [_handle_msg_err] the RPUSH of the message on the error queue,
    every one of [_get_msg] the BLPOP on the message queue with the wait
    [get_timeout], and every one of [_get_err] the LPOP on the error
    queue; this holds for every answer of the backend, retries
    included. *)
Theorem queue_operations_routing (env : Env) (fuel : nat) (msg : string)
    (w : World) :
  Forall (only_call (rpush (message_collection (settings (self w))) msg))
    (emitted (_post_msg env fuel msg w)) /\
  Forall (only_call (rpush (error_collection (settings (self w))) msg))
    (emitted (_handle_msg_err env fuel msg w)) /\
  Forall (only_call (blpop (message_collection (settings (self w)))
                           (get_timeout (settings (self w)))))
    (emitted (_get_msg env fuel w)) /\
  Forall (only_call (lpop (error_collection (settings (self w)))))
    (emitted (_get_err env fuel w)).
Proof.
  repeat split.
  - exact (proj2 (post_msg_only_call env _ fuel msg w eq_refl)).
  - exact (proj2 (handle_msg_err_only_call env _ fuel msg w eq_refl)).
  - exact (proj2 (get_msg_only_call env _ fuel w eq_refl)).
  - exact (proj2 (get_err_only_call env _ fuel w eq_refl)).
Qed.

Lemma keep_going_confined (env : Env) (s : Settings) (P : event -> Prop) :
  confined s P (_keep_going env).
Proof.
  unfold _keep_going.
  repeat first [confined_step | confined_call].
Qed.

Lemma handle_msg_confined (env : Env) (s : Settings) (msg : string)
    (rate : Q) :
  confined s (receiver_event s) (_handle_msg env msg rate).
Proof.
  unfold _handle_msg.
  repeat first [confined_step | confined_call].
Qed.

Lemma only_call_receiver_event (s : Settings) (e : event) :
  only_call (blpop (message_collection s) (get_timeout s)) e ->
  receiver_event s e.
Proof. destruct e; cbn; auto. contradiction. Qed.

Lemma receiver_loop_confined (env : Env) (s : Settings) (fuel : nat) :
  confined s (receiver_event s) (async_run_receiver_loop env fuel).
Proof.
  induction fuel as [|fuel IH]; cbn [async_run_receiver_loop].
  - apply confined_out_of_fuel.
  - apply confined_bind; [apply keep_going_confined|intros go].
    destruct (negb go); [apply confined_ret|].
    apply confined_bind; [|intros msg].
    + eapply confined_weaken; [apply only_call_receiver_event|].
      apply get_msg_only_call.
    + destruct (truthy_bytes msg).
      * apply confined_bind; [apply handle_msg_confined|intros _; exact IH].
      * repeat first [confined_step | confined_call].
Qed.


Lemma get_errors_loop_confined (env : Env) (s : Settings) (fuel : nat) :
  forall err count,
    confined s (drain_event s) (async_get_errors_loop env fuel err count).
Proof.
  induction fuel as [|fuel IH]; intros err count;
    cbn [async_get_errors_loop].
  - apply confined_out_of_fuel.
  - destruct (truthy_bytes err).
    + apply confined_bind; [confined_call|intros _].
      apply confined_bind; [|intros err'; apply IH].
      eapply confined_weaken; [|apply get_err_only_call].
      intros e He. destruct e; cbn in *; auto. contradiction.
    + repeat first [confined_step | confined_call].
Qed.

(** X4: in every run of the error drain [async_get_errors], complete or
    cut, the only connection call is the LPOP on the error queue and the
    only tasks scheduled are handlers of errors; the drain never calls the
    lock service and never pushes on a queue. *)
Theorem drain_only_pops (env : Env) (fuel : nat) (w : World) :
  Forall (drain_event (settings (self w)))
    (emitted (async_get_errors env fuel w)) /\
  lock_calls (emitted (async_get_errors env fuel w)) = [] /\
  extend_calls (emitted (async_get_errors env fuel w)) = [].
Proof.
  assert (H : Forall (drain_event (settings (self w)))
                (emitted (async_get_errors env fuel w))).
  { assert (Hc : confined (settings (self w))
                   (drain_event (settings (self w)))
                   (async_get_errors env fuel)).
    { unfold async_get_errors.
      apply confined_bind; [|intros err; apply get_errors_loop_confined].
      eapply confined_weaken; [|apply get_err_only_call].
      intros e He. destruct e; cbn in *; auto. contradiction. }
    exact (proj2 (Hc w eq_refl)). }
  split; [exact H|].
  apply not_lock_service_calls.
  eapply Forall_impl; [|exact H].
  intros e He. destruct e; cbn in *; auto.
Qed.

(** ** Connecting *)

Lemma get_connection_loop_backs_off (env : Env) (c : conn) (k : nat) :
  forall fuel w,
    (forall i, (i < k)%nat ->
       exists e, env_connect env (n_connect w + i) = inr e) ->
    env_connect env (n_connect w + k) = inl c ->
    (k < fuel)%nat ->
    exists w1 tr,
      _get_connection_loop env fuel w = mkRes (Done c) w1 tr /\
      _connection (self w1) = Some c /\
      n_connect w1 = (n_connect w + k + 1)%nat /\
      forget_connection w1 = forget_connection w /\
      sleeps tr = repeat (reconnect_timeout (settings (self w))) k.
Proof.
  induction k as [|k IH]; intros fuel w Hfail Hok Hfuel;
    (destruct fuel as [|fuel]; [lia|]); cbn [_get_connection_loop]; mrun.
  - rewrite Nat.add_0_r in Hok. rewrite Hok. mrun.
    eexists. eexists. split; [reflexivity|]. mrun.
    split; [reflexivity|]. split; [lia|]. split; reflexivity.
  - destruct (Hfail 0%nat ltac:(lia)) as [e He].
    rewrite Nat.add_0_r in He. rewrite He. mrun.
    match goal with
    | |- context [_get_connection_loop env fuel ?w1] =>
        destruct (IH fuel w1) as (w2 & tr & Hrun & Hc & Hn & Hfr & Hsl)
    end.
    + intros i Hi. mrun.
      replace (S (n_connect w) + i)%nat with (n_connect w + S i)%nat by lia.
      apply Hfail. lia.
    + mrun.
      replace (S (n_connect w) + k)%nat with (n_connect w + S k)%nat by lia.
      exact Hok.
    + lia.
    + rewrite Hrun. mrun. exists w2. eexists. split; [reflexivity|].
      split; [exact Hc|]. split; [rewrite Hn; mrun; lia|].
      split; [rewrite Hfr; reflexivity|].
      cbn [sleeps repeat]. f_equal. exact Hsl.
Qed.

(** X5: [_get_connection] never raises, whatever the backend does.  With a
    connection at hand it returns it and does nothing else.  Without one,
    when connecting fails [k] times (with any exception) and then yields
    the connection [c], it returns [c] after [k + 1] attempts, has slept
    [reconnect_timeout] after each failure, and has stored [c] as the
    connection of the worker. *)
Theorem get_connection_backs_off (env : Env) (fuel : nat) (w : World) :
  (forall e, out (_get_connection env fuel w) <> Raised e) /\
  (forall c, _connection (self w) = Some c ->
     _get_connection env fuel w = mkRes (Done c) w []) /\
  (forall c k,
     _connection (self w) = None ->
     (forall i, (i < k)%nat ->
        exists e, env_connect env (n_connect w + i) = inr e) ->
     env_connect env (n_connect w + k) = inl c ->
     (k < fuel)%nat ->
     out (_get_connection env fuel w) = Done c /\
     _connection (self (final (_get_connection env fuel w))) = Some c /\
     n_connect (final (_get_connection env fuel w))
       = (n_connect w + k + 1)%nat /\
     sleeps (emitted (_get_connection env fuel w))
       = repeat (reconnect_timeout (settings (self w))) k).
Proof.
  split; [exact (proj2 (get_connection_lease env fuel w))|].
  split.
  - intros c Hc. unfold _get_connection. mrun. rewrite Hc. reflexivity.
  - intros c k Hnone Hfail Hok Hfuel.
    destruct (get_connection_loop_backs_off env c k fuel w Hfail Hok Hfuel)
      as (w1 & tr & Hrun & Hc & Hn & _ & Hsl).
    unfold _get_connection. mrun. rewrite Hnone, Hrun. mrun. auto.
Qed.

Lemma get_connection_backs_off_witness :
  _connection (self (fresh_world default_settings 0)) = None /\
  (forall i, (i < 2)%nat ->
     exists e, env_connect (stubborn_env 2)
                 (n_connect (fresh_world default_settings 0) + i) = inr e) /\
  env_connect (stubborn_env 2)
    (n_connect (fresh_world default_settings 0) + 2) = inl 2%nat /\
  (2 < 3)%nat /\
  out (_get_connection (stubborn_env 2) 3 (fresh_world default_settings 0))
    = Done 2%nat /\
  sleeps (emitted (_get_connection (stubborn_env 2) 3
                     (fresh_world default_settings 0))) = [1; 1].
Proof.
  assert (H1 : forall i, (i < 2)%nat ->
     exists e, env_connect (stubborn_env 2)
                 (n_connect (fresh_world default_settings 0) + i) = inr e).
  { intros i Hi. exists OtherException.
    destruct i as [|[|i]]; [reflexivity|reflexivity|lia]. }
  assert (H3 : (2 < 3)%nat) by lia.
  split; [reflexivity|]. split; [exact H1|]. split; [reflexivity|].
  split; [exact H3|].
  destruct (proj2 (proj2 (get_connection_backs_off (stubborn_env 2) 3
                            (fresh_world default_settings 0)))
              2%nat 2%nat eq_refl H1 eq_refl H3) as (Hout & _ & _ & Hsl).
  split; [exact Hout|exact Hsl].
Defined.

Lemma get_lock_manager_loop_backs_off (env : Env) (lm : lockmgr) (k : nat) :
  forall fuel w,
    (forall i, (i < k)%nat ->
       exists e, env_lock_manager env (n_lock_manager w + i) = inr e) ->
    env_lock_manager env (n_lock_manager w + k) = inl lm ->
    (k < fuel)%nat ->
    exists w1 tr,
      _get_lock_manager_loop env fuel w = mkRes (Done lm) w1 tr /\
      _lock_manager (self w1) = Some lm /\
      n_lock_manager w1 = (n_lock_manager w + k + 1)%nat /\
      forget_lock_manager w1 = forget_lock_manager w /\
      sleeps tr = repeat (reconnect_timeout (settings (self w))) k.
Proof.
  induction k as [|k IH]; intros fuel w Hfail Hok Hfuel;
    (destruct fuel as [|fuel]; [lia|]); cbn [_get_lock_manager_loop]; mrun.
  - rewrite Nat.add_0_r in Hok. rewrite Hok. mrun.
    eexists. eexists. split; [reflexivity|]. mrun.
    split; [reflexivity|]. split; [lia|]. split; reflexivity.
  - destruct (Hfail 0%nat ltac:(lia)) as [e He].
    rewrite Nat.add_0_r in He. rewrite He. mrun.
    match goal with
    | |- context [_get_lock_manager_loop env fuel ?w1] =>
        destruct (IH fuel w1) as (w2 & tr & Hrun & Hc & Hn & Hfr & Hsl)
    end.
    + intros i Hi. mrun.
      replace (S (n_lock_manager w) + i)%nat
        with (n_lock_manager w + S i)%nat by lia.
      apply Hfail. lia.
    + mrun.
      replace (S (n_lock_manager w) + k)%nat
        with (n_lock_manager w + S k)%nat by lia.
      exact Hok.
    + lia.
    + rewrite Hrun. mrun. exists w2. eexists. split; [reflexivity|].
      split; [exact Hc|]. split; [rewrite Hn; mrun; lia|].
      split; [rewrite Hfr; reflexivity|].
      cbn [sleeps repeat]. f_equal. exact Hsl.
Qed.

(** X6: [_get_lock_manager] never raises.  With a lock manager at hand it
    returns it and constructs no other.  Without one, when the
    construction fails [k] times (with any exception) and then yields the
    manager [lm], it returns [lm] after [k + 1] constructions, has slept
    [reconnect_timeout] after each failure, has stored [lm], and has left
    the lease of the worker alone. *)
Theorem get_lock_manager_backs_off (env : Env) (fuel : nat) (w : World) :
  (forall e, out (_get_lock_manager env fuel w) <> Raised e) /\
  (forall lm, _lock_manager (self w) = Some lm ->
     _get_lock_manager env fuel w = mkRes (Done lm) w []) /\
  (forall lm k,
     _lock_manager (self w) = None ->
     (forall i, (i < k)%nat ->
        exists e, env_lock_manager env (n_lock_manager w + i) = inr e) ->
     env_lock_manager env (n_lock_manager w + k) = inl lm ->
     (k < fuel)%nat ->
     out (_get_lock_manager env fuel w) = Done lm /\
     _lock_manager (self (final (_get_lock_manager env fuel w))) = Some lm /\
     _lock (self (final (_get_lock_manager env fuel w))) = _lock (self w) /\
     n_lock_manager (final (_get_lock_manager env fuel w))
       = (n_lock_manager w + k + 1)%nat /\
     sleeps (emitted (_get_lock_manager env fuel w))
       = repeat (reconnect_timeout (settings (self w))) k).
Proof.
  split; [exact (proj2 (proj2 (get_lock_manager_lease env fuel w)))|].
  split.
  - intros lm Hlm. unfold _get_lock_manager. mrun. rewrite Hlm. reflexivity.
  - intros lm k Hnone Hfail Hok Hfuel.
    destruct (get_lock_manager_loop_backs_off env lm k fuel w Hfail Hok Hfuel)
      as (w1 & tr & Hrun & Hc & Hn & Hfr & Hsl).
    unfold _get_lock_manager. mrun. rewrite Hnone, Hrun. mrun.
    split; [reflexivity|]. split; [exact Hc|].
    split; [exact (proj1 (proj2 (forget_lock_manager_fields _ _ Hfr)))|].
    auto.
Qed.

Lemma get_lock_manager_backs_off_witness :
  _lock_manager (self (fresh_world default_settings 0)) = None /\
  (forall i, (i < 2)%nat ->
     exists e, env_lock_manager (stubborn_env 2)
                 (n_lock_manager (fresh_world default_settings 0) + i)
               = inr e) /\
  env_lock_manager (stubborn_env 2)
    (n_lock_manager (fresh_world default_settings 0) + 2) = inl 2%nat /\
  (2 < 3)%nat /\
  out (_get_lock_manager (stubborn_env 2) 3 (fresh_world default_settings 0))
    = Done 2%nat /\
  sleeps (emitted (_get_lock_manager (stubborn_env 2) 3
                     (fresh_world default_settings 0))) = [1; 1].
Proof.
  assert (H1 : forall i, (i < 2)%nat ->
     exists e, env_lock_manager (stubborn_env 2)
                 (n_lock_manager (fresh_world default_settings 0) + i)
               = inr e).
  { intros i Hi. exists OtherException.
    destruct i as [|[|i]]; [reflexivity|reflexivity|lia]. }
  assert (H3 : (2 < 3)%nat) by lia.
  split; [reflexivity|]. split; [exact H1|]. split; [reflexivity|].
  split; [exact H3|].
  destruct (proj2 (proj2 (get_lock_manager_backs_off (stubborn_env 2) 3
                            (fresh_world default_settings 0)))
              2%nat 2%nat eq_refl H1 eq_refl H3)
    as (Hout & _ & _ & _ & Hsl).
  split; [exact Hout|exact Hsl].
Defined.

(** ** Exceptions the executor does not own *)

(** X7: an exception of a connection method that is no [RedisError] is
    not the business of the executor: it reaches the caller at once, and
    the connection is neither closed nor dropped, and no back-off is
    slept. *)
Theorem conn_execute_other_exception (env : Env) {R} (m : method R)
    (e : exn) (c : conn) (fuel : nat) (w : World) :
  _connection (self w) = Some c ->
  env_redis env R m (n_redis w) = inr e ->
  e <> RedisError ->
  let r := _conn_execute env (S fuel) m w in
  out r = Raised e /\
  emitted r = [EvCall c m (inr e)] /\
  _connection (self (final r)) = Some c /\
  n_close (final r) = n_close w.
Proof.
  intros Hc He Hne. cbv zeta. cbn [_conn_execute]. mrun.
  unfold _get_connection. mrun. rewrite Hc. mrun. rewrite He. mrun.
  destruct e; try contradiction; mrun; repeat split; assumption.
Qed.

Lemma conn_execute_other_exception_witness :
  _connection
    (self (with_self (set_connection (Some 7%nat))
             (fresh_world default_settings 0))) = Some 7%nat /\
  env_redis (stubborn_env 0) Z (rpush "msg" "a1")
    (n_redis (with_self (set_connection (Some 7%nat))
                (fresh_world default_settings 0))) = inr OtherException /\
  OtherException <> RedisError /\
  out (_conn_execute (stubborn_env 0) 1 (rpush "msg" "a1")
         (with_self (set_connection (Some 7%nat))
            (fresh_world default_settings 0))) = Raised OtherException.
Proof.
  assert (H : OtherException <> RedisError) by discriminate.
  split; [reflexivity|]. split; [reflexivity|]. split; [exact H|].
  exact (proj1 (conn_execute_other_exception (stubborn_env 0)
                  (rpush "msg" "a1") OtherException 7%nat 0
                  (with_self (set_connection (Some 7%nat))
                     (fresh_world default_settings 0))
                  eq_refl eq_refl H)).
Defined.

(** ** What the executor has done when it returns *)

Lemma collect_app {X} (f : event -> option X) (tr1 tr2 : list event) :
  collect f (tr1 ++ tr2) = collect f tr1 ++ collect f tr2.
Proof. unfold collect. apply flat_map_app. Qed.

Lemma collect_none {X} (f : event -> option X) (tr : list event) :
  Forall (fun e => f e = None) tr -> collect f tr = [].
Proof.
  induction 1 as [|e tr He _ IH]; [reflexivity|].
  unfold collect in *. cbn [flat_map]. rewrite He, IH. reflexivity.
Qed.

Lemma lease_quiet_no_call {X} (f : event -> option X) (tr : list event) :
  (forall e, is_redis_call e = false -> f e = None) ->
  Forall lease_quiet tr -> collect f tr = [].
Proof.
  intros Hf Hq. apply collect_none.
  eapply Forall_impl; [|exact Hq].
  intros e He. apply Hf. destruct e; cbn in *; auto; contradiction.
Qed.

(** The run of the executor holds one call that returned when the
    executor returns, none otherwise: the reading [f] of the effects,
    which sees only calls that returned and not the connection they went
    through, yields what it yields on the call that returned. *)
Lemma conn_execute_collect (env : Env) {R} (m : method R) {X}
    (f : event -> option X)
    (Hother : forall e, is_redis_call e = false -> f e = None)
    (Hfail : forall c e, f (EvCall c m (inr e)) = None)
    (Hconn : forall c c' v,
       f (EvCall c m (inl v)) = f (EvCall c' m (inl v)))
    (fuel : nat) :
  forall w,
    collect f (emitted (_conn_execute env fuel m w)) =
    match out (_conn_execute env fuel m w) with
    | Done v => match f (EvCall 0%nat m (inl v)) with
                | Some x => [x]
                | None => []
                end
    | _ => []
    end.
Proof.
  induction fuel as [|fuel IH]; intros w; [reflexivity|].
  cbn [_conn_execute]. mrun.
  destruct (get_connection_lease env fuel w) as (Hq & Hr).
  pose proof (lease_quiet_no_call f _ Hother Hq) as Hnone.
  unfold collect in *.
  destruct (_get_connection env fuel w) as [[c|e|] w1 tr];
    cbn [out final emitted] in *; try exact Hnone.
  destruct (env_redis env R m (n_redis w1)) as [v|e]; mrun.
  - rewrite flat_map_app, Hnone. cbn [flat_map app].
    rewrite (Hconn c 0%nat v). rewrite app_nil_r. reflexivity.
  - destruct e; mrun;
      try (rewrite flat_map_app, Hnone; cbn [flat_map app];
           rewrite Hfail; reflexivity).
    destruct (_connection (self w1)) as [c'|]; mrun;
      [destruct (env_close env (n_close w1)) as [e|]; mrun|];
      match goal with
      | |- context [_conn_execute env fuel m ?w3] =>
          specialize (IH w3);
          destruct (_conn_execute env fuel m w3) as [o w4 tr4]
      end; cbn [out final emitted] in *;
      repeat rewrite <- app_assoc; cbn [app];
      rewrite flat_map_app, Hnone; cbn [flat_map app];
      rewrite Hfail, !Hother by reflexivity; cbn [app]; exact IH.
Qed.

(** X8: a run of [_conn_execute] holds exactly one call that returned
    when the executor returns, and none when it raises or is cut: the
    executor never repeats a call that went through. *)
Theorem conn_execute_returns_once (env : Env) {R} (m : method R)
    (fuel : nat) (w : World) :
  List.length (filter call_returned (emitted (_conn_execute env fuel m w))) =
  match out (_conn_execute env fuel m w) with
  | Done _ => 1%nat
  | _ => 0%nat
  end.
Proof.
  pose proof (conn_execute_collect env m
                (fun e => if call_returned e then Some tt else None)) as H.
  assert (Hc : forall tr,
            List.length
              (collect (fun e => if call_returned e then Some tt else None) tr)
            = List.length (filter call_returned tr)).
  { induction tr as [|e tr IH]; [reflexivity|].
    unfold collect in *. cbn [flat_map filter].
    destruct (call_returned e); cbn [app List.length]; rewrite IH;
      reflexivity. }
  rewrite <- Hc, H.
  - destruct (out (_conn_execute env fuel m w)); reflexivity.
  - intros e He. destruct e; try reflexivity. discriminate He.
  - reflexivity.
  - reflexivity.
Qed.

(** ** Histories and queues *)

Lemma popped_of_other (e : event) :
  is_redis_call e = false -> popped_of e = None.
Proof. destruct e; try reflexivity. discriminate. Qed.

Lemma pushed_of_other (e : event) :
  is_redis_call e = false -> pushed_of e = None.
Proof. destruct e; try reflexivity. discriminate. Qed.

Lemma get_msg_popped (env : Env) (fuel : nat) (w : World) :
  collect popped_of (emitted (_get_msg env fuel w)) =
    match out (_get_msg env fuel w) with
    | Done (Some v) => [v]
    | _ => []
    end /\
  archive (final (_get_msg env fuel w)) = archive w.
Proof.
  rewrite (get_msg_blpop env fuel w). cbn [out final emitted].
  split.
  - rewrite (conn_execute_collect env
               (blpop (message_collection (settings (self w)))
                      (get_timeout (settings (self w))))
               popped_of popped_of_other); try reflexivity.
    destruct (out (_conn_execute env fuel _ w)) as [[[q v]|]|e|];
      reflexivity.
  - apply conn_execute_archive.
Qed.

Lemma keep_going_self (env : Env) (w : World) :
  self (final (_keep_going env w)) = self w.
Proof.
  unfold _keep_going. mrun.
  destruct (_stop (self w)); [reflexivity|].
  destruct (Qeq_bool (lifetime (settings (self w))) 0); [reflexivity|].
  destruct (_start_time (self w)); reflexivity.
Qed.

Lemma handle_msg_records (env : Env) (msg : string) (rate : Q) (w : World) :
  save_history (settings (self w)) = true ->
  let r := _handle_msg env msg rate w in
  out r = Done tt /\
  settings (self (final r)) = settings (self w) /\
  received_messages (self (final r)) = received_messages (self w) ++ [msg] /\
  other_than_received (final r) = other_than_received w /\
  collect popped_of (emitted r) = [].
Proof.
  intros Hon. cbv zeta. unfold _handle_msg. mrun. rewrite Hon. mrun.
  destruct (Qlt_bool (env_random env (n_random w)) rate); mrun;
    repeat split.
Qed.

Lemma histories_fields (w w' : World) :
  histories w' = histories w ->
  sent_messages (self w') = sent_messages (self w) /\
  sent_errors (self w') = sent_errors (self w) /\
  received_messages (self w') = received_messages (self w) /\
  received_errors (self w') = received_errors (self w).
Proof.
  unfold histories. intros H. injection H as H1 H2 H3 H4. auto.
Qed.

Lemma receiver_loop_records (env : Env) (fuel : nat) :
  forall w,
    save_history (settings (self w)) = true ->
    let r := async_run_receiver_loop env fuel w in
    received_messages (self (final r)) =
      received_messages (self w) ++
      filter nonempty (collect popped_of (emitted r)) /\
    other_than_received (final r) = other_than_received w /\
    exists dropped,
      collect popped_of (emitted r) =
        filter nonempty (collect popped_of (emitted r)) ++ dropped /\
      (dropped = [] \/ dropped = [EmptyString]).
Proof.
  induction fuel as [|fuel IH]; intros w Hon; cbv zeta.
  - cbn. rewrite app_nil_r. repeat split. exists []. auto.
  - cbn [async_run_receiver_loop]. mrun.
    destruct (keep_going_silent env w) as (He1 & _).
    pose proof (keep_going_self env w) as Hs1.
    destruct (_keep_going env w) as [[go|e|] w1 tr1];
      cbn [out final emitted] in *; subst tr1; mrun;
      unfold other_than_received;
      try (rewrite Hs1, app_nil_r; repeat split; exists []; auto).
    destruct go; mrun;
      [|rewrite Hs1, app_nil_r; repeat split; exists []; auto].
    destruct (get_msg_popped env fuel w1) as (Hpop & Harch).
    assert (Hset : settings (self (final (_get_msg env fuel w1)))
                   = settings (self w)).
    { rewrite <- Hs1. exact (f_equal fst Harch). }
    assert (Hh : histories (final (_get_msg env fuel w1)) = histories w).
    { unfold histories at 2. rewrite <- Hs1. exact (f_equal snd Harch). }
    clear Harch.
    destruct (histories_fields _ _ Hh) as (H1 & H2 & H3 & H4). clear Hh.
    destruct (_get_msg env fuel w1) as [[msg|e|] w2 tr2];
      cbn [out final emitted] in *; mrun;
      try (rewrite Hpop, H1, H2, H3, H4, app_nil_r; repeat split;
           exists []; auto).
    destruct msg as [v|]; cbn [truthy_bytes bytes_of].
    + destruct (String.eqb v EmptyString) eqn:Hv; cbn [negb]; mrun.
      * rewrite collect_app, Hpop.
        cbn [collect flat_map popped_of app filter].
        unfold nonempty. rewrite Hv. cbn [negb].
        rewrite H1, H2, H3, H4, app_nil_r. repeat split.
        exists [v]. split; [reflexivity|]. right.
        apply String.eqb_eq in Hv. rewrite Hv. reflexivity.
      * assert (Hon2 : save_history (settings (self w2)) = true)
          by (rewrite Hset; exact Hon).
        destruct (handle_msg_records env v default_err_rate w2 Hon2)
          as (Ho & Hs3 & Hr3 & Hot3 & Hp3).
        destruct (_handle_msg env v default_err_rate w2) as [o3 w3 tr3].
        cbn [out final emitted] in *. subst o3. mrun.
        assert (Hon3 : save_history (settings (self w3)) = true)
          by (rewrite Hs3; exact Hon2).
        destruct (IH w3 Hon3) as (Hr4 & Hot4 & dropped & Hd & Hcase).
        destruct (async_run_receiver_loop env fuel w3) as [o4 w4 tr4].
        cbn [out final emitted] in *.
        rewrite !collect_app, Hpop, Hp3. cbn [app].
        assert (Hf : forall l,
                  filter nonempty (v :: l) = v :: filter nonempty l).
        { intros l. cbn [filter]. unfold nonempty at 1. rewrite Hv.
          reflexivity. }
        rewrite !Hf.
        unfold other_than_received in *.
        split; [|split].
        -- rewrite Hr4, Hr3, H3, <- app_assoc. reflexivity.
        -- rewrite Hot4, Hot3, H1, H2, H4. reflexivity.
        -- exists dropped. split; [|exact Hcase].
           cbn [app]. f_equal. exact Hd.
    + mrun. rewrite collect_app, Hpop.
      cbn [collect flat_map popped_of app filter].
      rewrite H1, H2, H3, H4, app_nil_r. repeat split. exists []. auto.
Qed.


(** Steps through a program whose library calls leave the view alone. *)
Ltac view_step :=
  first [ frame_step | (intros ?; reflexivity) ].

Ltac no_call_step :=
  first [ confined_step
        | solve [ apply confined_atomic;
                  [ intros ?; reflexivity
                  | intros ?; cbn; repeat constructor ] ] ].

Lemma get_lock_manager_loop_archive (env : Env) (fuel : nat) :
  preserves archive (_get_lock_manager_loop env fuel).
Proof.
  induction fuel as [|fuel IH]; cbn [_get_lock_manager_loop];
    repeat first [exact IH | view_step].
Qed.

Lemma get_lock_manager_archive (env : Env) (fuel : nat) :
  preserves archive (_get_lock_manager env fuel).
Proof.
  unfold _get_lock_manager.
  repeat first [apply get_lock_manager_loop_archive | view_step].
Qed.

Lemma become_a_gen_archive (env : Env) (fuel : nat) :
  preserves archive (_become_a_gen env fuel).
Proof.
  unfold _become_a_gen.
  repeat first [apply get_lock_manager_archive | view_step].
Qed.

Lemma extend_gen_lock_archive (env : Env) (fuel : nat) :
  preserves archive (_extend_gen_lock env fuel).
Proof.
  unfold _extend_gen_lock.
  repeat first [apply get_lock_manager_archive | apply become_a_gen_archive
               | view_step].
Qed.

Lemma get_lock_manager_loop_no_call (env : Env) (s : Settings) (fuel : nat) :
  confined s no_call (_get_lock_manager_loop env fuel).
Proof.
  induction fuel as [|fuel IH]; cbn [_get_lock_manager_loop];
    repeat first [exact IH | no_call_step].
Qed.

Lemma get_lock_manager_no_call (env : Env) (s : Settings) (fuel : nat) :
  confined s no_call (_get_lock_manager env fuel).
Proof.
  unfold _get_lock_manager.
  repeat first [apply get_lock_manager_loop_no_call | no_call_step].
Qed.

Lemma become_a_gen_no_call (env : Env) (s : Settings) (fuel : nat) :
  confined s no_call (_become_a_gen env fuel).
Proof.
  unfold _become_a_gen.
  repeat first [apply get_lock_manager_no_call | no_call_step].
Qed.

Lemma extend_gen_lock_no_call (env : Env) (s : Settings) (fuel : nat) :
  confined s no_call (_extend_gen_lock env fuel).
Proof.
  unfold _extend_gen_lock.
  repeat first [apply get_lock_manager_no_call | apply become_a_gen_no_call
               | no_call_step].
Qed.

Lemma random_choices_world (env : Env) (population : list ascii) (k : nat) :
  forall w, self (final (random_choices env population k w)) = self w.
Proof.
  induction k as [|k IH]; intros w; [reflexivity|].
  cbn [random_choices]. mrun.
  match goal with
  | |- context [random_choices env population k ?w1] =>
      specialize (IH w1);
      destruct (random_choices env population k w1) as [[cs|e|] w2 tr]
  end; cbn [final] in *; mrun; exact IH.
Qed.

Lemma gen_msg_self (env : Env) (w : World) :
  self (final (_gen_msg env w)) = self w.
Proof.
  unfold _gen_msg. mrun.
  pose proof (random_choices_world env hexdigits 32 w) as H.
  destruct (random_choices env hexdigits 32 w) as [[cs|e|] w2 tr];
    cbn [final] in *; mrun; exact H.
Qed.

Lemma Ticker_anext_self (env : Env) (tk : Ticker) (w : World) :
  self (final (Ticker_anext env tk w)) = self w.
Proof.
  unfold Ticker_anext. mrun. destruct (Qlt_bool _ _); reflexivity.
Qed.

Lemma collect_cons_none {X} (f : event -> option X) (e : event)
    (tr : list event) :
  f e = None -> collect f (e :: tr) = collect f tr.
Proof. intros H. unfold collect. cbn [flat_map]. rewrite H. reflexivity. Qed.

Lemma post_msg_records (env : Env) (fuel : nat) (msg : string) (w : World) :
  save_history (settings (self w)) = true ->
  let r := _post_msg env fuel msg w in
  settings (self (final r)) = settings (self w) /\
  collect pushed_of (emitted r) =
    match out r with
    | Done _ => [(message_collection (settings (self w)), msg)]
    | _ => []
    end /\
  sent_messages (self (final r)) =
    sent_messages (self w) ++ map snd (collect pushed_of (emitted r)) /\
  other_than_sent (final r) = other_than_sent w.
Proof.
  intros Hon. cbv zeta. unfold _post_msg, _rpush. mrun.
  pose proof (conn_execute_collect env
                (rpush (message_collection (settings (self w))) msg)
                pushed_of pushed_of_other
                ltac:(reflexivity) ltac:(reflexivity) fuel w) as Hcol.
  pose proof (conn_execute_archive env
                (rpush (message_collection (settings (self w))) msg) fuel w)
    as Harch.
  destruct (_conn_execute env fuel
              (rpush (message_collection (settings (self w))) msg) w)
    as [[n|e|] w1 tr]; cbn [out final emitted] in *; mrun.
  - rewrite Hon. mrun.
    destruct (histories_fields _ _ (f_equal snd Harch))
      as (H1 & H2 & H3 & H4).
    rewrite collect_cons_none by reflexivity.
    rewrite !collect_app, Hcol.
    cbn [collect flat_map pushed_of app map snd].
    unfold other_than_sent. mrun. rewrite H1, H2, H3, H4.
    split; [exact (f_equal fst Harch)|]. repeat split.
  - destruct (histories_fields _ _ (f_equal snd Harch))
      as (H1 & H2 & H3 & H4).
    unfold other_than_sent.
    rewrite collect_cons_none by reflexivity.
    rewrite Hcol. cbn [map]. rewrite H1, H2, H3, H4, app_nil_r.
    split; [exact (f_equal fst Harch)|]. repeat split.
  - destruct (histories_fields _ _ (f_equal snd Harch))
      as (H1 & H2 & H3 & H4).
    unfold other_than_sent.
    rewrite collect_cons_none by reflexivity.
    rewrite Hcol. cbn [map]. rewrite H1, H2, H3, H4, app_nil_r.
    split; [exact (f_equal fst Harch)|]. repeat split.
Qed.

Lemma no_call_collect {X} (f : event -> option X) (tr : list event) :
  (forall e, is_redis_call e = false -> f e = None) ->
  Forall no_call tr -> collect f tr = [].
Proof.
  intros Hf Hq. apply collect_none.
  eapply Forall_impl; [|exact Hq]. intros e He. apply Hf. exact He.
Qed.

Lemma gen_loop_records (env : Env) (fuel : nat) :
  forall tk w,
    save_history (settings (self w)) = true ->
    let r := async_run_gen_loop env fuel tk w in
    sent_messages (self (final r)) =
      sent_messages (self w) ++ map snd (collect pushed_of (emitted r)) /\
    other_than_sent (final r) = other_than_sent w /\
    Forall (fun p => fst p = message_collection (settings (self w)))
      (collect pushed_of (emitted r)).
Proof.
  induction fuel as [|fuel IH]; intros tk w Hon; cbv zeta.
  - cbn. rewrite app_nil_r. repeat split. constructor.
  - cbn [async_run_gen_loop]. mrun.
    (* the tick *)
    destruct (Ticker_anext_quiet env tk w) as (Hq1 & tk' & Ho1).
    pose proof (Ticker_anext_self env tk w) as Hs1.
    pose proof (lease_quiet_no_call pushed_of _ pushed_of_other Hq1) as Hc1.
    destruct (Ticker_anext env tk w) as [o1 w1 tr1].
    cbn [out final emitted] in *. subst o1. mrun.
    (* the budget *)
    destruct (keep_going_silent env w1) as (He2 & _).
    pose proof (keep_going_self env w1) as Hs2.
    destruct (_keep_going env w1) as [[go|e|] w2 tr2];
      cbn [out final emitted] in *; subst tr2; mrun;
      unfold other_than_sent;
      try (rewrite ?app_nil_r, Hc1, ?Hs2, Hs1, app_nil_r; repeat split;
           constructor).
    destruct go; mrun;
      [|rewrite ?app_nil_r, Hc1, ?Hs2, Hs1, app_nil_r; repeat split;
        constructor].
    (* the extension *)
    pose proof (extend_gen_lock_archive env fuel w2) as Ha3.
    pose proof (proj2 (extend_gen_lock_no_call env (settings (self w2)) fuel
                         w2 eq_refl)) as Hq3.
    pose proof (no_call_collect pushed_of _ pushed_of_other Hq3) as Hc3.
    destruct (_extend_gen_lock env fuel w2) as [[ext|e|] w3 tr3];
      cbn [out final emitted] in *;
      destruct (histories_fields _ _ (f_equal snd Ha3))
        as (H1 & H2 & H3 & H4);
      pose proof (f_equal fst Ha3) as Hset3; cbn [fst archive] in Hset3;
      rewrite Hs2, Hs1 in H1, H2, H3, H4, Hset3;
      mrun;
      try (rewrite !collect_app, Hc1, Hc3; cbn [app map];
           rewrite H1, H2, H3, H4, app_nil_r; repeat split; constructor).
    destruct ext; mrun;
      [|rewrite !collect_app, Hc1, Hc3;
        cbn [collect flat_map pushed_of app map];
        rewrite H1, H2, H3, H4, app_nil_r; repeat split; constructor].
    (* the message *)
    destruct (gen_msg_silent env w3) as (He4 & msg & Ho4).
    pose proof (gen_msg_self env w3) as Hs4.
    destruct (_gen_msg env w3) as [o4 w4 tr4].
    cbn [out final emitted] in *. subst o4 tr4. mrun.
    assert (Hon4 : save_history (settings (self w4)) = true)
      by (rewrite Hs4, Hset3; exact Hon).
    destruct (post_msg_records env fuel msg w4 Hon4)
      as (Hset5 & Hc5 & Hsent5 & Hoth5).
    rewrite Hs4 in Hset5, Hc5, Hsent5. unfold other_than_sent in Hoth5.
    rewrite Hs4 in Hoth5. rewrite Hset3 in Hset5, Hc5.
    rewrite H1 in Hsent5. rewrite H2, H3, H4 in Hoth5.
    destruct (_post_msg env fuel msg w4) as [[u|e|] w5 tr5];
      cbn [out final emitted] in *; mrun;
      try (rewrite !collect_app, Hc1, Hc3, Hc5; cbn [app map];
           rewrite Hsent5, Hc5; cbn [map];
           split; [reflexivity|]; split; [exact Hoth5|constructor]).
    assert (Hon5 : save_history (settings (self w5)) = true)
      by (rewrite Hset5; exact Hon).
    destruct (IH tk' w5 Hon5) as (Hsent6 & Hoth6 & Hall6).
    destruct (async_run_gen_loop env fuel tk' w5) as [o6 w6 tr6].
    cbn [out final emitted] in *.
    rewrite !collect_app, Hc1, Hc3, Hc5. cbn [app map snd].
    split; [|split].
    + rewrite Hsent6, Hsent5, Hc5. cbn [map snd].
      rewrite <- app_assoc. reflexivity.
    + unfold other_than_sent in *. rewrite Hoth6. exact Hoth5.
    + constructor; [reflexivity|]. rewrite <- Hset5. exact Hall6.
Qed.

(** X10: with [save_history] on, after any run of the producer, complete
    or cut, the history of sent messages is what it was followed by the
    messages whose RPUSH returned, in the order they were pushed, each
    once; all of them were pushed on the message queue, and the other
    three histories are as they were. *)
Theorem producer_history_matches_pushes (env : Env) (fuel : nat) (w : World) :
  save_history (settings (self w)) = true ->
  sent_messages (self (final (async_run_gen env fuel w))) =
    sent_messages (self w) ++
    map snd (collect pushed_of (emitted (async_run_gen env fuel w))) /\
  other_than_sent (final (async_run_gen env fuel w)) = other_than_sent w /\
  Forall (fun p => fst p = message_collection (settings (self w)))
    (collect pushed_of (emitted (async_run_gen env fuel w))).
Proof.
  intros Hon. unfold async_run_gen, Ticker_init. mrun.
  match goal with
  | |- context [async_run_gen_loop env fuel ?tk ?w1] =>
      destruct (gen_loop_records env fuel tk w1 Hon) as (H1 & H2 & H3);
      destruct (async_run_gen_loop env fuel tk w1) as [o w2 tr]
  end.
  cbn [out final emitted] in *.
  rewrite collect_cons_none by reflexivity.
  auto.
Qed.

Lemma producer_history_matches_pushes_witness :
  save_history
    (settings (self (fresh_world (set_save_history true default_settings) 0)))
    = true /\
  sent_messages
    (self (final (async_run_gen (calm_env (1 # 2) 0) 3
                    (fresh_world (set_save_history true default_settings) 0))))
    = [] ++
      map snd
        (collect pushed_of
           (emitted (async_run_gen (calm_env (1 # 2) 0) 3
                       (fresh_world (set_save_history true default_settings)
                          0)))).
Proof.
  split; [reflexivity|].
  exact (proj1 (producer_history_matches_pushes (calm_env (1 # 2) 0) 3
                  (fresh_world (set_save_history true default_settings) 0)
                  eq_refl)).
Defined.

Example producer_history_two_messages :
  sent_messages
    (self (final (async_run_gen (calm_env (1 # 2) 0) 3
                    (fresh_world (set_save_history true default_settings) 0))))
    = ["00000000000000000000000000000000";
       "00000000000000000000000000000000"].
Proof. vm_compute. reflexivity. Qed.

(** ** Stopping and the start time *)

(** X11: a stop request is honoured at the next check of the run budget,
    before any call of the backend.  After [stop], [_keep_going] returns
    false without reading the clock; the consumer loop and the top-level
    loop return at once; the producer loop waits for its next tick and
    then returns, without calling the lock service or redis. *)
Theorem stop_halts_the_loops (env : Env) (fuel : nat) (w : World) :
  _stop (self (final (stop w))) = true /\
  _keep_going env (final (stop w)) = mkRes (Done false) (final (stop w)) [] /\
  async_run_receiver env (S fuel) (final (stop w)) =
    mkRes (Done tt) (final (stop w)) [EvLog Log_running_receiver] /\
  async_run_loop env (S fuel) (final (stop w)) =
    mkRes (Done tt) (final (stop w)) [EvLog Log_app_stopped] /\
  out (async_run_gen env (S fuel) (final (stop w))) = Done tt /\
  Forall lease_quiet (emitted (async_run_gen env (S fuel) (final (stop w)))) /\
  self (final (async_run_gen env (S fuel) (final (stop w))))
    = self (final (stop w)).
Proof.
  assert (Hstop : _stop (self (final (stop w))) = true) by reflexivity.
  assert (Hkg : forall w', _stop (self w') = true ->
            _keep_going env w' = mkRes (Done false) w' []).
  { intros w' H. unfold _keep_going. mrun. rewrite H. reflexivity. }
  split; [exact Hstop|]. split; [apply Hkg; exact Hstop|].
  split.
  { unfold async_run_receiver. cbn [async_run_receiver_loop]. mrun.
    rewrite (Hkg _ Hstop). reflexivity. }
  split.
  { cbn [async_run_loop]. mrun. rewrite (Hkg _ Hstop). reflexivity. }
  unfold async_run_gen, Ticker_init. cbn [async_run_gen_loop]. mrun.
  match goal with
  | |- context [Ticker_anext env ?tk ?w1] =>
      destruct (Ticker_anext_quiet env tk w1) as (Hq & tk' & Ho);
      pose proof (Ticker_anext_self env tk w1) as Hs;
      destruct (Ticker_anext env tk w1) as [o1 w2 tr1]
  end.
  cbn [out final emitted] in *. subst o1. mrun.
  assert (Hstop2 : _stop (self w2) = true) by (rewrite Hs; reflexivity).
  rewrite (Hkg _ Hstop2). mrun.
  split; [reflexivity|]. split; [|exact Hs].
  constructor; [exact I|]. rewrite app_nil_r. exact Hq.
Qed.


(** ** The wait of the ticker *)


(** ** The messages of the producer *)

Lemma hexdigit_index (r : Q) :
  0 <= r -> r < 1 ->
  (Z.to_nat (Qfloor (r * inject_Z (Z.of_nat (List.length hexdigits))))
   < List.length hexdigits)%nat.
Proof.
  intros H0 H1. change (List.length hexdigits) with 22%nat.
  change (inject_Z (Z.of_nat 22)) with (inject_Z 22).
  assert (Hlo : (0 <= Qfloor (r * inject_Z 22))%Z).
  { change 0%Z with (Qfloor 0). apply Qfloor_resp_le.
    apply Qmult_le_0_compat; [exact H0|]. discriminate. }
  assert (Hhi : (Qfloor (r * inject_Z 22) < 22)%Z).
  { rewrite Zlt_Qlt.
    apply Qle_lt_trans with (y := r * inject_Z 22); [apply Qfloor_le|].
    change (inject_Z 22) with 22. lra. }
  lia.
Qed.

Lemma string_of_list_ascii_length (cs : list ascii) :
  String.length (string_of_list_ascii cs) = List.length cs.
Proof.
  induction cs as [|c cs IH]; [reflexivity|]. cbn. rewrite IH. reflexivity.
Qed.

Lemma random_choices_hex (env : Env) (k : nat) :
  (forall n, 0 <= env_random env n /\ env_random env n < 1) ->
  forall w,
    exists cs w1,
      random_choices env hexdigits k w = mkRes (Done cs) w1 [] /\
      List.length cs = k /\
      Forall (fun c => In c hexdigits) cs /\
      n_random w1 = (n_random w + k)%nat /\
      self w1 = self w.
Proof.
  intros Hdraw. induction k as [|k IH]; intros w.
  - exists [], w. cbn. repeat split; [constructor|lia].
  - cbn [random_choices]. mrun.
    match goal with
    | |- context [random_choices env hexdigits k ?w1] =>
        destruct (IH w1) as (cs & w2 & Hrun & Hlen & Hall & Hn & Hs)
    end.
    rewrite Hrun. mrun. eexists. exists w2. split; [reflexivity|].
    split; [cbn [List.length]; rewrite Hlen; reflexivity|].
    split.
    + constructor; [|exact Hall]. apply nth_In.
      destruct (Hdraw (n_random w)) as [H0 H1].
      apply hexdigit_index; assumption.
    + split; [rewrite Hn; mrun; lia|exact Hs].
Qed.

(** X14: with draws in the interval from 0 to 1, 1 excluded, [_gen_msg]
    returns a message of exactly 32 characters, each a hexadecimal digit
    of [string.hexdigits] picked at an index inside the string; it uses 32
    draws and has no other effect.  So a message made by the producer is
    never empty. *)
Theorem gen_msg_is_32_hex_digits (env : Env) (w : World) :
  (forall n, 0 <= env_random env n /\ env_random env n < 1) ->
  exists msg,
    out (_gen_msg env w) = Done msg /\
    String.length msg = 32%nat /\
    Forall (fun c => In c hexdigits) (list_ascii_of_string msg) /\
    msg <> EmptyString /\
    emitted (_gen_msg env w) = [] /\
    n_random (final (_gen_msg env w)) = (n_random w + 32)%nat /\
    self (final (_gen_msg env w)) = self w.
Proof.
  intros Hdraw.
  destruct (random_choices_hex env 32 Hdraw w)
    as (cs & w1 & Hrun & Hlen & Hall & Hn & Hs).
  unfold _gen_msg. mrun. rewrite Hrun. mrun.
  exists (string_of_list_ascii cs). split; [reflexivity|].
  assert (Hl : String.length (string_of_list_ascii cs) = 32%nat)
    by (rewrite string_of_list_ascii_length; exact Hlen).
  split; [exact Hl|].
  split; [rewrite list_ascii_of_string_of_list_ascii; exact Hall|].
  split; [intros H; rewrite H in Hl; discriminate Hl|].
  auto.
Qed.

Lemma gen_msg_is_32_hex_digits_witness :
  (forall n, 0 <= env_random (drawing_env [1 # 2; 21 # 22; 1 # 22]) n /\
             env_random (drawing_env [1 # 2; 21 # 22; 1 # 22]) n < 1) /\
  exists msg,
    out (_gen_msg (drawing_env [1 # 2; 21 # 22; 1 # 22])
           (fresh_world default_settings 0)) = Done msg /\
    String.length msg = 32%nat.
Proof.
  assert (H : forall n,
            0 <= env_random (drawing_env [1 # 2; 21 # 22; 1 # 22]) n /\
            env_random (drawing_env [1 # 2; 21 # 22; 1 # 22]) n < 1).
  { intros n. cbn [env_random drawing_env].
    destruct n as [|[|[|n]]]; cbn [nth];
      try (destruct n; cbn [nth]); split;
      unfold Qle, Qlt; simpl; lia. }
  split; [exact H|].
  destruct (gen_msg_is_32_hex_digits (drawing_env [1 # 2; 21 # 22; 1 # 22])
              (fresh_world default_settings 0) H)
    as (msg & Hout & Hlen & _).
  exists msg. split; [exact Hout|exact Hlen].
Defined.

Example gen_msg_draws :
  out (_gen_msg (drawing_env [1 # 2; 21 # 22; 1 # 22])
         (fresh_world default_settings 0))
    = Done "bF100000000000000000000000000000".
Proof. vm_compute. reflexivity. Qed.

(** ** The prefix test of the test suite *)

(** X15: [list_starts_with xs ys] holds exactly when one of the two lists
    is a prefix of the other, whichever it is.  So the test is symmetric,
    and it holds whenever one of the lists is empty. *)
Theorem list_starts_with_either_prefix (xs ys : list string) :
  (list_starts_with xs ys = true <->
   (exists t, xs = ys ++ t) \/ (exists t, ys = xs ++ t)) /\
  list_starts_with xs ys = list_starts_with ys xs /\
  list_starts_with xs [] = true /\
  list_starts_with [] ys = true.
Proof.
  assert (Hiff : forall xs ys,
            list_starts_with xs ys = true <->
            (exists t, xs = ys ++ t) \/ (exists t, ys = xs ++ t)).
  { clear. induction xs as [|x xs IH]; intros ys.
    - cbn. split; [intros _; right; exists ys; reflexivity|reflexivity].
    - destruct ys as [|y ys]; cbn [list_starts_with].
      + split; [intros _; left; exists (x :: xs); reflexivity|reflexivity].
      + destruct (String.eqb x y) eqn:Hxy; cbn [negb].
        * apply String.eqb_eq in Hxy. subst y. rewrite IH.
          split; intros [[t Ht]|[t Ht]].
          -- left. exists t. cbn. rewrite Ht. reflexivity.
          -- right. exists t. cbn. rewrite Ht. reflexivity.
          -- left. exists t. cbn in Ht. injection Ht as Ht. exact Ht.
          -- right. exists t. cbn in Ht. injection Ht as Ht. exact Ht.
        * apply String.eqb_neq in Hxy.
          split; [discriminate|].
          intros [[t Ht]|[t Ht]]; cbn in Ht; injection Ht as H1 _;
            congruence. }
  split; [apply Hiff|]. split; [|split].
  - destruct (list_starts_with xs ys) eqn:H1;
      destruct (list_starts_with ys xs) eqn:H2; try reflexivity.
    + apply Hiff in H1. assert (H : list_starts_with ys xs = true)
        by (apply Hiff; tauto). congruence.
    + apply Hiff in H2. assert (H : list_starts_with xs ys = true)
        by (apply Hiff; tauto). congruence.
  - destruct xs; reflexivity.
  - reflexivity.
Qed.

(** ** From arbitration to the first extension *)

(** X16: the lease won in arbitration is the lease the producer extends.
    When [_become_a_gen] is granted the valid lease [l], the call of
    [_extend_gen_lock] that follows asks for no lock again and asks the
    lock service once to extend [l]. *)
Theorem acquired_lease_is_extended (env : Env) (fuel : nat) (w : World)
    (l : Lock) :
  lock_manager_ready env fuel w = true ->
  env_lock env (n_lock w) = inl l ->
  valid l = true ->
  out (_become_a_gen env fuel w) = Done true /\
  lock_calls
    (emitted (_extend_gen_lock env fuel (final (_become_a_gen env fuel w))))
    = [] /\
  extend_calls
    (emitted (_extend_gen_lock env fuel (final (_become_a_gen env fuel w))))
    = [(l, env_extend env (n_extend w))] /\
  out (_extend_gen_lock env fuel (final (_become_a_gen env fuel w)))
    = extension_result (env_extend env (n_extend w)).
Proof.
  intros Hready Hl Hvalid.
  destruct (become_a_gen_run env fuel w Hready)
    as (w2 & tr & Hq & Hrun & _ & Hne & _ & Hready2 & Hlock).
  rewrite Hl in Hrun, Hlock. rewrite Hrun. cbn [out final].
  destruct (extend_gen_lock_held env fuel w2 l Hready2 Hlock Hvalid)
    as (w3 & tr3 & Hrun3 & Hlc & Hec).
  rewrite Hrun3, Hne in *. cbn [out emitted]. auto.
Qed.

Lemma acquired_lease_is_extended_witness :
  lock_manager_ready (calm_env 0 0) 1 (fresh_world default_settings 0)
    = true /\
  env_lock (calm_env 0 0) (n_lock (fresh_world default_settings 0))
    = inl (mkLock "gen" 0 true) /\
  valid (mkLock "gen" 0 true) = true /\
  extend_calls
    (emitted (_extend_gen_lock (calm_env 0 0) 1
                (final (_become_a_gen (calm_env 0 0) 1
                          (fresh_world default_settings 0)))))
    = [(mkLock "gen" 0 true, None)].
Proof.
  split; [reflexivity|]. split; [reflexivity|]. split; [reflexivity|].
  exact (proj1 (proj2 (proj2
    (acquired_lease_is_extended (calm_env 0 0) 1
       (fresh_world default_settings 0) (mkLock "gen" 0 true)
       eq_refl eq_refl eq_refl)))).
Defined.

(** ** The error queue *)


(** X18: the task that reroutes a message pushes it once, on the error
    queue, and records it only then.  With [save_history] on, whatever the
    backend answers, the run of the task holds the returned RPUSH of the
    message on the error queue exactly when the task completes, and none
    otherwise; the history of sent errors is what it was followed by the
    message in the first case and unchanged in the second. *)
Theorem reroute_records_what_it_pushed (env : Env) (fuel : nat)
    (msg : string) (w : World) :
  save_history (settings (self w)) = true ->
  collect pushed_of
    (emitted (run_task env fuel (Task_handle_msg_err msg) w)) =
    match out (run_task env fuel (Task_handle_msg_err msg) w) with
    | Done _ => [(error_collection (settings (self w)), msg)]
    | _ => []
    end /\
  sent_errors (self (final (run_task env fuel (Task_handle_msg_err msg) w))) =
    sent_errors (self w) ++
    map snd (collect pushed_of
               (emitted (run_task env fuel (Task_handle_msg_err msg) w))) /\
  sent_messages (self (final (run_task env fuel (Task_handle_msg_err msg) w)))
    = sent_messages (self w).
Proof.
  intros Hon. cbn [run_task]. unfold _handle_msg_err, _rpush. mrun.
  pose proof (conn_execute_collect env
                (rpush (error_collection (settings (self w))) msg)
                pushed_of pushed_of_other
                ltac:(reflexivity) ltac:(reflexivity) fuel w) as Hcol.
  pose proof (conn_execute_archive env
                (rpush (error_collection (settings (self w))) msg) fuel w)
    as Harch.
  destruct (histories_fields _ _ (f_equal snd Harch)) as (H1 & H2 & H3 & H4).
  destruct (_conn_execute env fuel
              (rpush (error_collection (settings (self w))) msg) w)
    as [[n|e|] w1 tr]; cbn [out final emitted] in *; mrun.
  - rewrite Hon. mrun. rewrite collect_cons_none by reflexivity.
    rewrite !collect_app, Hcol.
    cbn [collect flat_map pushed_of app map snd].
    rewrite H1, H2. repeat split.
  - rewrite collect_cons_none by reflexivity.
    rewrite Hcol. cbn [map]. rewrite H1, H2, app_nil_r. repeat split.
  - rewrite collect_cons_none by reflexivity.
    rewrite Hcol. cbn [map]. rewrite H1, H2, app_nil_r. repeat split.
Qed.

Lemma reroute_records_what_it_pushed_witness :
  save_history
    (settings (self (fresh_world (set_save_history true default_settings) 0)))
    = true /\
  sent_errors
    (self (final (run_task (calm_env 0 0) 3 (Task_handle_msg_err "a1")
                    (fresh_world (set_save_history true default_settings) 0))))
    = [] ++
      map snd
        (collect pushed_of
           (emitted (run_task (calm_env 0 0) 3 (Task_handle_msg_err "a1")
                       (fresh_world (set_save_history true default_settings)
                          0)))).
Proof.
  split; [reflexivity|].
  exact (proj1 (proj2
    (reroute_records_what_it_pushed (calm_env 0 0) 3 "a1"
       (fresh_world (set_save_history true default_settings) 0) eq_refl))).
Defined.

(** ** The worker over its whole run *)











Example worker_alternates_roles :
  role_run Idle
    (emitted (async_run (queue_env 1 ["a1"; "a2"]) 6
                (fresh_world default_settings 0))) = Some Idle /\
  List.length
    (filter is_redis_call
       (emitted (async_run (queue_env 1 ["a1"; "a2"]) 6
                   (fresh_world default_settings 0)))) = 6%nat.
Proof. split; vm_compute; reflexivity. Qed.

(** ** The pace of the producer *)

Section ClockKeeps.

Variable env : Env.
Hypothesis clock_forward : forall n, 0 <= env_delay env n.






End ClockKeeps.


Section ProducerPace.

Variable env : Env.
Hypothesis clock_forward : forall n, 0 <= env_delay env n.


















End ProducerPace.



Example producer_pace_four_pushes :
  pushes (emitted (async_run_gen (calm_env (1 # 1000) 0) 5
                     (fresh_world default_settings 0))) = 4%nat.
Proof. vm_compute. reflexivity. Qed.

(** ** The lifetime caps the production *)











Example lifetime_ends_the_producer :
  out (async_run_gen (calm_env (3 # 10) 0) 20 (world_lifetime_5 1))
    = Done tt /\
  pushes (emitted (async_run_gen (calm_env (3 # 10) 0) 20
                     (world_lifetime_5 1))) = 4%nat.
Proof. split; vm_compute; reflexivity. Qed.

(** * The clock arithmetic of the interpreter *)

(** ** The order of the doubles *)

Lemma digits2_pos_bounds (m : positive) :
  (2 ^ (Z.pos (digits2_pos m) - 1) <= Z.pos m < 2 ^ Z.pos (digits2_pos m))%Z.
Proof.
  induction m as [m IH|m IH|]; cbn [digits2_pos].
  - rewrite Pos2Z.inj_succ.
    replace (Z.succ (Z.pos (digits2_pos m)) - 1)%Z
      with (Z.succ (Z.pos (digits2_pos m) - 1))%Z by lia.
    rewrite !Z.pow_succ_r by lia. lia.
  - rewrite Pos2Z.inj_succ.
    replace (Z.succ (Z.pos (digits2_pos m)) - 1)%Z
      with (Z.succ (Z.pos (digits2_pos m) - 1))%Z by lia.
    rewrite !Z.pow_succ_r by lia. lia.
  - cbn. lia.
Qed.

Lemma bounded_mantissa (m : positive) (e : Z) :
  bounded Binary64.prec Binary64.emax m e = true ->
  (Z.pos m < 2 ^ 53 /\ (-1074 <= e) /\ (-1074 < e -> 2 ^ 52 <= Z.pos m))%Z.
Proof.
  unfold bounded, canonical_mantissa, fexp, emin, Binary64.prec,
    Binary64.emax.
  intros H. apply andb_true_iff in H. destruct H as [H _].
  apply Z.eqb_eq in H.
  pose proof (digits2_pos_bounds m) as [Hlo Hhi].
  set (d := Z.pos (digits2_pos m)) in *.
  assert (Hd : (0 < d)%Z) by (subst d; lia).
  assert (Hd53 : (d <= 53)%Z) by lia.
  split; [|split].
  - eapply Z.lt_le_trans; [exact Hhi|].
    apply Z.pow_le_mono_r; lia.
  - lia.
  - intros He. assert (d = 53)%Z by lia.
    replace 52%Z with (d - 1)%Z by lia. exact Hlo.
Qed.

Lemma Qpower_2_pos (e : Z) : 0 < 2 ^ e.
Proof. apply Qpower_0_lt. reflexivity. Qed.

Lemma Qpower_2_split (e k : Z) :
  (0 <= k)%Z -> 2 ^ (e + k) == inject_Z (2 ^ k) * 2 ^ e.
Proof.
  intros Hk. rewrite Qpower_plus by discriminate.
  rewrite (Zpower_Qpower 2 k Hk). change (inject_Z 2) with 2. ring.
Qed.

(** Mantissas and exponents of two doubles in canonical form compare as
    the numbers they stand for. *)
Lemma magnitude_lt (m1 m2 : positive) (e1 e2 : Z) :
  bounded Binary64.prec Binary64.emax m1 e1 = true ->
  bounded Binary64.prec Binary64.emax m2 e2 = true ->
  (inject_Z (Z.pos m1) * 2 ^ e1 < inject_Z (Z.pos m2) * 2 ^ e2 <->
   (e1 < e2)%Z \/ (e1 = e2 /\ (Z.pos m1 < Z.pos m2)%Z)).
Proof.
  intros H1 H2.
  apply bounded_mantissa in H1. destruct H1 as (Hm1 & He1 & Hn1).
  apply bounded_mantissa in H2. destruct H2 as (Hm2 & He2 & Hn2).
  assert (Hlt : forall ma mb ea eb,
            (Z.pos ma < 2 ^ 53)%Z -> (2 ^ 52 <= Z.pos mb)%Z ->
            (ea < eb)%Z ->
            inject_Z (Z.pos ma) * 2 ^ ea < inject_Z (Z.pos mb) * 2 ^ eb).
  { intros ma mb ea eb Ha Hb Hab.
    replace eb with (ea + (eb - ea))%Z by lia.
    rewrite Qpower_2_split by lia.
    pose proof (Qpower_2_pos ea) as Hp.
    assert (Hz : (Z.pos ma < Z.pos mb * 2 ^ (eb - ea))%Z).
    { assert (2 ^ 1 <= 2 ^ (eb - ea))%Z
        by (apply Z.pow_le_mono_r; lia).
      change (2 ^ 53)%Z with (2 ^ 52 * 2 ^ 1)%Z in Ha. nia. }
    rewrite Zlt_Qlt, inject_Z_mult in Hz. nra. }
  destruct (Z.lt_trichotomy e1 e2) as [Hc|[Hc|Hc]].
  - split; [intros _; left; exact Hc|intros _].
    apply Hlt; [exact Hm1|apply Hn2; lia|exact Hc].
  - subst e2. pose proof (Qpower_2_pos e1) as Hp. split.
    + intros H. right. split; [reflexivity|].
      rewrite Zlt_Qlt. nra.
    + intros [H|[_ H]]; [lia|]. rewrite Zlt_Qlt in H. nra.
  - split; [|intros [H|[H _]]; lia].
    intros H. exfalso.
    assert (inject_Z (Z.pos m2) * 2 ^ e2 < inject_Z (Z.pos m1) * 2 ^ e1)
      by (apply Hlt; [exact Hm2|apply Hn1; lia|exact Hc]).
    lra.
Qed.

Lemma inject_Z_pos_gt (m : positive) : 0 < inject_Z (Z.pos m).
Proof. unfold Qlt. cbn. lia. Qed.

Lemma inject_Z_neg_lt (m : positive) : inject_Z (Z.neg m) < 0.
Proof. unfold Qlt. cbn. lia. Qed.

(** The order of the doubles is the order of the numbers they stand
    for. *)
Lemma ltb_to_Q (x y : Binary64.float) :
  Binary64.number x = true -> Binary64.number y = true ->
  (SFltb x y = true <-> Binary64.to_Q x < Binary64.to_Q y).
Proof.
  destruct x as [sx| | |sx mx ex], y as [sy| | |sy my ey];
    cbn [Binary64.number]; try discriminate; intros Hx Hy;
    unfold SFltb; cbn [SFcompare Binary64.to_Q].
  - split; [discriminate|]. intros H. lra.
  - pose proof (Qpower_2_pos ey) as Hp.
    destruct sy.
    + split; [discriminate|]. intros H.
      pose proof (inject_Z_neg_lt my). nra.
    + split; [intros _|reflexivity].
      pose proof (inject_Z_pos_gt my). nra.
  - pose proof (Qpower_2_pos ex) as Hp.
    destruct sx.
    + split; [intros _|reflexivity].
      pose proof (inject_Z_neg_lt mx). nra.
    + split; [discriminate|]. intros H.
      pose proof (inject_Z_pos_gt mx). nra.
  - pose proof (Qpower_2_pos ex) as Hpx.
    pose proof (Qpower_2_pos ey) as Hpy.
    assert (Hnx : inject_Z (Z.neg mx) == - inject_Z (Z.pos mx))
      by (rewrite <- inject_Z_opp; reflexivity).
    assert (Hny : inject_Z (Z.neg my) == - inject_Z (Z.pos my))
      by (rewrite <- inject_Z_opp; reflexivity).
    pose proof (inject_Z_pos_gt mx) as Hmx.
    pose proof (inject_Z_pos_gt my) as Hmy.
    destruct sx, sy.
    + rewrite Hnx, Hny.
      pose proof (magnitude_lt my mx ey ex Hy Hx) as M.
      destruct (Z.compare_spec ex ey) as [E|E|E].
      * subst ey. change (Pos.compare_cont Eq mx my) with (Pos.compare mx my).
        destruct (Pos.compare_spec mx my) as [P|P|P]; cbn [CompOpp].
        -- split; [discriminate|]. intros H.
           assert (inject_Z (Z.pos my) * 2 ^ ex < inject_Z (Z.pos mx) * 2 ^ ex)
             by lra.
           apply M in H0. subst. lia.
        -- split; [discriminate|]. intros H.
           assert (inject_Z (Z.pos my) * 2 ^ ex < inject_Z (Z.pos mx) * 2 ^ ex)
             by lra.
           apply M in H0. lia.
        -- split; [intros _|reflexivity].
           assert (inject_Z (Z.pos my) * 2 ^ ex < inject_Z (Z.pos mx) * 2 ^ ex)
             by (apply M; right; split; [reflexivity|lia]).
           lra.
      * split; [discriminate|]. intros H.
        assert (inject_Z (Z.pos my) * 2 ^ ey < inject_Z (Z.pos mx) * 2 ^ ex)
          by lra.
        apply M in H0. lia.
      * split; [intros _|reflexivity].
        assert (inject_Z (Z.pos my) * 2 ^ ey < inject_Z (Z.pos mx) * 2 ^ ex)
          by (apply M; left; lia).
        lra.
    + rewrite Hnx. split; [intros _|reflexivity]. nra.
    + rewrite Hny. split; [discriminate|]. intros H. nra.
    + pose proof (magnitude_lt mx my ex ey Hx Hy) as M.
      destruct (Z.compare_spec ex ey) as [E|E|E].
      * subst ey. change (Pos.compare_cont Eq mx my) with (Pos.compare mx my).
        destruct (Pos.compare_spec mx my) as [P|P|P].
        -- split; [discriminate|]. intros H. apply M in H. subst. lia.
        -- split; [intros _|reflexivity]. apply M. right.
           split; [reflexivity|lia].
        -- split; [discriminate|]. intros H. apply M in H. lia.
      * split; [intros _|reflexivity]. apply M. left. exact E.
      * split; [discriminate|]. intros H. apply M in H. lia.
Qed.

Lemma gt_to_Q (x y : Binary64.float) :
  Binary64.number x = true -> Binary64.number y = true ->
  (Binary64.gt x y = true <-> Binary64.to_Q y < Binary64.to_Q x).
Proof. intros Hx Hy. unfold Binary64.gt. apply ltb_to_Q; assumption. Qed.

Lemma gt_false_to_Q (x y : Binary64.float) :
  Binary64.number x = true -> Binary64.number y = true ->
  (Binary64.gt x y = false <-> Binary64.to_Q x <= Binary64.to_Q y).
Proof.
  intros Hx Hy. pose proof (gt_to_Q x y Hx Hy) as H.
  destruct (Binary64.gt x y).
  - split; [discriminate|]. intros Hle.
    assert (Binary64.to_Q y < Binary64.to_Q x) by (apply H; reflexivity).
    lra.
  - split; [intros _|reflexivity].
    destruct (Qlt_le_dec (Binary64.to_Q y) (Binary64.to_Q x)) as [Hlt|Hle];
      [|exact Hle].
    apply H in Hlt. discriminate Hlt.
Qed.

(** ** The run budget *)

(** C6, as the code has it.  With the start time of the run set,
    [_keep_going] returns a boolean.  It returns false exactly when the
    stop flag is set, or the lifetime is not zero and the deadline, the
    double that [start + lifetime] rounds to, is not above the reading of
    the clock.  With a lifetime of zero and no stop request it returns
    true whatever the clock reads.  When the sum that gives the deadline
    is exact, the second case is that the time elapsed since the start
    has reached the lifetime, equality included. *)
Theorem keep_going_budget (stop : bool)
    (lifetime start now : Binary64.float) :
  (exists b, Binary64._keep_going stop lifetime (Some start) now = inl b) /\
  (Binary64._keep_going stop lifetime (Some start) now = inl false <->
     stop = true \/
     (Binary64.truth lifetime = true /\
      Binary64.gt (Binary64.add start lifetime) now = false)) /\
  (Binary64.truth lifetime = false -> stop = false ->
   Binary64._keep_going stop lifetime (Some start) now = inl true) /\
  (Binary64.number (Binary64.add start lifetime) = true ->
   Binary64.number now = true ->
   Binary64.to_Q (Binary64.add start lifetime)
     == Binary64.to_Q start + Binary64.to_Q lifetime ->
   stop = false -> Binary64.truth lifetime = true ->
   (Binary64._keep_going stop lifetime (Some start) now = inl false <->
    Binary64.to_Q lifetime <= Binary64.to_Q now - Binary64.to_Q start)).
Proof.
  unfold Binary64._keep_going.
  split; [|split; [|split]].
  - destruct stop; [eexists; reflexivity|].
    destruct (Binary64.truth lifetime); cbn [negb]; eexists; reflexivity.
  - destruct stop.
    + split; [intros _; left; reflexivity|reflexivity].
    + destruct (Binary64.truth lifetime); cbn [negb].
      * destruct (Binary64.gt (Binary64.add start lifetime) now).
        -- split; [discriminate|].
           intros [H|[_ H]]; discriminate H.
        -- split; [intros _; right; split; reflexivity|reflexivity].
      * split; [discriminate|].
        intros [H|[H _]]; discriminate H.
  - intros Hz Hs. subst stop. rewrite Hz. reflexivity.
  - intros Hsum Hnow Hexact Hs Ht. subst stop. rewrite Ht. cbn [negb].
    pose proof (gt_false_to_Q _ _ Hsum Hnow) as Hgt.
    destruct (Binary64.gt (Binary64.add start lifetime) now).
    + split; [discriminate|]. intros Hle. exfalso.
      assert (H : Binary64.to_Q (Binary64.add start lifetime)
                  <= Binary64.to_Q now) by (rewrite Hexact; lra).
      apply Hgt in H. discriminate H.
    + split; [intros _|reflexivity].
      assert (H : Binary64.to_Q (Binary64.add start lifetime)
                  <= Binary64.to_Q now) by (apply Hgt; reflexivity).
      rewrite Hexact in H. lra.
Qed.

Lemma keep_going_budget_witness :
  Binary64.number (Binary64.add double_1762275000 double_5) = true /\
  Binary64.number double_1762275000_25 = true /\
  Binary64.to_Q (Binary64.add double_1762275000 double_5)
    == Binary64.to_Q double_1762275000 + Binary64.to_Q double_5 /\
  Binary64.truth double_5 = true /\
  (Binary64._keep_going false double_5 (Some double_1762275000)
     double_1762275000_25 = inl false <->
   Binary64.to_Q double_5
     <= Binary64.to_Q double_1762275000_25
        - Binary64.to_Q double_1762275000).
Proof.
  assert (H1 : Binary64.number (Binary64.add double_1762275000 double_5)
               = true) by (vm_compute; reflexivity).
  assert (H2 : Binary64.number double_1762275000_25 = true)
    by (vm_compute; reflexivity).
  assert (H3 : Binary64.to_Q (Binary64.add double_1762275000 double_5)
               == Binary64.to_Q double_1762275000 + Binary64.to_Q double_5)
    by (vm_compute; reflexivity).
  assert (H4 : Binary64.truth double_5 = true) by (vm_compute; reflexivity).
  split; [exact H1|]. split; [exact H2|]. split; [exact H3|].
  split; [exact H4|].
  exact (proj2 (proj2 (proj2
    (keep_going_budget false double_5 double_1762275000
       double_1762275000_25))) H1 H2 H3 eq_refl H4).
Defined.

(** C6 as stated fails in two ways.  When the elapsed time equals the
    lifetime (start 0.0, lifetime 5.0, clock 5.0) the elapsed time does
    not exceed the lifetime and no stop was requested, yet [_keep_going]
    returns false.  And by the rounding of the deadline it returns false
    before the lifetime is reached: with the start 1762275000.0 and the
    lifetime 0.1, the sum rounds to 1762275000.0999999, and at that
    reading of the clock the check returns false although the elapsed
    time is below the lifetime. *)
Lemma keep_going_exceeds_counterexample :
  (Binary64._keep_going false double_5 (Some (S754_zero false)) double_5
     = inl false /\
   ~ (false = true \/
      (Binary64.truth double_5 = true /\
       Binary64.to_Q double_5
         < Binary64.to_Q double_5 - Binary64.to_Q (S754_zero false)))) /\
  (Binary64._keep_going false double_0_1 (Some double_1762275000)
     double_1762275000_0999999 = inl false /\
   Binary64.to_Q double_1762275000_0999999
     - Binary64.to_Q double_1762275000 < Binary64.to_Q double_0_1 /\
   Binary64.gt
     (Binary64.sub double_1762275000_0999999 double_1762275000)
     double_0_1 = false).
Proof.
  split; [split|split; [|split]].
  - vm_compute. reflexivity.
  - intros [H|[_ H]]; [discriminate H|]. vm_compute in H. discriminate H.
  - vm_compute. reflexivity.
  - vm_compute. reflexivity.
  - vm_compute. reflexivity.
Qed.

(** ** The ticker *)

(** C2, as the code has it.  (1) A ticker created at the reading [t0]
    with the interval [T] has [last_call] equal to the double [t0 - T];
    its first [__anext__] asks for no sleep when the clock has not gone
    back since the creation and the deadline of the first fire, the
    double [(t0 - T) + T], is not above [t0].  (2) Every [__anext__]
    records as [last_call] the reading of the clock taken after its
    sleep, and asks for a sleep exactly when its deadline, the double
    [last_call + T], is above the first reading; the sleep is the double
    [deadline - now].  When the clock has not gone back, the sleep has
    lasted at least what was asked, and neither the deadline nor the
    sleep was rounded down, the recorded time is at least the previous
    one plus the interval, whatever the first reading was, and so
    whatever time the caller spent. *)
Theorem Ticker_spacing :
  (forall T t0 now after : Binary64.float,
     Binary64.last_call (Binary64.Ticker_init T t0) = Binary64.sub t0 T /\
     Binary64.timeout (Binary64.Ticker_init T t0) = T /\
     (Binary64.number (Binary64.add (Binary64.sub t0 T) T) = true ->
      Binary64.number now = true ->
      Binary64.to_Q (Binary64.add (Binary64.sub t0 T) T)
        <= Binary64.to_Q t0 ->
      Binary64.to_Q t0 <= Binary64.to_Q now ->
      fst (Binary64.Ticker_anext (Binary64.Ticker_init T t0) now after)
        = None)) /\
  (forall (tk : Binary64.Ticker) (now after : Binary64.float),
     Binary64.last_call (snd (Binary64.Ticker_anext tk now after)) = after /\
     Binary64.timeout (snd (Binary64.Ticker_anext tk now after))
       = Binary64.timeout tk /\
     (Binary64.number
        (Binary64.add (Binary64.last_call tk) (Binary64.timeout tk)) = true ->
      Binary64.number now = true ->
      (fst (Binary64.Ticker_anext tk now after) = None <->
       Binary64.to_Q
         (Binary64.add (Binary64.last_call tk) (Binary64.timeout tk))
         <= Binary64.to_Q now) /\
      (forall d,
         fst (Binary64.Ticker_anext tk now after) = Some d ->
         d = Binary64.sub
               (Binary64.add (Binary64.last_call tk) (Binary64.timeout tk))
               now) /\
      ((fst (Binary64.Ticker_anext tk now after) = None ->
        Binary64.to_Q now <= Binary64.to_Q after) ->
       (forall d,
          fst (Binary64.Ticker_anext tk now after) = Some d ->
          Binary64.to_Q now + Binary64.to_Q d <= Binary64.to_Q after) ->
       Binary64.to_Q (Binary64.last_call tk)
         + Binary64.to_Q (Binary64.timeout tk)
         <= Binary64.to_Q
              (Binary64.add (Binary64.last_call tk)
                 (Binary64.timeout tk)) ->
       (forall d,
          fst (Binary64.Ticker_anext tk now after) = Some d ->
          Binary64.to_Q
            (Binary64.add (Binary64.last_call tk) (Binary64.timeout tk))
            - Binary64.to_Q now <= Binary64.to_Q d) ->
       Binary64.to_Q (Binary64.last_call tk)
         + Binary64.to_Q (Binary64.timeout tk)
         <= Binary64.to_Q
              (Binary64.last_call
                 (snd (Binary64.Ticker_anext tk now after)))))).
Proof.
  split.
  - intros T t0 now after.
    split; [reflexivity|]. split; [reflexivity|].
    intros Hc Hn Hround Hlater.
    unfold Binary64.Ticker_anext, Binary64.Ticker_init.
    cbn [fst Binary64.last_call Binary64.timeout].
    assert (Hgt : Binary64.gt (Binary64.add (Binary64.sub t0 T) T) now
                  = false).
    { apply gt_false_to_Q; [exact Hc|exact Hn|]. lra. }
    rewrite Hgt. reflexivity.
  - intros tk now after.
    unfold Binary64.Ticker_anext.
    cbn [fst snd Binary64.last_call Binary64.timeout].
    split; [reflexivity|]. split; [reflexivity|].
    intros Hc Hn.
    pose proof (gt_false_to_Q _ _ Hc Hn) as Hgt.
    destruct (Binary64.gt
                (Binary64.add (Binary64.last_call tk) (Binary64.timeout tk))
                now) eqn:E.
    + split; [|split].
      * split; [discriminate|]. intros H. apply Hgt in H. discriminate H.
      * intros d H. injection H as H. symmetry. exact H.
      * intros _ Hsleep Hsum Hdiff.
        specialize (Hsleep _ eq_refl). specialize (Hdiff _ eq_refl). lra.
    + split; [|split].
      * split; [intros _; apply Hgt; reflexivity|reflexivity].
      * intros d H. discriminate H.
      * intros Hback _ Hsum _.
        specialize (Hback eq_refl).
        assert (Binary64.to_Q
                  (Binary64.add (Binary64.last_call tk)
                     (Binary64.timeout tk)) <= Binary64.to_Q now)
          by (apply Hgt; reflexivity).
        lra.
Qed.

Lemma Ticker_spacing_witness :
  (Binary64.number
     (Binary64.add (Binary64.sub double_1762275000 double_0_5) double_0_5)
     = true /\
   Binary64.number double_1762275000_25 = true /\
   Binary64.to_Q
     (Binary64.add (Binary64.sub double_1762275000 double_0_5) double_0_5)
     <= Binary64.to_Q double_1762275000 /\
   Binary64.to_Q double_1762275000 <= Binary64.to_Q double_1762275000_25 /\
   fst (Binary64.Ticker_anext
          (Binary64.Ticker_init double_0_5 double_1762275000)
          double_1762275000_25 double_1762275000_25) = None) /\
  (Binary64.number (Binary64.add double_1762275000 double_0_5) = true /\
   fst (Binary64.Ticker_anext
          (Binary64.mkTicker double_0_5 double_1762275000)
          double_1762275000_25 double_1762275000_5)
     = Some (Binary64.sub (Binary64.add double_1762275000 double_0_5)
               double_1762275000_25) /\
   Binary64.to_Q double_1762275000_25
     + Binary64.to_Q (Binary64.sub
                        (Binary64.add double_1762275000 double_0_5)
                        double_1762275000_25)
     <= Binary64.to_Q double_1762275000_5 /\
   Binary64.to_Q double_1762275000 + Binary64.to_Q double_0_5
     <= Binary64.to_Q (Binary64.add double_1762275000 double_0_5) /\
   Binary64.to_Q double_1762275000 + Binary64.to_Q double_0_5
     <= Binary64.to_Q
          (Binary64.last_call
             (snd (Binary64.Ticker_anext
                     (Binary64.mkTicker double_0_5 double_1762275000)
                     double_1762275000_25 double_1762275000_5)))).
Proof.
  assert (N1 : Binary64.number
                 (Binary64.add (Binary64.sub double_1762275000 double_0_5)
                    double_0_5) = true) by (vm_compute; reflexivity).
  assert (N2 : Binary64.number double_1762275000_25 = true)
    by (vm_compute; reflexivity).
  assert (R1 : Binary64.to_Q
                 (Binary64.add (Binary64.sub double_1762275000 double_0_5)
                    double_0_5) <= Binary64.to_Q double_1762275000)
    by (vm_compute; discriminate).
  assert (L1 : Binary64.to_Q double_1762275000
               <= Binary64.to_Q double_1762275000_25)
    by (vm_compute; discriminate).
  assert (N3 : Binary64.number (Binary64.add double_1762275000 double_0_5)
               = true) by (vm_compute; reflexivity).
  assert (S1 : fst (Binary64.Ticker_anext
                      (Binary64.mkTicker double_0_5 double_1762275000)
                      double_1762275000_25 double_1762275000_5)
               = Some (Binary64.sub
                         (Binary64.add double_1762275000 double_0_5)
                         double_1762275000_25))
    by (vm_compute; reflexivity).
  assert (H1 : Binary64.to_Q double_1762275000_25
               + Binary64.to_Q (Binary64.sub
                                  (Binary64.add double_1762275000 double_0_5)
                                  double_1762275000_25)
               <= Binary64.to_Q double_1762275000_5)
    by (vm_compute; discriminate).
  assert (H2 : Binary64.to_Q double_1762275000 + Binary64.to_Q double_0_5
               <= Binary64.to_Q (Binary64.add double_1762275000 double_0_5))
    by (vm_compute; discriminate).
  split.
  - split; [exact N1|]. split; [exact N2|]. split; [exact R1|].
    split; [exact L1|].
    exact (proj2 (proj2
      (proj1 Ticker_spacing double_0_5 double_1762275000
         double_1762275000_25 double_1762275000_25)) N1 N2 R1 L1).
  - split; [exact N3|]. split; [exact S1|]. split; [exact H1|].
    split; [exact H2|].
    refine (proj2 (proj2 (proj2 (proj2
      (proj2 Ticker_spacing
         (Binary64.mkTicker double_0_5 double_1762275000)
         double_1762275000_25 double_1762275000_5)) N3 N2)) _ _ H2 _).
    + intros H. rewrite S1 in H. discriminate H.
    + intros d H. rewrite S1 in H. injection H as H. subst d. exact H1.
    + intros d H. rewrite S1 in H. injection H as H. subst d.
      vm_compute. discriminate.
Defined.

(** C2 as stated fails in two ways.  When the clock is set back between
    the two readings of an [__anext__] (last fire at 10.0, interval 0.5,
    first reading 11.0, second reading 10.2), no sleep is asked and the
    recorded time is below the previous one plus the interval.  And by
    the rounding of the deadline: with the last fire at 1762275000.0 and
    the interval 0.1, a request made at once sleeps until
    1762275000.0999999, the double the deadline rounds to; when the
    sleep lasts exactly what was asked, the recorded time is below the
    previous one plus the interval, although the clock never went
    back. *)
Lemma Ticker_spacing_counterexample :
  (fst (Binary64.Ticker_anext (Binary64.mkTicker double_0_5 double_10)
          double_11 double_10_2) = None /\
   Binary64.last_call
     (snd (Binary64.Ticker_anext (Binary64.mkTicker double_0_5 double_10)
             double_11 double_10_2)) = double_10_2 /\
   Binary64.to_Q double_10_2
     < Binary64.to_Q double_10 + Binary64.to_Q double_0_5) /\
  (exists d,
     fst (Binary64.Ticker_anext
            (Binary64.mkTicker double_0_1 double_1762275000)
            double_1762275000 double_1762275000_0999999) = Some d /\
     Binary64.to_Q double_1762275000 + Binary64.to_Q d
       == Binary64.to_Q double_1762275000_0999999 /\
     Binary64.last_call
       (snd (Binary64.Ticker_anext
               (Binary64.mkTicker double_0_1 double_1762275000)
               double_1762275000 double_1762275000_0999999))
       = double_1762275000_0999999 /\
     Binary64.to_Q double_1762275000_0999999
       < Binary64.to_Q double_1762275000 + Binary64.to_Q double_0_1).
Proof.
  split.
  - split; [vm_compute; reflexivity|].
    split; [reflexivity|]. vm_compute. reflexivity.
  - eexists. split; [vm_compute; reflexivity|].
    split; [vm_compute; reflexivity|].
    split; [reflexivity|]. vm_compute. reflexivity.
Qed.

(** ** Rerouting *)

Lemma handle_msg_err_pushes (env : Env) (fuel : nat) (msg : string)
    (w : World) :
  collect pushed_of (emitted (_handle_msg_err env fuel msg w)) =
  match out (_handle_msg_err env fuel msg w) with
  | Done _ => [(error_collection (settings (self w)), msg)]
  | _ => []
  end.
Proof.
  unfold _handle_msg_err, _rpush. mrun.
  pose proof (conn_execute_collect env
                (rpush (error_collection (settings (self w))) msg)
                pushed_of pushed_of_other
                ltac:(reflexivity) ltac:(reflexivity) fuel w) as Hcol.
  destruct (_conn_execute env fuel
              (rpush (error_collection (settings (self w))) msg) w)
    as [[n|e|] w1 tr]; cbn [out final emitted] in *; mrun.
  - destruct (save_history (settings (self w))); mrun.
    all: rewrite collect_cons_none by reflexivity;
      rewrite !collect_app, Hcol; reflexivity.
  - rewrite collect_cons_none by reflexivity. rewrite Hcol. reflexivity.
  - rewrite collect_cons_none by reflexivity. rewrite Hcol. reflexivity.
Qed.

Lemma handle_msg_err_completes (env : Env) (K errs fuel : nat)
    (msg : string) (w : World) (n : Z) :
  (forall i, answers_within (env_connect env) i K = true) ->
  (forall i, (i < errs)%nat ->
     env_redis env Z (rpush (error_collection (settings (self w))) msg)
       (n_redis w + i) = inr RedisError) ->
  env_redis env Z (rpush (error_collection (settings (self w))) msg)
    (n_redis w + errs) = inl n ->
  (K + errs < fuel)%nat ->
  out (_handle_msg_err env fuel msg w) = Done tt.
Proof.
  intros Hconnect Herrs Hok Hfuel.
  unfold _handle_msg_err, _rpush. mrun.
  destruct (conn_execute_run env
              (rpush (error_collection (settings (self w))) msg) n K
              Hconnect errs fuel w 0%nat Herrs Hok Hfuel)
    as (w2 & tr & Hrun & _).
  rewrite Hrun. mrun.
  destruct (save_history (settings (self w))); reflexivity.
Qed.

(** C8: [_handle_msg] with the default rate always returns normally.  It
    schedules the task [_handle_msg_err msg] exactly when the draw is below
    5/100, and schedules nothing else.  The task is not run inline: the
    call itself makes no call of redis and leaves [sent_errors] alone.
    The task, whenever the event loop runs it, makes no connection call
    but the RPUSH of the message on the error queue; its run holds that
    RPUSH, returned, exactly once when the task completes, and not at all
    otherwise; and it completes as soon as the backend answers the RPUSH
    after finitely many [RedisError]s, connecting being possible.
    Whatever the draw, the consumer loop goes on with its next iteration
    from the world [_handle_msg] left. *)
Theorem handle_msg_reroutes (env : Env) (msg : string) (w : World) :
  let r := _handle_msg env msg default_err_rate w in
  let draw := env_random env (n_random w) in
  out r = Done tt /\
  (In (EvSpawn (Task_handle_msg_err msg)) (emitted r) <-> draw < 5 # 100) /\
  pending (final r) =
    pending w ++
    (if Qlt_bool draw (5 # 100) then [Task_handle_msg_err msg] else []) /\
  existsb is_redis_call (emitted r) = false /\
  n_redis (final r) = n_redis w /\
  sent_errors (self (final r)) = sent_errors (self w) /\
  (forall fuel w',
     Forall (only_call (rpush (error_collection (settings (self w'))) msg))
       (emitted (run_task env fuel (Task_handle_msg_err msg) w')) /\
     collect pushed_of
       (emitted (run_task env fuel (Task_handle_msg_err msg) w')) =
       match out (run_task env fuel (Task_handle_msg_err msg) w') with
       | Done _ => [(error_collection (settings (self w')), msg)]
       | _ => []
       end) /\
  (forall K errs fuel w' n,
     (forall i, answers_within (env_connect env) i K = true) ->
     (forall i, (i < errs)%nat ->
        env_redis env Z (rpush (error_collection (settings (self w'))) msg)
          (n_redis w' + i) = inr RedisError) ->
     env_redis env Z (rpush (error_collection (settings (self w'))) msg)
       (n_redis w' + errs) = inl n ->
     (K + errs < fuel)%nat ->
     out (run_task env fuel (Task_handle_msg_err msg) w') = Done tt /\
     collect pushed_of
       (emitted (run_task env fuel (Task_handle_msg_err msg) w')) =
       [(error_collection (settings (self w')), msg)]) /\
  (forall fuel w0 w1 tr1 tr2,
     _keep_going env w0 = mkRes (Done true) w1 tr1 ->
     _get_msg env fuel w1 = mkRes (Done (Some msg)) w tr2 ->
     msg <> EmptyString ->
     out (async_run_receiver_loop env (S fuel) w0) =
       out (async_run_receiver_loop env fuel (final r)) /\
     final (async_run_receiver_loop env (S fuel) w0) =
       final (async_run_receiver_loop env fuel (final r))).
Proof.
  cbv zeta.
  assert (Hrun : _handle_msg env msg default_err_rate w =
    mkRes (Done tt)
      (final (_handle_msg env msg default_err_rate w))
      (EvLog (Log_msg_received msg) ::
       if Qlt_bool (env_random env (n_random w)) (5 # 100)
       then [EvSpawn (Task_handle_msg_err msg)] else [])).
  { unfold _handle_msg, default_err_rate. mrun.
    destruct (save_history (settings (self w))); mrun;
      destruct (Qlt_bool (env_random env (n_random w)) (5 # 100)); mrun;
      reflexivity. }
  split; [rewrite Hrun; reflexivity|].
  split.
  { rewrite Hrun. cbn [emitted]. rewrite <- Qlt_bool_iff.
    destruct (Qlt_bool (env_random env (n_random w)) (5 # 100)).
    - split; [reflexivity|]. intros _. right. left. reflexivity.
    - split; [|discriminate].
      intros [H|[]]. discriminate H. }
  split.
  { unfold _handle_msg, default_err_rate. mrun.
    destruct (save_history (settings (self w))); mrun;
      destruct (Qlt_bool (env_random env (n_random w)) (5 # 100)); mrun;
      rewrite ?app_nil_r; reflexivity. }
  split.
  { rewrite Hrun. cbn [emitted].
    destruct (Qlt_bool (env_random env (n_random w)) (5 # 100)); reflexivity. }
  split.
  { unfold _handle_msg, default_err_rate. mrun.
    destruct (save_history (settings (self w))); mrun;
      destruct (Qlt_bool (env_random env (n_random w)) (5 # 100)); mrun;
      reflexivity. }
  split.
  { unfold _handle_msg, default_err_rate. mrun.
    destruct (save_history (settings (self w))); mrun;
      destruct (Qlt_bool (env_random env (n_random w)) (5 # 100)); mrun;
      reflexivity. }
  split.
  { intros fuel w'. cbn [run_task]. split.
    - exact (proj2 (handle_msg_err_only_call env (settings (self w')) fuel
                      msg w' eq_refl)).
    - apply handle_msg_err_pushes. }
  split.
  { intros K errs fuel w' n Hconnect Herrs Hok Hfuel. cbn [run_task].
    pose proof (handle_msg_err_completes env K errs fuel msg w' n
                  Hconnect Herrs Hok Hfuel) as Hdone.
    split; [exact Hdone|].
    rewrite handle_msg_err_pushes, Hdone. reflexivity. }
  intros fuel w0 w1 tr1 tr2 Hgo Hmsg Hne.
  rewrite (receiver_loop_message env fuel w0 w1 w tr1 tr2 msg Hgo Hmsg Hne).
  split; reflexivity.
Qed.

Lemma handle_msg_reroutes_witness :
  (env_random (queue_env (1 # 100) ["a1"])
     (n_random (fresh_world default_settings 0)) < 5 # 100 /\
   In (EvSpawn (Task_handle_msg_err "a1"))
      (emitted (_handle_msg (queue_env (1 # 100) ["a1"]) "a1"
                  default_err_rate (fresh_world default_settings 0)))) /\
  ((forall i,
      answers_within (env_connect (queue_env (1 # 100) ["a1"])) i 1 = true) /\
   env_redis (queue_env (1 # 100) ["a1"]) Z
     (rpush (error_collection
               (settings (self (fresh_world default_settings 0)))) "a1")
     (n_redis (fresh_world default_settings 0) + 0) = inl 1%Z /\
   (1 + 0 < 3)%nat /\
   out (run_task (queue_env (1 # 100) ["a1"]) 3 (Task_handle_msg_err "a1")
          (fresh_world default_settings 0)) = Done tt /\
   collect pushed_of
     (emitted (run_task (queue_env (1 # 100) ["a1"]) 3
                 (Task_handle_msg_err "a1")
                 (fresh_world default_settings 0))) = [("err", "a1")]).
Proof.
  assert (H : env_random (queue_env (1 # 100) ["a1"])
                (n_random (fresh_world default_settings 0)) < 5 # 100).
  { unfold Qlt. simpl. lia. }
  assert (Hc : forall i,
             answers_within (env_connect (queue_env (1 # 100) ["a1"])) i 1
             = true).
  { intros i. reflexivity. }
  assert (Hf : (1 + 0 < 3)%nat) by lia.
  split.
  - split; [exact H|].
    exact (proj2 (proj1 (proj2
      (handle_msg_reroutes (queue_env (1 # 100) ["a1"]) "a1"
         (fresh_world default_settings 0)))) H).
  - split; [exact Hc|]. split; [reflexivity|]. split; [exact Hf|].
    pose proof (handle_msg_reroutes (queue_env (1 # 100) ["a1"]) "a1"
                  (fresh_world default_settings 0)) as Hthm.
    cbv zeta in Hthm.
    destruct Hthm as (_ & _ & _ & _ & _ & _ & _ & Hrun & _).
    refine (Hrun 1%nat 0%nat 3%nat (fresh_world default_settings 0) 1%Z
              Hc _ eq_refl Hf).
    intros i Hi. lia.
Defined.

(** ** The start time of the run *)

Section KeepsStart.

Variable env : Env.
Variable st : Q.

Lemma keeps_start_quiet {A} (m : M A) :
  (forall w, _start_time (self (final (m w))) = _start_time (self w)) ->
  (forall w, out (m w) <> Raised TypeError) ->
  keeps_start env st m.
Proof.
  intros Hs Ho w Hst. split; [rewrite Hs; exact Hst|]. intros _. apply Ho.
Qed.

Lemma keeps_start_bind {A B} (m : M A) (f : A -> M B) :
  keeps_start env st m -> (forall a, keeps_start env st (f a)) ->
  keeps_start env st (bind m f).
Proof.
  intros Hm Hf w Hst. unfold bind. specialize (Hm w Hst).
  destruct (m w) as [[a|e|] w1 tr1]; cbn [out final] in *;
    [|split; [exact (proj1 Hm)|];
      intros Hb He; apply (proj2 Hm Hb); congruence
     |split; [exact (proj1 Hm)|discriminate]].
  destruct Hm as [Hs1 _]. specialize (Hf a w1 Hs1).
  destruct (f a w1) as [o w2 tr2]. cbn [out final] in *. exact Hf.
Qed.

Lemma keeps_start_try_except {A} (m : M A) (sel : exn -> bool)
    (h : exn -> M A) :
  keeps_start env st m -> (forall e, keeps_start env st (h e)) ->
  keeps_start env st (try_except m sel h).
Proof.
  intros Hm Hh w Hst. unfold try_except. specialize (Hm w Hst).
  destruct (m w) as [[a|e|] w1 tr1]; cbn [out final] in *;
    [exact Hm| |exact Hm].
  destruct (sel e); [|exact Hm].
  destruct Hm as [Hs1 _]. specialize (Hh e w1 Hs1).
  destruct (h e w1) as [o w2 tr2]. cbn [out final] in *. exact Hh.
Qed.

Lemma keeps_start_connect : keeps_start env st (aioredis_create_redis env).
Proof.
  intros w Hst. unfold aioredis_create_redis. cbn [out final self].
  split; [exact Hst|]. intros (H & _).
  destruct (env_connect env (n_connect w)) as [c|e] eqn:E; cbn [of_sum];
    [discriminate|].
  intros He. injection He as He. subst e. exact (H _ E).
Qed.

Lemma keeps_start_close (c : conn) :
  keeps_start env st (connection_close env c).
Proof.
  intros w Hst. unfold connection_close. cbn [out final self].
  split; [exact Hst|]. intros (_ & H & _).
  destruct (env_close env (n_close w)) as [e|] eqn:E; cbn [of_status];
    [|discriminate].
  intros He. injection He as He. subst e. exact (H _ E).
Qed.

Lemma keeps_start_call {R} (c : conn) (m : method R) :
  keeps_start env st (connection_call env c m).
Proof.
  intros w Hst. unfold connection_call. cbn [out final self].
  split; [exact Hst|]. intros (_ & _ & H & _).
  destruct (env_redis env R m (n_redis w)) as [v|e] eqn:E; cbn [of_sum];
    [discriminate|].
  intros He. injection He as He. subst e. exact (H _ _ _ E).
Qed.

Lemma keeps_start_lock_manager : keeps_start env st (Aioredlock_new env).
Proof.
  intros w Hst. unfold Aioredlock_new. cbn [out final self].
  split; [exact Hst|]. intros (_ & _ & _ & H & _).
  destruct (env_lock_manager env (n_lock_manager w)) as [v|e] eqn:E;
    cbn [of_sum]; [discriminate|].
  intros He. injection He as He. subst e. exact (H _ E).
Qed.

Lemma keeps_start_lock (lm : lockmgr) (resource : string) :
  keeps_start env st (lock_manager_lock env lm resource).
Proof.
  intros w Hst. unfold lock_manager_lock. cbn [out final self].
  split; [exact Hst|]. intros (_ & _ & _ & _ & H & _).
  destruct (env_lock env (n_lock w)) as [v|e] eqn:E; cbn [of_sum];
    [discriminate|].
  intros He. injection He as He. subst e. exact (H _ E).
Qed.

Lemma keeps_start_extend (lm : lockmgr) (l : Lock) :
  keeps_start env st (lock_manager_extend env lm l).
Proof.
  intros w Hst. unfold lock_manager_extend. cbn [out final self].
  split; [exact Hst|]. intros (_ & _ & _ & _ & _ & H).
  destruct (env_extend env (n_extend w)) as [e|] eqn:E; cbn [of_status];
    [|discriminate].
  intros He. injection He as He. subst e. exact (H _ E).
Qed.

Lemma keeps_start_keep_going : keeps_start env st (_keep_going env).
Proof.
  intros w Hst. unfold _keep_going. mrun. rewrite Hst.
  destruct (_stop (self w)); [split; [exact Hst|discriminate]|].
  destruct (Qeq_bool (lifetime (settings (self w))) 0);
    split; try exact Hst; discriminate.
Qed.

End KeepsStart.

(** Steps through a program built from calls that keep the start time. *)
Ltac start_step :=
  first
    [ apply keeps_start_keep_going
    | apply keeps_start_bind; [|intros ?]
    | apply keeps_start_try_except; [|intros ?]
    | apply keeps_start_connect | apply keeps_start_close
    | apply keeps_start_call | apply keeps_start_lock_manager
    | apply keeps_start_lock | apply keeps_start_extend
    | solve [apply keeps_start_quiet;
             [intros ?; reflexivity|intros ?; discriminate]]
    | match goal with
      | |- keeps_start _ _ (match ?x with _ => _ end) => destruct x
      | |- keeps_start _ _ (if ?x then _ else _) => destruct x
      end ].

Section RunKeepsStart.

Variable env : Env.
Variable st : Q.

Lemma get_connection_loop_start (fuel : nat) :
  keeps_start env st (_get_connection_loop env fuel).
Proof.
  induction fuel as [|fuel IH]; cbn [_get_connection_loop];
    repeat first [exact IH | start_step].
Qed.

Lemma get_connection_start (fuel : nat) :
  keeps_start env st (_get_connection env fuel).
Proof.
  unfold _get_connection.
  repeat first [apply get_connection_loop_start | start_step].
Qed.

Lemma conn_execute_start {R} (m : method R) (fuel : nat) :
  keeps_start env st (_conn_execute env fuel m).
Proof.
  induction fuel as [|fuel IH]; cbn [_conn_execute];
    repeat first [exact IH | apply get_connection_start | start_step].
Qed.

Lemma get_lock_manager_loop_start (fuel : nat) :
  keeps_start env st (_get_lock_manager_loop env fuel).
Proof.
  induction fuel as [|fuel IH]; cbn [_get_lock_manager_loop];
    repeat first [exact IH | start_step].
Qed.

Lemma get_lock_manager_start (fuel : nat) :
  keeps_start env st (_get_lock_manager env fuel).
Proof.
  unfold _get_lock_manager.
  repeat first [apply get_lock_manager_loop_start | start_step].
Qed.

Lemma become_a_gen_start (fuel : nat) :
  keeps_start env st (_become_a_gen env fuel).
Proof.
  unfold _become_a_gen.
  repeat first [apply get_lock_manager_start | start_step].
Qed.

Lemma extend_gen_lock_start (fuel : nat) :
  keeps_start env st (_extend_gen_lock env fuel).
Proof.
  unfold _extend_gen_lock.
  repeat first [apply get_lock_manager_start | apply become_a_gen_start
               | start_step].
Qed.

Lemma random_choices_start (population : list ascii) (k : nat) :
  keeps_start env st (random_choices env population k).
Proof.
  induction k as [|k IH]; cbn [random_choices];
    repeat first [exact IH | start_step].
Qed.

Lemma gen_msg_start : keeps_start env st (_gen_msg env).
Proof.
  unfold _gen_msg.
  apply keeps_start_bind; [apply random_choices_start|intros cs].
  apply keeps_start_quiet; [intros w; reflexivity|intros w; discriminate].
Qed.

Lemma post_msg_start (fuel : nat) (msg : string) :
  keeps_start env st (_post_msg env fuel msg).
Proof.
  unfold _post_msg, _rpush.
  repeat first [apply conn_execute_start | start_step].
Qed.

Lemma get_msg_start (fuel : nat) : keeps_start env st (_get_msg env fuel).
Proof.
  unfold _get_msg, _blpop.
  repeat first [apply conn_execute_start | start_step].
Qed.

Lemma handle_msg_start (msg : string) (rate : Q) :
  keeps_start env st (_handle_msg env msg rate).
Proof. unfold _handle_msg. repeat start_step. Qed.

Lemma Ticker_anext_start (tk : Ticker) :
  keeps_start env st (Ticker_anext env tk).
Proof. unfold Ticker_anext. repeat start_step. Qed.

Lemma async_run_gen_loop_start (fuel : nat) :
  forall tk, keeps_start env st (async_run_gen_loop env fuel tk).
Proof.
  induction fuel as [|fuel IH]; intros tk; cbn [async_run_gen_loop].
  - apply keeps_start_quiet; [intros w; reflexivity|intros w; discriminate].
  - apply keeps_start_bind; [apply Ticker_anext_start|intros tk'].
    apply keeps_start_bind; [apply keeps_start_keep_going|intros go].
    destruct (negb go).
    { apply keeps_start_quiet;
        [intros w; reflexivity|intros w; discriminate]. }
    apply keeps_start_bind; [apply extend_gen_lock_start|intros ext].
    destruct ext.
    + apply keeps_start_bind; [apply gen_msg_start|intros msg].
      apply keeps_start_bind; [apply post_msg_start|intros _].
      apply IH.
    + apply keeps_start_bind;
        [|intros _];
        apply keeps_start_quiet;
        try (intros w; reflexivity); intros w; discriminate.
Qed.

Lemma async_run_gen_start (fuel : nat) :
  keeps_start env st (async_run_gen env fuel).
Proof.
  unfold async_run_gen, Ticker_init.
  repeat first [apply async_run_gen_loop_start | start_step].
Qed.

Lemma async_run_receiver_loop_start (fuel : nat) :
  keeps_start env st (async_run_receiver_loop env fuel).
Proof.
  induction fuel as [|fuel IH]; cbn [async_run_receiver_loop];
    repeat first [exact IH | apply get_msg_start | apply handle_msg_start
                 | start_step].
Qed.

Lemma async_run_receiver_start (fuel : nat) :
  keeps_start env st (async_run_receiver env fuel).
Proof.
  unfold async_run_receiver.
  repeat first [apply async_run_receiver_loop_start | start_step].
Qed.

Lemma async_run_loop_start (fuel : nat) :
  keeps_start env st (async_run_loop env fuel).
Proof.
  induction fuel as [|fuel IH]; cbn [async_run_loop];
    repeat first [exact IH | apply become_a_gen_start
                 | apply async_run_gen_start | apply async_run_receiver_start
                 | start_step].
Qed.

End RunKeepsStart.

(** X12: the run budget needs the start time that only [async_run] sets.
    With a lifetime configured, no stop request and no start time,
    [_keep_going] raises [TypeError], and so do the consumer and the
    producer when they are run on their own, before any call of the
    backend.  A run of [async_run], complete or cut, has as start time
    the first reading of its clock, from its first check of the budget to
    its end, and it raises no [TypeError] unless the backend answers
    one. *)
Theorem keep_going_needs_start_time (env : Env) (fuel : nat) (w : World) :
  (_stop (self w) = false ->
   Qeq_bool (lifetime (settings (self w))) 0 = false ->
   _start_time (self w) = None ->
   _keep_going env w = mkRes (Raised TypeError) w [] /\
   async_run_receiver env (S fuel) w =
     mkRes (Raised TypeError) w [EvLog Log_running_receiver] /\
   out (async_run_gen env (S fuel) w) = Raised TypeError /\
   Forall lease_quiet (emitted (async_run_gen env (S fuel) w))) /\
  _start_time (self (final (async_run env fuel w)))
    = Some (clock_reading env w) /\
  (backend_never env TypeError ->
   out (async_run env fuel w) <> Raised TypeError).
Proof.
  split.
  - intros Hstop Hlife Hstart.
    assert (Hkg : forall w', self w' = self w ->
              _keep_going env w' = mkRes (Raised TypeError) w' []).
    { intros w' H. unfold _keep_going. mrun.
      rewrite H, Hstop, Hlife, Hstart. reflexivity. }
    split; [apply Hkg; reflexivity|].
    split.
    { unfold async_run_receiver. cbn [async_run_receiver_loop]. mrun.
      rewrite (Hkg w eq_refl). reflexivity. }
    unfold async_run_gen, Ticker_init. cbn [async_run_gen_loop]. mrun.
    match goal with
    | |- context [Ticker_anext env ?tk ?w1] =>
        destruct (Ticker_anext_quiet env tk w1) as (Hq & tk' & Ho);
        pose proof (Ticker_anext_self env tk w1) as Hs;
        destruct (Ticker_anext env tk w1) as [o1 w2 tr1]
    end.
    cbn [out final emitted] in *. subst o1. mrun.
    rewrite (Hkg w2 Hs). mrun.
    split; [reflexivity|]. constructor; [exact I|].
    rewrite app_nil_r. exact Hq.
  - unfold async_run, clock_reading. mrun.
    match goal with
    | |- context [async_run_loop env fuel ?w1] =>
        pose proof (async_run_loop_start env
                      (clock w + env_delay env (n_delay w)) fuel w1
                      eq_refl) as H;
        destruct (async_run_loop env fuel w1) as [o w2 tr]
    end.
    cbn [out final] in *. exact H.
Qed.

Lemma keep_going_needs_start_time_witness :
  (_stop (self (fresh_world (set_lifetime 5 default_settings) 0)) = false /\
   Qeq_bool
     (lifetime (settings (self (fresh_world (set_lifetime 5 default_settings)
                                  0)))) 0 = false /\
   _start_time (self (fresh_world (set_lifetime 5 default_settings) 0))
     = None /\
   async_run_receiver (calm_env 0 0) 1
     (fresh_world (set_lifetime 5 default_settings) 0) =
     mkRes (Raised TypeError)
       (fresh_world (set_lifetime 5 default_settings) 0)
       [EvLog Log_running_receiver]) /\
  (backend_never (calm_env 0 0) TypeError /\
   out (async_run (calm_env 0 0) 3
          (fresh_world (set_lifetime 5 default_settings) 0))
     <> Raised TypeError).
Proof.
  assert (Hb : backend_never (calm_env 0 0) TypeError).
  { repeat split; try (intros n; discriminate).
    intros R m n. destruct m; discriminate. }
  split.
  - split; [reflexivity|]. split; [reflexivity|]. split; [reflexivity|].
    exact (proj1 (proj2 (proj1
      (keep_going_needs_start_time (calm_env 0 0) 0
         (fresh_world (set_lifetime 5 default_settings) 0))
      eq_refl eq_refl eq_refl))).
  - split; [exact Hb|].
    exact (proj2 (proj2
      (keep_going_needs_start_time (calm_env 0 0) 3
         (fresh_world (set_lifetime 5 default_settings) 0))) Hb).
Defined.

(** * The consumer and the tasks it schedules *)

(** The body of a coroutine and the tasks it hands to the event loop run
    interleaved; [emitted] holds the effects of the body, and [EvSpawn]
    marks where a task was handed over.  What a task does once the event
    loop runs it is [run_task], in whatever world the loop runs it. *)

Lemma async_run_receiver_events (env : Env) (fuel : nat) (w : World) :
  Forall (receiver_event (settings (self w)))
    (emitted (async_run_receiver env fuel w)).
Proof.
  assert (Hc : confined (settings (self w))
                 (receiver_event (settings (self w)))
                 (async_run_receiver env fuel)).
  { unfold async_run_receiver.
    apply confined_bind; [confined_call|intros _].
    apply receiver_loop_confined. }
  exact (proj2 (Hc w eq_refl)).
Qed.



(** The task that reroutes a message leaves the three histories that are
    not [sent_errors] as it found them, however it ends. *)
Lemma handle_msg_err_frame (env : Env) (fuel : nat) (msg : string)
    (w : World) :
  received_messages (self (final (_handle_msg_err env fuel msg w)))
    = received_messages (self w) /\
  sent_messages (self (final (_handle_msg_err env fuel msg w)))
    = sent_messages (self w) /\
  received_errors (self (final (_handle_msg_err env fuel msg w)))
    = received_errors (self w).
Proof.
  unfold _handle_msg_err, _rpush. mrun.
  pose proof (conn_execute_archive env
                (rpush (error_collection (settings (self w))) msg) fuel w)
    as Harch.
  destruct (histories_fields _ _ (f_equal snd Harch)) as (H1 & H2 & H3 & H4).
  destruct (_conn_execute env fuel
              (rpush (error_collection (settings (self w))) msg) w)
    as [[n|e|] w1 tr]; cbn [out final emitted] in *; mrun;
    [|auto|auto].
  destruct (save_history (settings (self w))); mrun; auto.
Qed.

(** X9: with [save_history] on, after any run of the consumer, complete
    or cut, the history of received messages is what it was followed by
    the messages the BLPOPs yielded, in the order they were popped, each
    once; the only message that can be missing is an empty one, popped
    last.  The body of the consumer leaves the histories of sent messages
    and of received errors as they were, and so does every task it hands
    to the event loop, whenever it is run: the tasks write the history of
    sent errors alone. *)
Theorem receiver_history_matches_pops (env : Env) (fuel : nat) (w : World) :
  save_history (settings (self w)) = true ->
  received_messages (self (final (async_run_receiver env fuel w))) =
    received_messages (self w) ++
    filter nonempty
      (collect popped_of (emitted (async_run_receiver env fuel w))) /\
  sent_messages (self (final (async_run_receiver env fuel w)))
    = sent_messages (self w) /\
  received_errors (self (final (async_run_receiver env fuel w)))
    = received_errors (self w) /\
  (exists dropped,
     collect popped_of (emitted (async_run_receiver env fuel w)) =
       filter nonempty
         (collect popped_of (emitted (async_run_receiver env fuel w)))
       ++ dropped /\
     (dropped = [] \/ dropped = [EmptyString])) /\
  (forall t,
     In (EvSpawn t) (emitted (async_run_receiver env fuel w)) ->
     exists msg,
       t = Task_handle_msg_err msg /\
       forall env' fuel' w',
         received_messages (self (final (run_task env' fuel' t w')))
           = received_messages (self w') /\
         sent_messages (self (final (run_task env' fuel' t w')))
           = sent_messages (self w') /\
         received_errors (self (final (run_task env' fuel' t w')))
           = received_errors (self w')).
Proof.
  intros Hon.
  pose proof (async_run_receiver_events env fuel w) as Hev.
  unfold async_run_receiver in *. mrun_in Hev. mrun.
  destruct (receiver_loop_records env fuel w Hon) as (H1 & H2 & H3).
  destruct (async_run_receiver_loop env fuel w) as [o w1 tr].
  cbn [out final emitted] in *.
  change (collect popped_of (EvLog Log_running_receiver :: tr))
    with (collect popped_of tr).
  unfold other_than_received in H2.
  split; [exact H1|].
  split; [congruence|]. split; [congruence|]. split; [exact H3|].
  intros t Hin.
  rewrite Forall_forall in Hev. specialize (Hev _ Hin).
  destruct t as [msg|err]; cbn in Hev; [|contradiction].
  exists msg. split; [reflexivity|].
  intros env' fuel' w'. cbn [run_task]. apply handle_msg_err_frame.
Qed.

Lemma receiver_history_matches_pops_witness :
  save_history
    (settings (self (fresh_world (set_save_history true default_settings) 0)))
    = true /\
  received_messages
    (self (final (async_run_receiver (queue_env 1 ["a1"; "a2"]) 5
                    (fresh_world (set_save_history true default_settings) 0))))
    = [] ++
      filter nonempty
        (collect popped_of
           (emitted (async_run_receiver (queue_env 1 ["a1"; "a2"]) 5
                       (fresh_world (set_save_history true default_settings)
                          0)))).
Proof.
  split; [reflexivity|].
  exact (proj1 (receiver_history_matches_pops (queue_env 1 ["a1"; "a2"]) 5
                  (fresh_world (set_save_history true default_settings) 0)
                  eq_refl)).
Defined.

(** ** The drain and its handlers *)

Lemma accounts_quiet {A} (m : M A) :
  (forall w, pending (final (m w)) = pending w) ->
  (forall w, collect spawned_of (emitted (m w)) = []) ->
  accounts m.
Proof. intros Hp He w. rewrite Hp, He, app_nil_r. reflexivity. Qed.

Lemma accounts_bind {A B} (m : M A) (f : A -> M B) :
  accounts m -> (forall a, accounts (f a)) -> accounts (bind m f).
Proof.
  intros Hm Hf w. unfold bind. specialize (Hm w).
  destruct (m w) as [[a|e|] w1 tr1]; cbn [final emitted] in *;
    try exact Hm.
  specialize (Hf a w1). destruct (f a w1) as [o w2 tr2].
  cbn [final emitted] in *.
  rewrite collect_app, app_assoc, <- Hm. exact Hf.
Qed.

Lemma accounts_try_except {A} (m : M A) (sel : exn -> bool)
    (h : exn -> M A) :
  accounts m -> (forall e, accounts (h e)) -> accounts (try_except m sel h).
Proof.
  intros Hm Hh w. unfold try_except. specialize (Hm w).
  destruct (m w) as [[a|e|] w1 tr1]; cbn [final emitted] in *;
    try exact Hm.
  destruct (sel e); [|exact Hm].
  specialize (Hh e w1). destruct (h e w1) as [o w2 tr2].
  cbn [final emitted] in *.
  rewrite collect_app, app_assoc, <- Hm. exact Hh.
Qed.

Lemma accounts_ensure_future (t : task) :
  accounts (asyncio_ensure_future t).
Proof. intros w. reflexivity. Qed.

Ltac accounts_step :=
  first
    [ apply accounts_bind; [|intros ?]
    | apply accounts_try_except; [|intros ?]
    | apply accounts_ensure_future
    | solve [apply accounts_quiet; intros ?; reflexivity]
    | match goal with
      | |- accounts (match ?x with _ => _ end) => destruct x
      | |- accounts (if ?x then _ else _) => destruct x
      end ].

Lemma get_connection_loop_accounts (env : Env) (fuel : nat) :
  accounts (_get_connection_loop env fuel).
Proof.
  induction fuel as [|fuel IH]; cbn [_get_connection_loop];
    repeat first [exact IH | accounts_step].
Qed.

Lemma get_connection_accounts (env : Env) (fuel : nat) :
  accounts (_get_connection env fuel).
Proof.
  unfold _get_connection.
  repeat first [apply get_connection_loop_accounts | accounts_step].
Qed.

Lemma conn_execute_accounts (env : Env) {R} (m : method R) (fuel : nat) :
  accounts (_conn_execute env fuel m).
Proof.
  induction fuel as [|fuel IH]; cbn [_conn_execute];
    repeat first [exact IH | apply get_connection_accounts | accounts_step].
Qed.

Lemma get_errors_loop_accounts (env : Env) (fuel : nat) :
  forall err count, accounts (async_get_errors_loop env fuel err count).
Proof.
  induction fuel as [|fuel IH]; intros err count;
    cbn [async_get_errors_loop]; unfold _get_err, _lpop;
    repeat first [apply IH | apply conn_execute_accounts | accounts_step].
Qed.

Lemma get_errors_accounts (env : Env) (fuel : nat) :
  accounts (async_get_errors env fuel).
Proof.
  unfold async_get_errors, _get_err, _lpop.
  repeat first [apply get_errors_loop_accounts | apply conn_execute_accounts
               | accounts_step].
Qed.

(** The handler of an error, whenever it is run: it logs, appends the
    error to the history of received errors when [save_history] is on,
    and does nothing else. *)
Lemma handle_err_effect (err : string) (w : World) :
  out (_handle_err err w) = Done tt /\
  emitted (_handle_err err w) = [EvLog (Log_handling_error err)] /\
  received_errors (self (final (_handle_err err w))) =
    received_errors (self w) ++
    (if save_history (settings (self w)) then [err] else []) /\
  sent_messages (self (final (_handle_err err w))) = sent_messages (self w) /\
  sent_errors (self (final (_handle_err err w))) = sent_errors (self w) /\
  received_messages (self (final (_handle_err err w)))
    = received_messages (self w) /\
  settings (self (final (_handle_err err w))) = settings (self w).
Proof.
  unfold _handle_err. mrun.
  destruct (save_history (settings (self w))); mrun;
    rewrite ?app_nil_r; repeat split; reflexivity.
Qed.

(** X17: the drain empties a queue of errors none of which is empty.
    When connecting succeeds within [K] attempts and the pops of the error
    queue yield the errors [errs] and then [None], [async_get_errors]
    returns after [length errs + 1] pops, has handed to the event loop
    one handler per error, in the order the errors were popped, and
    nothing else, and its last log record reports [length errs] errors.
    Each handler, whenever the event loop runs it, logs and appends its
    error to the history of received errors when [save_history] is on,
    leaving the other histories alone; the body of the drain writes no
    history. *)
Theorem drain_empties_the_queue (env : Env) (K : nat) (errs : list string)
    (fuel : nat) (w : World) :
  (forall n, answers_within (env_connect env) n K = true) ->
  Forall (fun e => e <> EmptyString) errs ->
  pops_yield env w (map Some errs ++ [None]) ->
  (K + List.length errs + 1 < fuel)%nat ->
  out (async_get_errors env fuel w) = Done tt /\
  collect spawned_of (emitted (async_get_errors env fuel w))
    = map Task_handle_err errs /\
  n_redis (final (async_get_errors env fuel w))
    = (n_redis w + List.length errs + 1)%nat /\
  last (emitted (async_get_errors env fuel w)) (EvLog Log_stopping)
    = EvLog (Log_errors_retrieved (Z.of_nat (List.length errs))) /\
  (forall err fuel' w',
     In err errs ->
     out (run_task env fuel' (Task_handle_err err) w') = Done tt /\
     emitted (run_task env fuel' (Task_handle_err err) w')
       = [EvLog (Log_handling_error err)] /\
     received_errors (self (final (run_task env fuel' (Task_handle_err err)
                                     w'))) =
       received_errors (self w') ++
       (if save_history (settings (self w')) then [err] else []) /\
     sent_messages (self (final (run_task env fuel' (Task_handle_err err)
                                   w'))) = sent_messages (self w') /\
     sent_errors (self (final (run_task env fuel' (Task_handle_err err)
                                 w'))) = sent_errors (self w') /\
     received_messages (self (final (run_task env fuel' (Task_handle_err err)
                                       w'))) = received_messages (self w')).
Proof.
  intros Hconnect Hne Hpops Hfuel.
  pose proof (get_errors_accounts env fuel w) as Hacc.
  destruct (get_errors_drains_nonempty env K Hconnect errs fuel w
              Hne Hpops Hfuel) as (w2 & tr & Hrun & Hp & Hn & Hh).
  rewrite Hrun in *. cbn [out final emitted] in *.
  split; [reflexivity|].
  split.
  { rewrite Hp in Hacc. apply app_inv_head in Hacc. symmetry. exact Hacc. }
  split; [exact Hn|]. split; [apply last_last|].
  intros err fuel' w' _. cbn [run_task].
  destruct (handle_err_effect err w') as (H1 & H2 & H3 & H4 & H5 & H6 & _).
  repeat split; assumption.
Qed.

Lemma drain_empties_the_queue_witness :
  (forall n, answers_within (env_connect (queue_env 0 ["e1"; "e2"])) n 1
             = true) /\
  Forall (fun e => e <> EmptyString) ["e1"; "e2"] /\
  pops_yield (queue_env 0 ["e1"; "e2"]) (fresh_world default_settings 0)
    (map Some ["e1"; "e2"] ++ [None]) /\
  (1 + List.length ["e1"; "e2"] + 1 < 5)%nat /\
  collect spawned_of
    (emitted (async_get_errors (queue_env 0 ["e1"; "e2"]) 5
                (fresh_world default_settings 0)))
    = map Task_handle_err ["e1"; "e2"].
Proof.
  assert (H1 : forall n,
            answers_within (env_connect (queue_env 0 ["e1"; "e2"])) n 1
            = true) by (intros n; reflexivity).
  assert (H2 : Forall (fun e => e <> EmptyString) ["e1"; "e2"])
    by (repeat constructor; discriminate).
  assert (H3 : pops_yield (queue_env 0 ["e1"; "e2"])
                 (fresh_world default_settings 0)
                 (map Some ["e1"; "e2"] ++ [None])).
  { intros i v Hv. destruct i as [|[|[|i]]]; cbn in Hv.
    - injection Hv as <-. reflexivity.
    - injection Hv as <-. reflexivity.
    - injection Hv as <-. reflexivity.
    - destruct i; discriminate Hv. }
  assert (H4 : (1 + List.length ["e1"; "e2"] + 1 < 5)%nat) by (cbn; lia).
  split; [exact H1|]. split; [exact H2|]. split; [exact H3|].
  split; [exact H4|].
  exact (proj1 (proj2
    (drain_empties_the_queue (queue_env 0 ["e1"; "e2"]) 1 ["e1"; "e2"] 5
       (fresh_world default_settings 0) H1 H2 H3 H4))).
Defined.

(** * The worker and its tasks over a whole run *)


















(** * The exact clock and the clock of the interpreter *)

(** The runs of the worker are verified over readings of the clock taken
    as exact numbers.  As long as the sums and differences the code
    computes on its readings are exact in binary64, the exact budget
    check and the exact ticker are the ones of the interpreter. *)

Lemma to_Q_finite_nonzero (s : bool) (m : positive) (e : Z) :
  ~ Binary64.to_Q (S754_finite s m e) == 0.
Proof.
  cbn [Binary64.to_Q]. pose proof (Qpower_2_pos e) as Hp.
  destruct s.
  - pose proof (inject_Z_neg_lt m) as Hm. intros H. nra.
  - pose proof (inject_Z_pos_gt m) as Hm. intros H. nra.
Qed.

Lemma truth_to_Q (x : Binary64.float) :
  Binary64.number x = true ->
  Binary64.truth x = negb (Qeq_bool (Binary64.to_Q x) 0).
Proof.
  destruct x as [s| | |s m e]; cbn [Binary64.number]; try discriminate;
    intros _.
  - reflexivity.
  - assert (H : Qeq_bool (Binary64.to_Q (S754_finite s m e)) 0 = false).
    { destruct (Qeq_bool (Binary64.to_Q (S754_finite s m e)) 0) eqn:E;
        [|reflexivity].
      apply Qeq_bool_iff in E. destruct (to_Q_finite_nonzero s m e E). }
    rewrite H. destruct s; reflexivity.
Qed.

Lemma Qlt_bool_compat (a b c d : Q) :
  a == c -> b == d -> Qlt_bool a b = Qlt_bool c d.
Proof.
  intros Hac Hbd.
  destruct (Qlt_bool a b) eqn:E1, (Qlt_bool c d) eqn:E2; try reflexivity.
  - apply Qlt_bool_iff in E1. apply Qlt_bool_false_iff in E2. lra.
  - apply Qlt_bool_false_iff in E1. apply Qlt_bool_iff in E2. lra.
Qed.

Lemma Qeq_bool_compat (a c : Q) :
  a == c -> Qeq_bool a 0 = Qeq_bool c 0.
Proof.
  intros Hac.
  destruct (Qeq_bool a 0) eqn:E1, (Qeq_bool c 0) eqn:E2; try reflexivity.
  - apply Qeq_bool_iff in E1.
    assert (H : c == 0) by lra. apply Qeq_bool_iff in H. congruence.
  - apply Qeq_bool_iff in E2.
    assert (H : a == 0) by lra. apply Qeq_bool_iff in H. congruence.
Qed.

Lemma gt_Qlt_bool (x y : Binary64.float) :
  Binary64.number x = true -> Binary64.number y = true ->
  Binary64.gt x y = Qlt_bool (Binary64.to_Q y) (Binary64.to_Q x).
Proof.
  intros Hx Hy. pose proof (gt_to_Q x y Hx Hy) as H.
  destruct (Binary64.gt x y), (Qlt_bool (Binary64.to_Q y) (Binary64.to_Q x))
    eqn:E; try reflexivity.
  - apply Qlt_bool_false_iff in E.
    assert (Binary64.to_Q y < Binary64.to_Q x) by (apply H; reflexivity).
    lra.
  - apply Qlt_bool_iff in E. apply H in E. discriminate E.
Qed.

(** X13: the exact clock is the clock of the interpreter where the
    interpreter does not round.  For a worker whose lifetime, start time
    and clock reading are the numbers of the doubles [life], [start]
    and [now], and when the double [start + life] is exact,
    [_keep_going] over the exact clock returns what the binary64 check
    returns.  For a ticker whose fields are the numbers of the fields of
    a binary64 ticker, and when the doubles [last_call + timeout] and
    [deadline - now] are exact, [Ticker.__anext__] over the exact clock
    sleeps exactly when the binary64 one asks for a sleep, and for the
    number of the double it asks for. *)
Theorem exact_clock_is_binary64 (env : Env) (w : World) :
  (forall (life start now : Binary64.float) (q : Q),
     Binary64.number life = true ->
     Binary64.number now = true ->
     Binary64.number (Binary64.add start life) = true ->
     Binary64.to_Q (Binary64.add start life)
       == Binary64.to_Q start + Binary64.to_Q life ->
     lifetime (settings (self w)) == Binary64.to_Q life ->
     _start_time (self w) = Some q -> q == Binary64.to_Q start ->
     clock_reading env w == Binary64.to_Q now ->
     out (_keep_going env w) =
       match Binary64._keep_going (_stop (self w)) life (Some start) now
       with
       | inl b => Done b
       | inr e => Raised e
       end) /\
  (forall (tk : Ticker) (tk64 : Binary64.Ticker)
          (now after : Binary64.float),
     Binary64.number now = true ->
     Binary64.number
       (Binary64.add (Binary64.last_call tk64) (Binary64.timeout tk64))
       = true ->
     Binary64.to_Q
       (Binary64.add (Binary64.last_call tk64) (Binary64.timeout tk64))
       == Binary64.to_Q (Binary64.last_call tk64)
          + Binary64.to_Q (Binary64.timeout tk64) ->
     Binary64.to_Q
       (Binary64.sub
          (Binary64.add (Binary64.last_call tk64) (Binary64.timeout tk64))
          now)
       == Binary64.to_Q
            (Binary64.add (Binary64.last_call tk64) (Binary64.timeout tk64))
          - Binary64.to_Q now ->
     last_call tk == Binary64.to_Q (Binary64.last_call tk64) ->
     timeout tk == Binary64.to_Q (Binary64.timeout tk64) ->
     clock_reading env w == Binary64.to_Q now ->
     match fst (Binary64.Ticker_anext tk64 now after) with
     | None => emitted (Ticker_anext env tk w) = []
     | Some d64 =>
         exists d, emitted (Ticker_anext env tk w) = [EvSleep d] /\
                   d == Binary64.to_Q d64
     end).
Proof.
  split.
  - intros life start now q Hl Hn Hs Hexact Hlife Hstart Hq Hnow.
    unfold _keep_going, Binary64._keep_going, clock_reading in *. mrun.
    destruct (_stop (self w)); [reflexivity|].
    rewrite (truth_to_Q life Hl), negb_involutive.
    rewrite (Qeq_bool_compat _ _ Hlife).
    destruct (Qeq_bool (Binary64.to_Q life) 0); [reflexivity|].
    rewrite Hstart. mrun. f_equal.
    rewrite (gt_Qlt_bool _ _ Hs Hn).
    apply Qlt_bool_compat; [exact Hnow|]. rewrite Hexact. lra.
  - intros tk tk64 now after Hn Hc Hadd Hsub Hlast Htime Hnow.
    unfold Ticker_anext, Binary64.Ticker_anext, clock_reading in *.
    cbn [fst]. mrun.
    rewrite (gt_Qlt_bool _ _ Hc Hn).
    assert (Hcmp : Qlt_bool (clock w + env_delay env (n_delay w))
                     (last_call tk + timeout tk)
                   = Qlt_bool (Binary64.to_Q now)
                       (Binary64.to_Q
                          (Binary64.add (Binary64.last_call tk64)
                             (Binary64.timeout tk64)))).
    { apply Qlt_bool_compat; [exact Hnow|]. rewrite Hadd. lra. }
    rewrite Hcmp.
    destruct (Qlt_bool (Binary64.to_Q now)
                (Binary64.to_Q
                   (Binary64.add (Binary64.last_call tk64)
                      (Binary64.timeout tk64)))); mrun.
    + eexists. split; [reflexivity|]. rewrite Hsub, Hadd. lra.
    + reflexivity.
Qed.

Lemma exact_clock_is_binary64_witness :
  Binary64.number double_5 = true /\
  Binary64.number double_5 = true /\
  Binary64.number (Binary64.add (S754_zero false) double_5) = true /\
  Binary64.to_Q (Binary64.add (S754_zero false) double_5)
    == Binary64.to_Q (S754_zero false) + Binary64.to_Q double_5 /\
  lifetime (settings (self (world_lifetime_5 5)))
    == Binary64.to_Q double_5 /\
  _start_time (self (world_lifetime_5 5)) = Some 0 /\
  0 == Binary64.to_Q (S754_zero false) /\
  clock_reading (calm_env 0 0) (world_lifetime_5 5)
    == Binary64.to_Q double_5 /\
  out (_keep_going (calm_env 0 0) (world_lifetime_5 5)) =
    match Binary64._keep_going (_stop (self (world_lifetime_5 5))) double_5
            (Some (S754_zero false)) double_5
    with
    | inl b => Done b
    | inr e => Raised e
    end.
Proof.
  assert (H1 : Binary64.number double_5 = true) by (vm_compute; reflexivity).
  assert (H3 : Binary64.number (Binary64.add (S754_zero false) double_5)
               = true) by (vm_compute; reflexivity).
  assert (H4 : Binary64.to_Q (Binary64.add (S754_zero false) double_5)
               == Binary64.to_Q (S754_zero false) + Binary64.to_Q double_5)
    by (vm_compute; reflexivity).
  assert (H5 : lifetime (settings (self (world_lifetime_5 5)))
               == Binary64.to_Q double_5) by (vm_compute; reflexivity).
  assert (H7 : 0 == Binary64.to_Q (S754_zero false))
    by (vm_compute; reflexivity).
  assert (H8 : clock_reading (calm_env 0 0) (world_lifetime_5 5)
               == Binary64.to_Q double_5) by (vm_compute; reflexivity).
  split; [exact H1|]. split; [exact H1|]. split; [exact H3|].
  split; [exact H4|]. split; [exact H5|]. split; [reflexivity|].
  split; [exact H7|]. split; [exact H8|].
  exact (proj1 (exact_clock_is_binary64 (calm_env 0 0) (world_lifetime_5 5))
           double_5 (S754_zero false) double_5 0 H1 H1 H3 H4 H5 eq_refl H7
           H8).
Defined.
